(** * Frame-rendering orchestration of [renderFrames]

    A shallow embedding of [packages/renderer/src/render-frames.ts]:
    the render plan and the result manifest, the per-frame attempt
    ([renderFrameWithOptionToReject]), the retry controller
    ([renderFrameAndRetryTargetClose]) and the interleaved execution of
    all frame tasks against the page pool.

    Asynchronous code is modelled by explicit state passing: every
    [await] of the source is a program point of a small state machine,
    and the environment (the browser, the cancel signal, the scheduler)
    drives the machine through a list of events. *)

From Stdlib Require Import ZArith String List Bool Lia DecimalString.
From stdpp Require Import base list.
Import ListNotations.

Local Open Scope string_scope.
Local Open Scope Z_scope.

(** ** Errors

    A JavaScript [Error] is identified by its message. *)

Record Error := mkError { message : string }.

(** line 288 *)
Definition stoppedError : Error := mkError "Render was stopped".
(** lines 306-308 *)
Definition neitherOutputError : Error :=
  mkError "Called renderFrames() without specifying either `outputDir` or `onFrameBuffer`".
(** lines 312-314 *)
Definition bothOutputsError : Error :=
  mkError "Pass either `outputDir` or `onFrameBuffer` to renderFrames(), not both.".
(** line 346 *)
Definition nullBufferError : Error := mkError "unexpected null buffer".

(** Settlement of a promise of [void]. *)
Inductive Outcome :=
| Fulfilled
| Rejected (e : Error).

(** line 52 *)
Definition MAX_RETRIES_PER_FRAME : nat := 1.

(** ** Render plan *)

(** [CountType] of [get-frame-padded-index]: ['actual-frames' | 'from-zero']. *)
Inductive CountType :=
| ActualFrames
| FromZero.

(** lines 249-250 *)
Definition countType (everyNthFrame : Z) : CountType :=
  if everyNthFrame =? 1 then ActualFrames else FromZero.

(** Modelled from the spec: [getRealFrameRange] (get-frame-to-render.ts is
    not part of the sources).  The plan is built from the total addressable
    frame count and an optional sub-range; without a sub-range every
    addressable frame [0 .. durationInFrames - 1] is in range. *)
Definition getRealFrameRange (durationInFrames : Z) (frameRange : option (Z * Z)) : Z * Z :=
  match frameRange with
  | Some r => r
  | None => (0, durationInFrames - 1)
  end.

(** The frames of a closed range, in increasing order. *)
Definition framesInRange (r : Z * Z) : list Z :=
  map (fun i => fst r + Z.of_nat i) (seq 0 (Z.to_nat (snd r - fst r + 1))).

(** Modelled from the spec: [getFramesToRender]
    (get-duration-from-frame-range.ts is not part of the sources).  The
    frame list is the range intersected with the stride, and a stride
    greater than 1 forces the first in-range frame to be included. *)
Definition getFramesToRender (r : Z * Z) (everyNthFrame : Z) : list Z :=
  List.filter
    (fun f => (f mod everyNthFrame =? 0) || ((1 <? everyNthFrame) && (f =? fst r)))
    (framesInRange r).

Section FilePadLength.

(** The spec fixes only what each width is computed from: the last
    (maximum) actual frame number, or the count of selected frames. *)
Variable widthOfLastFrame : option Z -> nat.
Variable widthOfFrameCount : nat -> nat.

(** Modelled from the spec: [getFilePadLength] (get-frame-padded-index.ts is
    not part of the sources).  In actual-frames mode the padding is computed
    from the maximum actual frame number, in from-zero mode from the count
    of selected frames. *)
Definition getFilePadLength (lastFrame : option Z) (totalFrames : nat) (ct : CountType) : nat :=
  match ct with
  | ActualFrames => widthOfLastFrame lastFrame
  | FromZero => widthOfFrameCount totalFrames
  end.

(** The plan computed at the top of [innerRenderFrames] (lines 157-163 and
    249-256).  [framesToRender[framesToRender.length - 1]] is [undefined]
    for an empty list, hence the [option]. *)
Record RenderPlan := mkPlan {
  framesToRender : list Z;
  lastFrame : option Z;
  planCountType : CountType;
  filePadLength : nat
}.

Definition makePlan (durationInFrames : Z) (frameRange : option (Z * Z))
    (everyNthFrame : Z) : RenderPlan :=
  let realFrameRange := getRealFrameRange durationInFrames frameRange in
  let frames := getFramesToRender realFrameRange everyNthFrame in
  let lastF := last frames in
  let ct := countType everyNthFrame in
  {| framesToRender := frames;
     lastFrame := lastF;
     planCountType := ct;
     filePadLength := getFilePadLength lastF (length frames) ct |}.

End FilePadLength.

(** The pairs [(frame, index)] of [framesToRender.map((frame, index) => ...)]
    (line 457): [index] is the position in the frame list. *)
Definition frameTasks (frames : list Z) : list (Z * nat) :=
  imap (fun index frame => (frame, index)) frames.

(** Modelled from the spec: the number a frame gets in its output file name
    ([getFrameOutputFileName] of get-frame-padded-index.ts is not part of
    the sources).  In actual-frames mode output indices equal the actual
    frame numbers, otherwise they are renumbered from zero. *)
Definition outputIndex (ct : CountType) (frame : Z) (index : nat) : Z :=
  match ct with
  | ActualFrames => frame
  | FromZero => Z.of_nat index
  end.

Definition outputIndices (ct : CountType) (frames : list Z) : list Z :=
  map (fun fi => outputIndex ct (fst fi) (snd fi)) (frameTasks frames).

(** ** Result manifest (lines 467-479) *)

(** [String(n)] for a natural number. *)
Definition stringOfNat (n : nat) : string :=
  NilEmpty.string_of_uint (Nat.to_uint n).

Section Manifest.

Variable TAsset : Type.

Record AssetsInfo := mkAssetsInfo {
  ai_assets : list (option (list TAsset));
  imageSequenceName : string;
  firstFrameIndex : option Z
}.

Record RenderFramesOutput := mkOutput {
  assetsInfo : AssetsInfo;
  frameCount : nat
}.

(** The value [happyPath] resolves with.  [framesToRender[0]] is
    [undefined] for an empty list.  The [downloadMap] is passed through
    unchanged and left out. *)
Definition happyPath (plan : RenderPlan) (imageFormat : string)
    (assets : list (option (list TAsset))) : RenderFramesOutput :=
  let firstFrameIdx :=
    match planCountType plan with
    | FromZero => Some 0
    | ActualFrames => head (framesToRender plan)
    end in
  {| assetsInfo :=
       {| ai_assets := assets;
          imageSequenceName :=
            ("element-%0" ++ stringOfNat (filePadLength plan) ++ "d." ++ imageFormat)%string;
          firstFrameIndex := firstFrameIdx |};
     frameCount := length (framesToRender plan) |}.

End Manifest.

Arguments happyPath {TAsset} plan imageFormat assets.
Arguments assetsInfo {TAsset} _.
Arguments frameCount {TAsset} _.
Arguments ai_assets {TAsset} _.
Arguments imageSequenceName {TAsset} _.
Arguments firstFrameIndex {TAsset} _.

(** ** Page pool *)

Definition Page := nat.

Fixpoint removeFirst (page : Page) (l : list Page) : list Page :=
  match l with
  | [] => []
  | x :: rest => if Nat.eqb x page then rest else x :: removeFirst page rest
  end.

(** Modelled from the spec: the [Pool] class (pool.ts is not part of the
    sources).  [acquire] returns an idle handle immediately or enqueues the
    caller; [release] returns a handle to idle and wakes the longest-waiting
    caller, if any, who then holds it.  [busy] lists the handles marked
    busy: handed out and not yet released. *)
Module Pool.

Record t := mk {
  resources : list Page;
  waiters : list nat;
  busy : list Page
}.

Definition create (pages : list Page) : t :=
  {| resources := pages; waiters := []; busy := [] |}.

Definition acquire (caller : nat) (p : t) : t * option Page :=
  match resources p with
  | page :: rest =>
      ({| resources := rest; waiters := waiters p; busy := page :: busy p |}, Some page)
  | [] =>
      ({| resources := []; waiters := waiters p ++ [caller]; busy := busy p |}, None)
  end.

Definition release (page : Page) (p : t) : t * option nat :=
  match waiters p with
  | w :: ws =>
      ({| resources := resources p; waiters := ws;
          busy := page :: removeFirst page (busy p) |}, Some w)
  | [] =>
      ({| resources := resources p ++ [page]; waiters := [];
          busy := removeFirst page (busy p) |}, None)
  end.

Definition idleCount (p : t) : nat := length (resources p).
Definition busyCount (p : t) : nat := length (busy p).

End Pool.

(** ** Frame attempts and frame tasks *)

(** Program points of one call of [renderFrameWithOptionToReject]: the
    [await]s of lines 284, 285, 303 and 321. *)
Inductive BodyPc :=
| BAwaitPool                 (* line 284: await poolPromise *)
| BAwaitAcquire              (* line 285: queued in the pool *)
| BHolding (page : Page)     (* line 285 resolved, line 287 not yet run *)
| BSeeking (page : Page)     (* line 303: await seekToFrame *)
| BCapturing (page : Page)   (* line 321: await takeFrameAndCompose *)
| BFinished (kept : option Page).
    (* returned or threw; [kept] is the page it never released *)

(** The page an attempt has acquired and not released. *)
Definition heldPage (pc : BodyPc) : option Page :=
  match pc with
  | BHolding page | BSeeking page | BCapturing page => Some page
  | BFinished kept => kept
  | BAwaitPool | BAwaitAcquire => None
  end.

Record Body := mkBody {
  b_index : nat;
  b_frame : Z;
  b_pc : BodyPc
}.

(** Program points of [renderFrameAndRetryTargetClose]; the recursive call
    of line 447 is a tail call inside the [catch] block and is folded into
    the same task with updated [retriesLeft] and [attempt]. *)
Inductive TaskStatus :=
| TRacing (b : nat)          (* line 406: awaiting the race, attempt [b] *)
| TCaught (e : Error)        (* race rejected, line 414 not yet run *)
| TReplacing                 (* line 437: awaiting replaceBrowser *)
| TFulfilled
| TRejected (e : Error).

Record Task := mkTask {
  t_frame : Z;
  t_index : nat;
  t_retriesLeft : nat;
  t_attempt : nat;
  t_status : TaskStatus
}.

Definition withPc (pc : BodyPc) (body : Body) : Body :=
  mkBody (b_index body) (b_frame body) pc.

Definition withStatus (st : TaskStatus) (task : Task) : Task :=
  mkTask (t_frame task) (t_index task) (t_retriesLeft task) (t_attempt task) st.

Inductive PoolPromise :=
| PoolPending
| PoolResolved
| PoolRejected (e : Error).

(** What a run does to its collaborators, newest first. *)
Inductive Obs :=
| OAcquire (b : nat) (page : Page)            (* the pool handed [page] to attempt [b] *)
| ORejectStopped (b : nat)                    (* line 288 *)
| OSeek (b : nat) (page : Page) (frame : Z)   (* line 303 *)
| OCapture (b : nat) (page : Page) (frame : Z) (* line 321 *)
| OFrameBuffer (frame : Z)                    (* line 349 *)
| OWrite (b : nat) (index : nat)              (* line 357 *)
| OFrameUpdate (rendered : nat) (frame : Z)   (* line 370 *)
| ORelease (b : nat) (page : Page)            (* line 373 *)
| OThrow (b : nat) (e : Error)                (* the attempt threw *)
| OReject (b : nat) (e : Error)               (* line 294 *)
| OWarnGiveUp (attempt : nat) (frame : Z)     (* line 428 *)
| OWarnRetry (frame : Z) (retriesLeft : nat)  (* line 434 *)
| OReplaceBrowser (t : nat)                   (* a replacement cycle starts *)
| ORefill (pages : list Page).                (* lines 438-445 *)

(** The options of [renderFrames] the frame loop reads.  A callback is
    represented by whether it was passed. *)
Record Options := mkOptions {
  outputDir : option string;
  onFrameBuffer : bool;
  imageFormat : string;
  actualConcurrency : nat;
  cancelSignal : bool
}.

(** JavaScript truthiness of a [string | null]. *)
Definition truthyString (o : option string) : bool :=
  match o with
  | Some s => negb (String.eqb s "")
  | None => false
  end.

(** ** The [catch] block of [renderFrameAndRetryTargetClose] (lines 414-453) *)

Inductive CatchDecision :=
| Rethrow               (* lines 416 and 420 *)
| ReturnSilently        (* line 424 *)
| CheckRetries.         (* line 427 is reached *)

Section Classification.

(** [isUserCancelledRender] (make-cancel-signal) and [isTargetClosedErr]
    (browser/is-target-closed-err) are imported predicates on errors. *)
Variable isUserCancelledRender : Error -> bool.
Variable isTargetClosedErr : Error -> bool.

(** lines 415-425 *)
Definition catchDecision (err : Error) (stopped : bool) : CatchDecision :=
  if isUserCancelledRender err then Rethrow
  else if negb (isTargetClosedErr err) then Rethrow
  else if stopped then ReturnSilently
  else CheckRetries.

(** *** One task seen on its own

    What the environment does to one attempt: how the race of line 406
    settles, whether the run was stopped when the [catch] block runs, and
    how [replaceBrowser] settles. *)
Record AttemptEnv := mkAttemptEnv {
  raceOutcome : Outcome;
  stoppedAtCatch : bool;
  replaceOutcome : Outcome
}.

Inductive TaskObs :=
| TAttempt (frame : Z) (index : nat) (retriesLeft attempt : nat)  (* line 407 *)
| TWarnGiveUp (attempt : nat) (frame : Z)                         (* line 428 *)
| TWarnRetry (frame : Z) (retriesLeft : nat)                      (* line 434 *)
| TReplaceBrowser.                                                (* line 437 *)

(** [renderFrameAndRetryTargetClose], oldest observation first.  The
    recursion is on [retriesLeft]: line 427 stops it at 0 and line 450
    passes [retriesLeft - 1]. *)
Fixpoint renderFrameAndRetryTargetClose (env : nat -> AttemptEnv)
    (frame : Z) (index : nat) (retriesLeft attempt : nat) : list TaskObs * Outcome :=
  let now := TAttempt frame index retriesLeft attempt in
  match raceOutcome (env attempt) with
  | Fulfilled => ([now], Fulfilled)
  | Rejected err =>
      match catchDecision err (stoppedAtCatch (env attempt)) with
      | Rethrow => ([now], Rejected err)
      | ReturnSilently => ([now], Fulfilled)
      | CheckRetries =>
          match retriesLeft with
          | O => ([now; TWarnGiveUp attempt frame], Rejected err)
          | S retriesLeft' =>
              match replaceOutcome (env attempt) with
              | Rejected err' =>
                  ([now; TWarnRetry frame retriesLeft; TReplaceBrowser], Rejected err')
              | Fulfilled =>
                  let '(obs, res) :=
                    renderFrameAndRetryTargetClose env frame index retriesLeft' (S attempt) in
                  (now :: TWarnRetry frame retriesLeft :: TReplaceBrowser :: obs, res)
              end
          end
      end
  end.

Definition isAttempt (o : TaskObs) : bool :=
  match o with TAttempt _ _ _ _ => true | _ => false end.

Definition attempts (obs : list TaskObs) : nat :=
  length (List.filter isAttempt obs).

End Classification.

(** ** The frame loop of [innerRenderFrames] *)

Section Engine.

Variable TAsset : Type.

(** [compressAsset] of compress-assets: given the assets of the frames
    recorded so far, the compressed form of a new asset. *)
Variable compressAsset : list TAsset -> TAsset -> TAsset.

Variable isUserCancelledRender : Error -> bool.
Variable isTargetClosedErr : Error -> bool.

(** [cancelErrorMessages.renderFrames] of make-cancel-signal. *)
Variable cancelMessage : string.

Variable opts : Options.

(** [framesToRender] (line 162). *)
Variable frames : list Z.

Definition cancelError : Error := mkError cancelMessage.

(** How [takeFrameAndCompose] settles. *)
Inductive Capture :=
| Captured (hasBuffer : bool) (collectedAssets : list TAsset)
| CaptureFailed (e : Error).

Inductive Event :=
| EvPoolReady                            (* [getPool] resolves *)
| EvPoolFailed (e : Error)               (* [getPool] rejects *)
| EvCancel                               (* the cancel signal fires *)
| EvResume (b : nat)                     (* attempt [b] resumes after lines 284 or 285 *)
| EvSeekDone (b : nat) (r : Outcome)     (* [seekToFrame] of attempt [b] settles *)
| EvCaptureDone (b : nat) (r : Capture)  (* [takeFrameAndCompose] of attempt [b] settles *)
| EvPageError (b : nat) (e : Error)      (* the page of attempt [b] reports an error *)
| EvCatch (t : nat)                      (* task [t] runs its [catch] block *)
| EvReplaced                             (* the new browser and its pages are ready *)
| EvReplaceFailed (e : Error).           (* the replacement failed *)

Record State := mkState {
  poolPromise : PoolPromise;
  pool : Pool.t;
  nextPage : Page;
  assets : list (option (list TAsset));
  framesRendered : nat;
  stopped : bool;
  bodies : list Body;
  tasks : list Task;
  replacing : bool;
  refills : nat;
  result : option Outcome;
  trace : list Obs
}.

Definition setPoolPromise (x : PoolPromise) (s : State) : State :=
  mkState x (pool s) (nextPage s) (assets s) (framesRendered s) (stopped s)
    (bodies s) (tasks s) (replacing s) (refills s) (result s) (trace s).
Definition setPool (x : Pool.t) (s : State) : State :=
  mkState (poolPromise s) x (nextPage s) (assets s) (framesRendered s) (stopped s)
    (bodies s) (tasks s) (replacing s) (refills s) (result s) (trace s).
Definition setNextPage (x : Page) (s : State) : State :=
  mkState (poolPromise s) (pool s) x (assets s) (framesRendered s) (stopped s)
    (bodies s) (tasks s) (replacing s) (refills s) (result s) (trace s).
Definition setAssets (x : list (option (list TAsset))) (s : State) : State :=
  mkState (poolPromise s) (pool s) (nextPage s) x (framesRendered s) (stopped s)
    (bodies s) (tasks s) (replacing s) (refills s) (result s) (trace s).
Definition setFramesRendered (x : nat) (s : State) : State :=
  mkState (poolPromise s) (pool s) (nextPage s) (assets s) x (stopped s)
    (bodies s) (tasks s) (replacing s) (refills s) (result s) (trace s).
Definition setStopped (x : bool) (s : State) : State :=
  mkState (poolPromise s) (pool s) (nextPage s) (assets s) (framesRendered s) x
    (bodies s) (tasks s) (replacing s) (refills s) (result s) (trace s).
Definition setBodies (x : list Body) (s : State) : State :=
  mkState (poolPromise s) (pool s) (nextPage s) (assets s) (framesRendered s) (stopped s)
    x (tasks s) (replacing s) (refills s) (result s) (trace s).
Definition setTasks (x : list Task) (s : State) : State :=
  mkState (poolPromise s) (pool s) (nextPage s) (assets s) (framesRendered s) (stopped s)
    (bodies s) x (replacing s) (refills s) (result s) (trace s).
Definition setReplacing (x : bool) (s : State) : State :=
  mkState (poolPromise s) (pool s) (nextPage s) (assets s) (framesRendered s) (stopped s)
    (bodies s) (tasks s) x (refills s) (result s) (trace s).
Definition setRefills (x : nat) (s : State) : State :=
  mkState (poolPromise s) (pool s) (nextPage s) (assets s) (framesRendered s) (stopped s)
    (bodies s) (tasks s) (replacing s) x (result s) (trace s).
Definition setResult (x : option Outcome) (s : State) : State :=
  mkState (poolPromise s) (pool s) (nextPage s) (assets s) (framesRendered s) (stopped s)
    (bodies s) (tasks s) (replacing s) (refills s) x (trace s).
Definition emit (o : Obs) (s : State) : State :=
  mkState (poolPromise s) (pool s) (nextPage s) (assets s) (framesRendered s) (stopped s)
    (bodies s) (tasks s) (replacing s) (refills s) (result s) (o :: trace s).

Definition setPc (b : nat) (pc : BodyPc) (s : State) : State :=
  setBodies (alter (withPc pc) b (bodies s)) s.

Definition setStatus (t : nat) (st : TaskStatus) (s : State) : State :=
  setTasks (alter (withStatus st) t (tasks s)) s.

(** The outer promise of [renderFrames] settles once: with the first
    rejection of a frame task ([Promise.all], line 456), with the
    cancellation (line 558), or when every task is fulfilled. *)
Definition settleRun (r : Outcome) (s : State) : State :=
  match result s with
  | Some _ => s
  | None => setResult (Some r) s
  end.

Definition isFulfilled (t : Task) : bool :=
  match t_status t with TFulfilled => true | _ => false end.

Definition joinTasks (s : State) : State :=
  if forallb isFulfilled (tasks s) then settleRun Fulfilled s else s.

(** The promise of [renderFrame] for attempt [b] settles.  Only the first
    settlement of the race of line 406 counts: the task must still be
    racing this very attempt. *)
Definition settle (b : nat) (index : nat) (r : Outcome) (s : State) : State :=
  match tasks s !! index with
  | Some task =>
      match t_status task with
      | TRacing b' =>
          if Nat.eqb b' b then
            setStatus index (match r with Fulfilled => TFulfilled | Rejected e => TCaught e end) s
          else s
      | _ => s
      end
  | None => s
  end.

(** An exception leaves the attempt: nothing after the throwing line runs. *)
Definition throwFrom (b : nat) (body : Body) (e : Error) (s : State) : State :=
  settle b (b_index body) (Rejected e)
    (setPc b (BFinished (heldPage (b_pc body))) (emit (OThrow b e) s)).

(** [pool.release(page)]: a waiting attempt, if any, resumes holding the page. *)
Definition releaseToPool (page : Page) (s : State) : State :=
  match Pool.release page (pool s) with
  | (pool', Some w) => emit (OAcquire w page) (setPc w (BHolding page) (setPool pool' s))
  | (pool', None) => setPool pool' s
  end.

(** [assets[index] = x]; a JavaScript array grows when written out of range. *)
Definition arraySet {A} (index : nat) (x : A) (l : list (option A)) : list (option A) :=
  if Nat.ltb index (length l) then <[index := Some x]> l
  else l ++ replicate (index - length l) None ++ [Some x].

(** lines 284-285 *)
Definition resumeAwaitPool (b : nat) (body : Body) (s : State) : State :=
  match poolPromise s with
  | PoolPending => s
  | PoolRejected e => throwFrom b body e s
  | PoolResolved =>
      match Pool.acquire b (pool s) with
      | (pool', Some page) => emit (OAcquire b page) (setPc b (BHolding page) (setPool pool' s))
      | (pool', None) => setPc b BAwaitAcquire (setPool pool' s)
      end
  end.

(** lines 287-303 *)
Definition resumeHolding (b : nat) (body : Body) (page : Page) (s : State) : State :=
  if stopped s then
    settle b (b_index body) (Rejected stoppedError)
      (setPc b (BFinished (Some page)) (emit (ORejectStopped b) s))
  else
    emit (OSeek b page (b_frame body)) (setPc b (BSeeking page) s).

Definition captures : bool := negb (String.eqb (imageFormat opts) "none").

(** lines 303-343 *)
Definition afterSeek (b : nat) (body : Body) (page : Page) (r : Outcome) (s : State) : State :=
  match r with
  | Rejected e => throwFrom b body e s
  | Fulfilled =>
      if negb (truthyString (outputDir opts)) && negb (onFrameBuffer opts) && captures then
        throwFrom b body neitherOutputError s
      else if truthyString (outputDir opts) && onFrameBuffer opts && captures then
        throwFrom b body bothOutputsError s
      else
        emit (OCapture b page (b_frame body)) (setPc b (BCapturing page) s)
  end.

(** lines 321-373 *)
Definition afterCapture (b : nat) (body : Body) (page : Page) (r : Capture) (s : State) : State :=
  match r with
  | CaptureFailed e => throwFrom b body e s
  | Captured hasBuffer collectedAssets =>
      if onFrameBuffer opts && negb hasBuffer then throwFrom b body nullBufferError s
      else
        let s1 := if onFrameBuffer opts then emit (OFrameBuffer (b_frame body)) s else s in
        let compressedAssets :=
          map (compressAsset (concat (omap id (assets s1)))) collectedAssets in
        let s2 := emit (OWrite b (b_index body))
                    (setAssets (arraySet (b_index body) compressedAssets (assets s1)) s1) in
        let s3 := setFramesRendered (S (framesRendered s2)) s2 in
        let s4 := emit (OFrameUpdate (framesRendered s3) (b_frame body)) s3 in
        let s5 := releaseToPool page (emit (ORelease b page) s4) in
        settle b (b_index body) Fulfilled (setPc b (BFinished None) s5)
  end.

(** lines 293-302: the [reject] callback handed to the page's error
    handlers.  It settles the promise and does not stop the attempt. *)
Definition pageError (b : nat) (body : Body) (e : Error) (s : State) : State :=
  settle b (b_index body) (Rejected e) (emit (OReject b e) s).

(** lines 267-269 and 409-411: the cancel signal runs its subscribers. *)
Definition cancelTask (t : Task) : Task :=
  match t_status t with
  | TRacing _ => withStatus (TCaught cancelError) t
  | _ => t
  end.

Definition fireCancel (s : State) : State :=
  if cancelSignal opts && negb (stopped s) then
    settleRun (Rejected cancelError) (setTasks (map cancelTask (tasks s)) (setStopped true s))
  else s.

Definition rejectTask (t : nat) (e : Error) (s : State) : State :=
  settleRun (Rejected e) (setStatus t (TRejected e) s).

(** Modelled from the spec: [replaceBrowser] of the crash recovery
    coordinator (replace-browser.ts is not part of the sources).  The
    coordinator keeps a [replacing] flag; a task that observes a crash while
    a replacement is in progress waits on that replacement instead of
    starting a second cycle. *)
Definition callReplaceBrowser (t : nat) (s : State) : State :=
  if replacing s then setStatus t TReplacing s
  else emit (OReplaceBrowser t) (setStatus t TReplacing (setReplacing true s)).

(** lines 414-437 *)
Definition catchBlock (t : nat) (task : Task) (err : Error) (s : State) : State :=
  match catchDecision isUserCancelledRender isTargetClosedErr err (stopped s) with
  | Rethrow => rejectTask t err s
  | ReturnSilently => setStatus t TFulfilled s
  | CheckRetries =>
      match t_retriesLeft task with
      | O => rejectTask t err (emit (OWarnGiveUp (t_attempt task) (t_frame task)) s)
      | S _ =>
          callReplaceBrowser t
            (emit (OWarnRetry (t_frame task) (t_retriesLeft task)) s)
      end
  end.

(** lines 438-445: [actualConcurrency] new pages are released into the pool. *)
Definition refillPool (s : State) : State :=
  let pages := seq (nextPage s) (actualConcurrency opts) in
  let s1 := emit (ORefill pages) (setNextPage (nextPage s + actualConcurrency opts)%nat s) in
  setRefills (S (refills s1)) (foldl (fun acc page => releaseToPool page acc) s1 pages).

(** lines 447-452 and 406-413: the recursive call starts a new attempt.
    Modelled from the spec: a subscriber added to a cancel signal that has
    already fired is told at once (make-cancel-signal.ts is not part of the
    sources). *)
Definition retryTask (t : nat) (s : State) : State :=
  match tasks s !! t with
  | Some task =>
      match t_status task with
      | TReplacing =>
          let b := length (bodies s) in
          let status := if stopped s then TCaught cancelError else TRacing b in
          setTasks
            (<[t := mkTask (t_frame task) (t_index task) (t_retriesLeft task - 1)
                      (t_attempt task + 1) status]> (tasks s))
            (setBodies (bodies s ++ [mkBody (t_index task) (t_frame task) BAwaitPool]) s)
      | _ => s
      end
  | None => s
  end.

Definition failReplacingTask (e : Error) (t : nat) (s : State) : State :=
  match tasks s !! t with
  | Some task =>
      match t_status task with
      | TReplacing => rejectTask t e s
      | _ => s
      end
  | None => s
  end.

Definition taskIds (s : State) : list nat := seq 0 (length (tasks s)).

(** The replacement settles for every task waiting on it.  The callback of
    lines 437-446 awaits [poolPromise] before it releases the new pages. *)
Definition replaced (s : State) : State :=
  if replacing s then
    match poolPromise s with
    | PoolPending => s
    | PoolResolved =>
        let s1 := setReplacing false (refillPool s) in
        foldl (fun acc t => retryTask t acc) s1 (taskIds s1)
    | PoolRejected e =>
        let s1 := setReplacing false s in
        foldl (fun acc t => failReplacingTask e t acc) s1 (taskIds s1)
    end
  else s.

Definition replaceFailed (e : Error) (s : State) : State :=
  if replacing s then
    let s1 := setReplacing false s in
    foldl (fun acc t => failReplacingTask e t acc) s1 (taskIds s1)
  else s.

(** lines 238-245: the pool is created with [actualConcurrency] pages. *)
Definition poolReady (s : State) : State :=
  match poolPromise s with
  | PoolPending =>
      let pages := seq (nextPage s) (actualConcurrency opts) in
      setPoolPromise PoolResolved
        (setPool (Pool.create pages)
           (setNextPage (nextPage s + actualConcurrency opts)%nat s))
  | _ => s
  end.

Definition poolFailed (e : Error) (s : State) : State :=
  match poolPromise s with
  | PoolPending => setPoolPromise (PoolRejected e) s
  | _ => s
  end.

Definition resume (b : nat) (s : State) : State :=
  match bodies s !! b with
  | Some body =>
      match b_pc body with
      | BAwaitPool => resumeAwaitPool b body s
      | BHolding page => resumeHolding b body page s
      | _ => s
      end
  | None => s
  end.

Definition seekDone (b : nat) (r : Outcome) (s : State) : State :=
  match bodies s !! b with
  | Some body =>
      match b_pc body with
      | BSeeking page => afterSeek b body page r s
      | _ => s
      end
  | None => s
  end.

Definition captureDone (b : nat) (r : Capture) (s : State) : State :=
  match bodies s !! b with
  | Some body =>
      match b_pc body with
      | BCapturing page => afterCapture b body page r s
      | _ => s
      end
  | None => s
  end.

Definition pageErrored (b : nat) (e : Error) (s : State) : State :=
  match bodies s !! b with
  | Some body =>
      match b_pc body with
      | BSeeking _ | BCapturing _ => pageError b body e s
      | _ => s
      end
  | None => s
  end.

Definition catch (t : nat) (s : State) : State :=
  match tasks s !! t with
  | Some task =>
      match t_status task with
      | TCaught err => catchBlock t task err s
      | _ => s
      end
  | None => s
  end.

(** One event.  An event that cannot happen in the state changes nothing. *)
Definition dispatch (ev : Event) (s : State) : State :=
  match ev with
  | EvPoolReady => poolReady s
  | EvPoolFailed e => poolFailed e s
  | EvCancel => fireCancel s
  | EvResume b => resume b s
  | EvSeekDone b r => seekDone b r s
  | EvCaptureDone b r => captureDone b r s
  | EvPageError b e => pageErrored b e s
  | EvCatch t => catch t s
  | EvReplaced => replaced s
  | EvReplaceFailed e => replaceFailed e s
  end.

(** After every event the join of line 456 is re-examined. *)
Definition step (ev : Event) (s : State) : State :=
  joinTasks (dispatch ev s).

Definition run (evs : list Event) (s : State) : State :=
  foldl (fun acc ev => step ev acc) s evs.

(** lines 257-269 and 456-465: every frame task is started at once; each
    runs its first attempt up to line 284.  [cancelled] tells whether the
    cancel signal had fired before. *)
Definition initialState (cancelled : bool) : State :=
  let stop := cancelSignal opts && cancelled in
  joinTasks
    {| poolPromise := PoolPending;
       pool := Pool.create [];
       nextPage := 0%nat;
       assets := replicate (length frames) None;
       framesRendered := 0;
       stopped := stop;
       bodies := imap (fun index frame => mkBody index frame BAwaitPool) frames;
       tasks := imap (fun index frame =>
                        mkTask frame index MAX_RETRIES_PER_FRAME 1
                          (if stop then TCaught cancelError else TRacing index)) frames;
       replacing := false;
       refills := 0;
       result := if stop then Some (Rejected cancelError) else None;
       trace := [] |}.

(** lines 467-485: once [progress] is fulfilled the promise of
    [innerRenderFrames], and with it the promise of [renderFrames], resolves
    with the value built by [happyPath] ([downloadPromises] stays empty).
    The value holds the [assets] array itself, not a copy: read in a later
    state it shows what the array holds then. *)
Definition resolvedOutput (plan : RenderPlan) (s : State) : option (RenderFramesOutput TAsset) :=
  match result s with
  | Some Fulfilled => Some (happyPath plan (imageFormat opts) (assets s))
  | _ => None
  end.

End Engine.

(** * Properties *)

Local Close Scope string_scope.

(** ** Render plan and manifest *)

Lemma frameTasks_fst (frames : list Z) : map fst (frameTasks frames) = frames.
Proof.
  unfold frameTasks.
  assert (G : forall (f : nat -> nat) (l : list Z),
             map fst (imap (fun i x => (x, f i)) l) = l).
  { intros f l. revert f. induction l as [|x l IH]; intros f; simpl; [done|].
    f_equal. apply (IH (f ∘ S)). }
  apply (G id).
Qed.

Lemma frameTasks_snd (frames : list Z) :
  map snd (frameTasks frames) = seq 0 (length frames).
Proof.
  unfold frameTasks.
  assert (G : forall (k : nat) (l : list Z),
             map snd (imap (fun i x => (x, (k + i)%nat)) l) = seq k (length l)).
  { intros k l. revert k. induction l as [|x l IH]; intros k; simpl; [done|].
    f_equal; [lia|]. rewrite <- (IH (S k)). f_equal.
    apply imap_ext. intros i y _. simpl. f_equal. lia. }
  apply (G 0%nat).
Qed.

Lemma outputIndices_actual (frames : list Z) :
  outputIndices ActualFrames frames = frames.
Proof.
  unfold outputIndices. simpl.
  rewrite <- (frameTasks_fst frames) at 2. done.
Qed.

Lemma outputIndices_from_zero (frames : list Z) :
  outputIndices FromZero frames = map Z.of_nat (seq 0 (length frames)).
Proof.
  unfold outputIndices. simpl.
  rewrite <- frameTasks_snd, map_map. done.
Qed.

(** C3: with stride 1 the plan numbers by actual frames, output indices are
    the frame numbers and the padding comes from the last frame; with any
    other stride (in particular a greater one) it numbers from zero, output
    indices are 0, 1, 2, ... and the padding comes from the frame count.
    Twenty frames with stride 5 give frames 0, 5, 10, 15, from-zero
    numbering, indices 0..3 and the width of 4 entries. *)
Theorem numbering_mode_follows_stride
    (widthOfLastFrame : option Z -> nat) (widthOfFrameCount : nat -> nat)
    (durationInFrames : Z) (frameRange : option (Z * Z)) (everyNthFrame : Z) :
  let plan := makePlan widthOfLastFrame widthOfFrameCount
                durationInFrames frameRange everyNthFrame in
  let example := makePlan widthOfLastFrame widthOfFrameCount 20 None 5 in
  lastFrame plan = last (framesToRender plan)
  /\ (if everyNthFrame =? 1 then
        planCountType plan = ActualFrames
        /\ outputIndices (planCountType plan) (framesToRender plan) = framesToRender plan
        /\ filePadLength plan = widthOfLastFrame (lastFrame plan)
      else
        planCountType plan = FromZero
        /\ outputIndices (planCountType plan) (framesToRender plan)
           = map Z.of_nat (seq 0 (length (framesToRender plan)))
        /\ filePadLength plan = widthOfFrameCount (length (framesToRender plan)))
  /\ (1 < everyNthFrame -> planCountType plan = FromZero)
  /\ framesToRender example = [0; 5; 10; 15]
  /\ planCountType example = FromZero
  /\ outputIndices (planCountType example) (framesToRender example) = [0; 1; 2; 3]
  /\ filePadLength example = widthOfFrameCount 4%nat.
Proof.
  simpl. split; [done|]. split.
  - unfold countType. destruct (everyNthFrame =? 1) eqn:E.
    + split; [done|]. split; [apply outputIndices_actual | done].
    + split; [done|]. split; [apply outputIndices_from_zero | done].
  - split.
    + intros H. unfold countType.
      destruct (Z.eqb_spec everyNthFrame 1) as [->|]; [lia | done].
    + repeat split.
Qed.

(** The fields [happyPath] gives a result built from a plan. *)
Lemma happyPath_of_plan
    (TAsset : Type)
    (widthOfLastFrame : option Z -> nat) (widthOfFrameCount : nat -> nat)
    (durationInFrames : Z) (frameRange : option (Z * Z)) (everyNthFrame : Z)
    (ext : string) (records : list (option (list TAsset))) :
  let plan := makePlan widthOfLastFrame widthOfFrameCount
                durationInFrames frameRange everyNthFrame in
  let out := happyPath plan ext records in
  ai_assets (assetsInfo out) = records
  /\ imageSequenceName (assetsInfo out)
     = ("element-" ++ "%0" ++ stringOfNat (filePadLength plan) ++ "d" ++ "." ++ ext)%string
  /\ firstFrameIndex (assetsInfo out)
     = (if everyNthFrame =? 1 then head (framesToRender plan) else Some 0)
  /\ (planCountType plan = FromZero -> firstFrameIndex (assetsInfo out) = Some 0)
  /\ (planCountType plan = ActualFrames ->
      firstFrameIndex (assetsInfo out) = head (framesToRender plan))
  /\ frameCount out = length (framesToRender plan).
Proof.
  simpl. split; [done|]. split; [done|]. unfold countType.
  destruct (everyNthFrame =? 1); repeat split; try done.
Qed.

(** ** Retry policy of one frame task *)

Section RetryPolicy.

Variable isUserCancelledRender : Error -> bool.
Variable isTargetClosedErr : Error -> bool.

Local Abbreviation renderTask := (renderFrameAndRetryTargetClose isUserCancelledRender isTargetClosedErr).
Local Abbreviation decide_catch := (catchDecision isUserCancelledRender isTargetClosedErr).

(** A crash-class error: target-closed and not a cancellation. *)
Definition crashClass (e : Error) : Prop :=
  isUserCancelledRender e = false /\ isTargetClosedErr e = true.

Lemma catchDecision_crash (e : Error) :
  crashClass e -> decide_catch e false = CheckRetries.
Proof. intros [Hc Ht]. unfold catchDecision. by rewrite Hc, Ht. Qed.

Lemma catchDecision_retry_inv (e : Error) (stopped : bool) :
  decide_catch e stopped = CheckRetries -> crashClass e /\ stopped = false.
Proof.
  unfold catchDecision, crashClass.
  destruct (isUserCancelledRender e), (isTargetClosedErr e), stopped; simpl; intros H;
    try discriminate H; done.
Qed.

(** A task never makes more attempts than its retries allow. *)
Lemma attempts_bounded (env : nat -> AttemptEnv) (frame : Z) (index : nat)
    (retriesLeft attempt : nat) :
  (1 <= attempts (renderTask env frame index retriesLeft attempt).1 <= S retriesLeft)%nat.
Proof.
  revert attempt. induction retriesLeft as [|r IH]; intros attempt; simpl.
  - destruct (raceOutcome (env attempt)) as [|err]; [unfold attempts; simpl; lia|].
    destruct (decide_catch err _); unfold attempts; simpl; lia.
  - destruct (raceOutcome (env attempt)) as [|err]; [unfold attempts; simpl; lia|].
    destruct (decide_catch err _); try (unfold attempts; simpl; lia).
    destruct (replaceOutcome (env attempt)); [|unfold attempts; simpl; lia].
    specialize (IH (S attempt)).
    destruct (renderTask env frame index r (S attempt)) as [obs res].
    unfold attempts in *. simpl in *. lia.
Qed.


(** C2: an error caught by a frame task is classified in order.  A
    cancellation is rethrown at once; otherwise an error that is not
    target-closed is rethrown at once; in both cases nothing else is
    attempted.  A browser replacement is only ever started for a crash-class
    error, and once it succeeds the same frame and index are retried with
    one retry fewer. *)
Theorem catch_classification
    (env : nat -> AttemptEnv) (frame : Z) (index : nat) (retriesLeft attempt : nat)
    (err : Error)
    (Hrace : raceOutcome (env attempt) = Rejected err) :
  let now := TAttempt frame index retriesLeft attempt in
  let outcome := renderTask env frame index retriesLeft attempt in
  (isUserCancelledRender err = true -> outcome = ([now], Rejected err))
  /\ (isUserCancelledRender err = false -> isTargetClosedErr err = false ->
      outcome = ([now], Rejected err))
  /\ (In TReplaceBrowser outcome.1 ->
      crashClass err
      /\ exists retriesLeft', retriesLeft = S retriesLeft'
         /\ (replaceOutcome (env attempt) = Fulfilled ->
             outcome =
             (now :: TWarnRetry frame retriesLeft :: TReplaceBrowser
                :: (renderTask env frame index retriesLeft' (S attempt)).1,
              (renderTask env frame index retriesLeft' (S attempt)).2)))
  /\ (crashClass err -> stoppedAtCatch (env attempt) = false ->
      forall retriesLeft', retriesLeft = S retriesLeft' ->
      In TReplaceBrowser outcome.1).
Proof.
  cbv zeta. split; [|split; [|split]].
  - intros Hc. destruct retriesLeft; simpl; rewrite Hrace; unfold catchDecision; by rewrite Hc.
  - intros Hc Ht.
    destruct retriesLeft; simpl; rewrite Hrace; unfold catchDecision; by rewrite Hc, Ht.
  - destruct retriesLeft as [|r]; simpl; rewrite Hrace;
      destruct (decide_catch err _) eqn:E; simpl; intros Hin;
      try (exfalso; intuition discriminate).
    split; [by apply catchDecision_retry_inv in E as [? _]|].
    exists r. split; [done|]. intros Hrep. rewrite Hrep.
    by destruct (renderTask env frame index r (S attempt)).
  - intros Hc Hs r ->. simpl. rewrite Hrace, Hs, (catchDecision_crash err Hc).
    destruct (replaceOutcome (env attempt)); [|simpl; tauto].
    destruct (renderTask env frame index r (S attempt)). simpl. tauto.
Qed.

End RetryPolicy.

(** ** The frame loop: invariants of every run *)

Lemma removeFirst_length (page : Page) (l : list Page) :
  page ∈ l -> S (length (removeFirst page l)) = length l.
Proof.
  induction l as [|x l IH]; intros Hin; [by apply elem_of_nil in Hin|].
  simpl. destruct (Nat.eqb_spec x page) as [->|Hne]; [done|].
  simpl. f_equal. apply IH. apply elem_of_cons in Hin as [->|]; done.
Qed.

Lemma removeFirst_absent (page : Page) (l : list Page) :
  page ∉ l -> removeFirst page l = l.
Proof.
  induction l as [|x l IH]; intros Hin; [done|].
  simpl. destruct (Nat.eqb_spec x page) as [->|Hne].
  - exfalso. apply Hin. by left.
  - f_equal. apply IH. intros H. apply Hin. by right.
Qed.

Lemma elem_of_removeFirst (page q : Page) (l : list Page) :
  q ∈ removeFirst page l -> q ∈ l.
Proof.
  induction l as [|x l IH]; simpl; [done|].
  destruct (Nat.eqb_spec x page) as [->|Hne]; intros H.
  - by right.
  - apply elem_of_cons in H as [->|H]; [by left|right; auto].
Qed.

Lemma elem_of_removeFirst_ne (page q : Page) (l : list Page) :
  q <> page -> q ∈ l -> q ∈ removeFirst page l.
Proof.
  intros Hne. induction l as [|x l IH]; simpl; [done|].
  intros H. apply elem_of_cons in H as [->|H].
  - destruct (Nat.eqb_spec x page) as [->|]; [done|by left].
  - destruct (Nat.eqb_spec x page) as [->|]; [done|right; auto].
Qed.

Lemma lookup_alter_Some {A} (f : A -> A) (l : list A) (i j : nat) (y : A) :
  alter f i l !! j = Some y ->
  (i = j /\ exists x, l !! i = Some x /\ y = f x) \/ (i <> j /\ l !! j = Some y).
Proof.
  destruct (decide (i = j)) as [->|Hne].
  - rewrite list_lookup_alter_eq. destruct (l !! j) as [x|]; simpl; [|done].
    intros [= <-]. left. eauto.
  - rewrite list_lookup_alter_ne by done. by right.
Qed.

Definition holdsPage (body : Body) : option Page := heldPage (b_pc body).

(** The pool's books agree with what the attempts hold: every page is
    older than [bound], idle pages are distinct, a page an attempt has not
    released is marked busy and is not idle, and no two attempts hold the
    same page. *)
Definition PoolStructL (bound : nat) (pl : Pool.t) (bs : list Body) : Prop :=
  (forall p, p ∈ Pool.resources pl -> (p < bound)%nat)
  /\ (forall p, p ∈ Pool.busy pl -> (p < bound)%nat)
  /\ NoDup (Pool.resources pl)
  /\ (forall b body p, bs !! b = Some body -> holdsPage body = Some p ->
        p ∈ Pool.busy pl /\ p ∉ Pool.resources pl)
  /\ (forall b1 b2 body1 body2 p,
        bs !! b1 = Some body1 -> bs !! b2 = Some body2 ->
        holdsPage body1 = Some p -> holdsPage body2 = Some p -> b1 = b2).

Lemma PoolStructL_mono (m m' : nat) pl bs :
  (m <= m')%nat -> PoolStructL m pl bs -> PoolStructL m' pl bs.
Proof.
  intros Hle (H1 & H2 & H3 & H4 & H5). repeat split; try done.
  - intros p Hp. specialize (H1 p Hp). lia.
  - intros p Hp. specialize (H2 p Hp). lia.
  - by eapply H4.
  - by eapply H4.
Qed.

Lemma PoolStructL_alter_same (m : nat) pl bs (f : Body -> Body) (b : nat) :
  (forall body, bs !! b = Some body -> holdsPage (f body) = holdsPage body) ->
  PoolStructL m pl bs -> PoolStructL m pl (alter f b bs).
Proof.
  intros Hf (H1 & H2 & H3 & H4 & H5).
  assert (Hl : forall b' body, alter f b bs !! b' = Some body ->
            exists body0, bs !! b' = Some body0 /\ holdsPage body0 = holdsPage body).
  { intros b' body Hb'. apply lookup_alter_Some in Hb' as [(-> & x & Hx & ->)|(_ & Hx)].
    - exists x. split; [done|]. symmetry. by apply Hf.
    - by exists body. }
  split; [done|]. split; [done|]. split; [done|]. split.
  - intros b' body p Hb' Hh. apply Hl in Hb' as (body0 & Hb0 & E).
    rewrite <- E in Hh. by apply (H4 _ _ _ Hb0).
  - intros b1 b2 body1 body2 p Hb1 Hb2 Hh1 Hh2.
    apply Hl in Hb1 as (c1 & Hc1 & E1). apply Hl in Hb2 as (c2 & Hc2 & E2).
    rewrite <- E1 in Hh1. rewrite <- E2 in Hh2. eapply H5; eauto.
Qed.

Lemma PoolStructL_snoc (m : nat) pl bs (body : Body) :
  holdsPage body = None -> PoolStructL m pl bs -> PoolStructL m pl (bs ++ [body]).
Proof.
  intros Hn (H1 & H2 & H3 & H4 & H5).
  assert (Hl : forall b' body' p, (bs ++ [body]) !! b' = Some body' ->
            holdsPage body' = Some p -> bs !! b' = Some body').
  { intros b' body' p Hb' Hh. apply lookup_app_Some in Hb' as [Hb'|[_ Hb']]; [done|].
    apply list_lookup_singleton_Some in Hb' as [_ <-]. congruence. }
  split; [done|]. split; [done|]. split; [done|]. split.
  - intros b' body' p Hb' Hh. eapply H4; [by eapply Hl|done].
  - intros b1 b2 body1 body2 p Hb1 Hb2 Hh1 Hh2.
    eapply H5; [by eapply Hl|by eapply Hl|done|done].
Qed.

(** [pool.acquire()] with an idle page. *)
Lemma PoolStructL_acquire (m : nat) pl bs (b : nat) (page : Page) (rest : list Page) :
  Pool.resources pl = page :: rest ->
  PoolStructL m pl bs ->
  PoolStructL m
    {| Pool.resources := rest; Pool.waiters := Pool.waiters pl;
       Pool.busy := page :: Pool.busy pl |}
    (alter (withPc (BHolding page)) b bs).
Proof.
  intros Hres (H1 & H2 & H3 & H4 & H5). rewrite Hres in *.
  apply NoDup_cons in H3 as [Hnotin Hnd]. simpl.
  split; [|split; [|split; [|split]]]; simpl.
  - intros p Hp. apply H1. by right.
  - intros p Hp. apply elem_of_cons in Hp as [->|Hp]; [apply H1; by left|by apply H2].
  - done.
  - intros b' body p Hb' Hh.
    apply lookup_alter_Some in Hb' as [(-> & x & Hx & ->)|(Hne & Hx)].
    + injection Hh as <-. split; [by left|done].
    + destruct (H4 _ _ _ Hx Hh) as [Hbusy Hidle]. split; [by right|].
      intros Hin. apply Hidle. by right.
  - intros b1 b2 body1 body2 p Hb1 Hb2 Hh1 Hh2.
    apply lookup_alter_Some in Hb1 as [(-> & x1 & Hx1 & ->)|(Hne1 & Hx1)];
      apply lookup_alter_Some in Hb2 as [(E & x2 & Hx2 & ->)|(Hne2 & Hx2)]; try done.
    + injection Hh1 as <-. destruct (H4 _ _ _ Hx2 Hh2) as [_ Hidle].
      exfalso. apply Hidle. by left.
    + injection Hh2 as <-. destruct (H4 _ _ _ Hx1 Hh1) as [_ Hidle].
      exfalso. apply Hidle. by left.
    + eapply H5; eauto.
Qed.

(** [pool.release(page)] by the attempt that holds [page], nobody waiting. *)
Lemma PoolStructL_release_idle (m : nat) pl bs (b : nat) (body : Body) (page : Page) :
  bs !! b = Some body -> holdsPage body = Some page ->
  PoolStructL m pl bs ->
  PoolStructL m
    {| Pool.resources := Pool.resources pl ++ [page]; Pool.waiters := [];
       Pool.busy := removeFirst page (Pool.busy pl) |}
    (alter (withPc (BFinished None)) b bs).
Proof.
  intros Hb Hh (H1 & H2 & H3 & H4 & H5).
  destruct (H4 _ _ _ Hb Hh) as [Hbusy Hidle].
  split; [|split; [|split; [|split]]]; simpl.
  - intros p Hp. apply elem_of_app in Hp as [Hp|Hp]; [by apply H1|].
    apply list_elem_of_singleton in Hp as ->. by apply H2.
  - intros p Hp. apply H2. by eapply elem_of_removeFirst.
  - apply NoDup_app. split; [done|]. split; [|apply NoDup_singleton].
    intros p Hp Hp'. apply list_elem_of_singleton in Hp' as ->. done.
  - intros b' body' p Hb' Hh'.
    apply lookup_alter_Some in Hb' as [(-> & x & Hx & ->)|(Hne & Hx)]; [done|].
    destruct (H4 _ _ _ Hx Hh') as [Hbusy' Hidle'].
    assert (p <> page) by (intros ->; apply Hne; eapply H5; eauto).
    split; [by apply elem_of_removeFirst_ne|].
    intros Hin. apply elem_of_app in Hin as [Hin|Hin]; [done|].
    by apply list_elem_of_singleton in Hin.
  - intros b1 b2 body1 body2 p Hb1 Hb2 Hh1 Hh2.
    apply lookup_alter_Some in Hb1 as [(-> & x1 & Hx1 & ->)|(Hne1 & Hx1)]; [done|].
    apply lookup_alter_Some in Hb2 as [(E & x2 & Hx2 & ->)|(Hne2 & Hx2)]; [done|].
    eapply H5; eauto.
Qed.

(** [pool.release(page)] by the attempt that holds [page]: the first
    waiter [w] resumes holding it. *)
Lemma PoolStructL_release_waiter (m : nat) pl bs (b w : nat) (ws : list nat)
    (body : Body) (page : Page) :
  bs !! b = Some body -> holdsPage body = Some page ->
  PoolStructL m pl bs ->
  PoolStructL m
    {| Pool.resources := Pool.resources pl; Pool.waiters := ws;
       Pool.busy := page :: removeFirst page (Pool.busy pl) |}
    (alter (withPc (BFinished None)) b (alter (withPc (BHolding page)) w bs)).
Proof.
  intros Hb Hh (H1 & H2 & H3 & H4 & H5).
  destruct (H4 _ _ _ Hb Hh) as [Hbusy Hidle].
  assert (Hl : forall b' body' p,
            alter (withPc (BFinished None)) b (alter (withPc (BHolding page)) w bs) !! b'
              = Some body' ->
            holdsPage body' = Some p ->
            (b' = w /\ p = page /\ b' <> b)
            \/ (b' <> b /\ b' <> w /\ bs !! b' = Some body')).
  { intros b' body' p Hb' Hh'.
    apply lookup_alter_Some in Hb' as [(-> & x & Hx & ->)|(Hne & Hx)]; [done|].
    apply lookup_alter_Some in Hx as [(-> & x & Hx & ->)|(Hne' & Hx)].
    - left. injection Hh' as <-. done.
    - right. done. }
  split; [|split; [|split; [|split]]]; simpl.
  - done.
  - intros p Hp. apply elem_of_cons in Hp as [->|Hp]; [by apply H2|].
    apply H2. by eapply elem_of_removeFirst.
  - done.
  - intros b' body' p Hb' Hh'.
    destruct (Hl _ _ _ Hb' Hh') as [(-> & -> & _)|(Hne & _ & Hx)].
    + split; [by left|done].
    + destruct (H4 _ _ _ Hx Hh') as [Hbusy' Hidle'].
      assert (p <> page) by (intros ->; apply Hne; eapply H5; eauto).
      split; [|done]. right. by apply elem_of_removeFirst_ne.
  - intros b1 b2 body1 body2 p Hb1 Hb2 Hh1 Hh2.
    destruct (Hl _ _ _ Hb1 Hh1) as [(-> & -> & Hn1)|(Hn1 & Hw1 & Hx1)];
      destruct (Hl _ _ _ Hb2 Hh2) as [(-> & E & Hn2)|(Hn2 & Hw2 & Hx2)]; try done.
    + exfalso. apply Hn2. eapply H5; eauto.
    + subst p. exfalso. apply Hn1. eapply H5; eauto.
    + eapply H5; eauto.
Qed.

(** A page nobody has seen is released into the pool (lines 443-445). *)
Lemma PoolStructL_fresh_idle (m : nat) pl bs :
  PoolStructL m pl bs ->
  PoolStructL (S m)
    {| Pool.resources := Pool.resources pl ++ [m]; Pool.waiters := [];
       Pool.busy := removeFirst m (Pool.busy pl) |} bs.
Proof.
  intros (H1 & H2 & H3 & H4 & H5).
  assert (Hb : m ∉ Pool.busy pl) by (intros Hin; specialize (H2 _ Hin); lia).
  assert (Hr : m ∉ Pool.resources pl) by (intros Hin; specialize (H1 _ Hin); lia).
  rewrite (removeFirst_absent _ _ Hb).
  split; [|split; [|split; [|split]]]; simpl.
  - intros p Hp. apply elem_of_app in Hp as [Hp|Hp]; [specialize (H1 _ Hp); lia|].
    apply list_elem_of_singleton in Hp as ->. lia.
  - intros p Hp. specialize (H2 _ Hp). lia.
  - apply NoDup_app. split; [done|]. split; [|apply NoDup_singleton].
    intros p Hp Hp'. apply list_elem_of_singleton in Hp' as ->. done.
  - intros b body p Hx Hh. destruct (H4 _ _ _ Hx Hh) as [Hbusy Hidle].
    split; [done|]. intros Hin. apply elem_of_app in Hin as [Hin|Hin]; [done|].
    apply list_elem_of_singleton in Hin as ->. done.
  - done.
Qed.

Lemma PoolStructL_fresh_waiter (m : nat) pl bs (w : nat) (ws : list nat) :
  PoolStructL m pl bs ->
  PoolStructL (S m)
    {| Pool.resources := Pool.resources pl; Pool.waiters := ws;
       Pool.busy := m :: removeFirst m (Pool.busy pl) |}
    (alter (withPc (BHolding m)) w bs).
Proof.
  intros (H1 & H2 & H3 & H4 & H5).
  assert (Hb : m ∉ Pool.busy pl) by (intros Hin; specialize (H2 _ Hin); lia).
  assert (Hr : m ∉ Pool.resources pl) by (intros Hin; specialize (H1 _ Hin); lia).
  rewrite (removeFirst_absent _ _ Hb).
  split; [|split; [|split; [|split]]]; simpl.
  - intros p Hp. specialize (H1 _ Hp). lia.
  - intros p Hp. apply elem_of_cons in Hp as [->|Hp]; [lia|]. specialize (H2 _ Hp). lia.
  - done.
  - intros b body p Hx Hh.
    apply lookup_alter_Some in Hx as [(-> & x & Hx & ->)|(Hne & Hx)].
    + injection Hh as <-. split; [by left|done].
    + destruct (H4 _ _ _ Hx Hh) as [Hbusy Hidle]. split; [by right|done].
  - intros b1 b2 body1 body2 p Hb1 Hb2 Hh1 Hh2.
    apply lookup_alter_Some in Hb1 as [(-> & x1 & Hx1 & ->)|(Hne1 & Hx1)];
      apply lookup_alter_Some in Hb2 as [(E & x2 & Hx2 & ->)|(Hne2 & Hx2)]; try done.
    + injection Hh1 as <-. destruct (H4 _ _ _ Hx2 Hh2) as [Hbusy _]. done.
    + injection Hh2 as <-. destruct (H4 _ _ _ Hx1 Hh1) as [Hbusy _]. done.
    + eapply H5; eauto.
Qed.

Section EngineProperties.

Variable TAsset : Type.
Variable compressAsset : list TAsset -> TAsset -> TAsset.
Variable isUserCancelledRender : Error -> bool.
Variable isTargetClosedErr : Error -> bool.
Variable cancelMessage : string.
Variable opts : Options.
Variable frames : list Z.

Local Abbreviation State := (State TAsset).
Local Abbreviation Event := (Event TAsset).
Local Abbreviation cancelErr := (cancelError cancelMessage).
Local Abbreviation dispatch :=
  (dispatch TAsset compressAsset isUserCancelledRender isTargetClosedErr cancelMessage opts).
Local Abbreviation step :=
  (step TAsset compressAsset isUserCancelledRender isTargetClosedErr cancelMessage opts).
Local Abbreviation run :=
  (run TAsset compressAsset isUserCancelledRender isTargetClosedErr cancelMessage opts).
Local Abbreviation initialState := (initialState TAsset cancelMessage opts frames).

Definition reachable (s : State) : Prop :=
  exists cancelled evs, s = run evs (initialState cancelled).

Lemma step_eq (ev : Event) (s : State) : step ev s = joinTasks _ (dispatch ev s).
Proof. reflexivity. Qed.

Lemma run_snoc (evs : list Event) (ev : Event) (s : State) :
  run (evs ++ [ev]) s = step ev (run evs s).
Proof. unfold run. by rewrite foldl_app. Qed.

Lemma run_app (evs1 evs2 : list Event) (s : State) :
  run (evs1 ++ evs2) s = run evs2 (run evs1 s).
Proof. unfold run. by rewrite foldl_app. Qed.

Lemma run_invariant (I : State -> Prop) :
  (forall ev s, I s -> I (step ev s)) ->
  forall evs s, I s -> I (run evs s).
Proof.
  intros Hstep evs. induction evs as [|ev evs IH]; intros s Hs; [done|].
  simpl. apply IH, Hstep, Hs.
Qed.

Lemma reachable_invariant (I : State -> Prop) :
  (forall cancelled, I (initialState cancelled)) ->
  (forall ev s, I s -> I (step ev s)) ->
  forall s, reachable s -> I s.
Proof.
  intros Hinit Hstep s (cancelled & evs & ->). by apply run_invariant.
Qed.

Lemma reachable_step (ev : Event) (s : State) : reachable s -> reachable (step ev s).
Proof.
  intros (cancelled & evs & ->). exists cancelled, (evs ++ [ev]). by rewrite run_snoc.
Qed.

(** Unfolding of the operations that touch single fields. *)
Ltac unfold_ops :=
  unfold throwFrom, settle, rejectTask, settleRun, callReplaceBrowser,
    setPc, setStatus, emit, setPoolPromise, setPool, setNextPage, setAssets,
    setFramesRendered, setStopped, setBodies, setTasks, setReplacing, setRefills,
    setResult in *.

Ltac on_throw tac :=
  lazymatch goal with |- _ (throwFrom _ _ _ _ _) => tac | _ => idtac end.
Ltac not_fold tac :=
  lazymatch goal with |- _ (foldl _ _ _) => idtac | _ => tac end.

(** Case analysis of one event: every goal is about the state the source
    reaches on one of its paths, with the facts that select the path. *)
Ltac dispatch_cases ev s :=
  let b := fresh "b" in
  let t := fresh "t" in
  let e := fresh "e" in
  let r := fresh "r" in
  destruct ev as [|e| |b|b r|b r|b e|t| |e]; simpl;
  [ unfold poolReady; destruct (poolPromise _ s) eqn:Hpp
  | unfold poolFailed; destruct (poolPromise _ s) eqn:Hpp
  | unfold fireCancel; destruct (cancelSignal opts && negb (stopped _ s)) eqn:Hcs
  | unfold resume;
    destruct (bodies _ s !! b) as [body|] eqn:Hb;
    [ destruct (b_pc body) as [| |page|page|page|kept] eqn:Hpc;
      [ unfold resumeAwaitPool; destruct (poolPromise _ s) eqn:Hpp;
        [ | unfold Pool.acquire;
            destruct (Pool.resources (pool _ s)) as [|page rest] eqn:Hres | ]
      | | unfold resumeHolding; destruct (stopped _ s) eqn:Hstop | | | ] | ]
  | unfold seekDone;
    destruct (bodies _ s !! b) as [body|] eqn:Hb;
    [ destruct (b_pc body) as [| |page|page|page|kept] eqn:Hpc;
      [ | | | unfold afterSeek; destruct r as [|e];
              [ destruct (negb (truthyString (outputDir opts)) && negb (onFrameBuffer opts)
                            && captures opts) eqn:Hneither;
                [ | destruct (truthyString (outputDir opts) && onFrameBuffer opts
                                && captures opts) eqn:Hboth ] | ]
        | | ] | ]
  | unfold captureDone;
    destruct (bodies _ s !! b) as [body|] eqn:Hb;
    [ destruct (b_pc body) as [| |page|page|page|kept] eqn:Hpc;
      [ | | | | unfold afterCapture; destruct r as [hasBuffer collected|e];
                [ destruct (onFrameBuffer opts && negb hasBuffer) eqn:Hnull | ]
        | ] | ]
  | unfold pageErrored;
    destruct (bodies _ s !! b) as [body|] eqn:Hb;
    [ destruct (b_pc body) as [| |page|page|page|kept] eqn:Hpc | ]
  | unfold catch;
    destruct (tasks _ s !! t) as [task|] eqn:Ht;
    [ destruct (t_status task) as [b|err| | |err] eqn:Hst;
      [ | unfold catchBlock;
          destruct (catchDecision isUserCancelledRender isTargetClosedErr err (stopped _ s))
            eqn:Hdec;
          [ | | destruct (t_retriesLeft task) as [|retries] eqn:Hretries;
                [ | unfold callReplaceBrowser; cbn [replacing emit];
                    destruct (replacing _ s) eqn:Hrep ] ]
        | | | ] | ]
  | unfold replaced; destruct (replacing _ s) eqn:Hrep;
    [ destruct (poolPromise _ s) eqn:Hpp | ]
  | unfold replaceFailed; destruct (replacing _ s) eqn:Hrep ].

(** *** The pool's books *)

Definition PoolStruct (s : State) : Prop :=
  PoolStructL (nextPage _ s) (pool _ s) (bodies _ s).

Definition poolTotal (s : State) : nat :=
  (Pool.idleCount (pool _ s) + Pool.busyCount (pool _ s))%nat.

(** Once the pool exists it holds, idle or busy, [actualConcurrency] pages
    for its creation and as many again for every refill. *)
Definition PoolInv (s : State) : Prop :=
  PoolStruct s
  /\ match poolPromise _ s with
     | PoolResolved =>
         poolTotal s = (actualConcurrency opts * S (refills _ s))%nat
         /\ nextPage _ s = (actualConcurrency opts * S (refills _ s))%nat
     | _ => pool _ s = Pool.create [] /\ refills _ s = 0%nat /\ nextPage _ s = 0%nat
     end.

Lemma PoolInv_frame (s s' : State) :
  poolPromise _ s' = poolPromise _ s -> pool _ s' = pool _ s ->
  nextPage _ s' = nextPage _ s -> refills _ s' = refills _ s ->
  bodies _ s' = bodies _ s ->
  PoolInv s -> PoolInv s'.
Proof.
  unfold PoolInv, PoolStruct, poolTotal. intros -> -> -> -> ->. done.
Qed.

Lemma PoolInv_frame_pc (s s' : State) (f : Body -> Body) (b : nat) :
  poolPromise _ s' = poolPromise _ s -> pool _ s' = pool _ s ->
  nextPage _ s' = nextPage _ s -> refills _ s' = refills _ s ->
  bodies _ s' = alter f b (bodies _ s) ->
  (forall body, bodies _ s !! b = Some body -> holdsPage (f body) = holdsPage body) ->
  PoolInv s -> PoolInv s'.
Proof.
  unfold PoolInv, PoolStruct, poolTotal. intros -> -> -> -> -> Hf [Hs Hc].
  split; [|done]. by apply PoolStructL_alter_same.
Qed.

Lemma PoolInv_joinTasks (s : State) : PoolInv s -> PoolInv (joinTasks _ s).
Proof.
  unfold joinTasks, settleRun. intros H.
  repeat case_match; try done; by eapply PoolInv_frame; [..|exact H].
Qed.

Lemma PoolInv_settle (b index : nat) (r : Outcome) (s : State) :
  PoolInv s -> PoolInv (settle _ b index r s).
Proof.
  unfold settle. intros H.
  repeat case_match; try done; by eapply PoolInv_frame; [..|exact H].
Qed.

Lemma PoolInv_throwFrom (b : nat) (body : Body) (e : Error) (s : State) :
  bodies _ s !! b = Some body ->
  PoolInv s -> PoolInv (throwFrom _ b body e s).
Proof.
  intros Hb H. unfold throwFrom. apply PoolInv_settle.
  eapply PoolInv_frame_pc; [..|exact H]; try done.
  intros body' Hb'. by simplify_eq.
Qed.

Lemma releaseFresh_fold (k n : nat) (s : State) :
  PoolStructL n (pool _ s) (bodies _ s) ->
  let s' := foldl (fun acc page => releaseToPool _ page acc) s (seq n k) in
  PoolStructL (n + k) (pool _ s') (bodies _ s')
  /\ poolTotal s' = (poolTotal s + k)%nat
  /\ poolPromise _ s' = poolPromise _ s
  /\ nextPage _ s' = nextPage _ s
  /\ refills _ s' = refills _ s.
Proof.
  revert n s. induction k as [|k IH]; intros n s Hs; simpl.
  - rewrite Nat.add_0_r. split; [done|]. split; [lia|done].
  - set (s1 := releaseToPool _ n s).
    assert (H1 : PoolStructL (S n) (pool _ s1) (bodies _ s1)
                 /\ poolTotal s1 = S (poolTotal s)
                 /\ poolPromise _ s1 = poolPromise _ s
                 /\ nextPage _ s1 = nextPage _ s
                 /\ refills _ s1 = refills _ s).
    { assert (Hb : n ∉ Pool.busy (pool _ s)).
      { destruct Hs as (_ & H2 & _). intros Hin. specialize (H2 _ Hin). lia. }
      subst s1. unfold releaseToPool, Pool.release, poolTotal, Pool.idleCount, Pool.busyCount.
      destruct (Pool.waiters (pool _ s)) as [|w ws]; simpl.
      - split; [by apply PoolStructL_fresh_idle|].
        rewrite (removeFirst_absent _ _ Hb), length_app. simpl. repeat split; lia.
      - split; [by apply PoolStructL_fresh_waiter|].
        rewrite (removeFirst_absent _ _ Hb). simpl. repeat split; lia. }
    destruct H1 as (Hs1 & Ht1 & Hp1 & Hn1 & Hr1).
    destruct (IH (S n) s1 Hs1) as (Hs2 & Ht2 & Hp2 & Hn2 & Hr2).
    replace (n + S k)%nat with (S n + k)%nat by lia.
    split; [done|]. rewrite Ht2, Ht1, Hp2, Hp1, Hn2, Hn1, Hr2, Hr1.
    repeat split; lia.
Qed.

Lemma PoolInv_refillPool (s : State) :
  poolPromise _ s = PoolResolved -> PoolInv s -> PoolInv (refillPool _ opts s).
Proof.
  intros Hp [Hs Hc]. rewrite Hp in Hc. destruct Hc as [Ht Hn].
  unfold refillPool.
  set (s1 := emit _ _ (setNextPage _ _ s)).
  assert (Hs1 : PoolStructL (nextPage _ s) (pool _ s1) (bodies _ s1)) by done.
  destruct (releaseFresh_fold (actualConcurrency opts) _ s1 Hs1) as (Hs2 & Ht2 & Hp2 & Hn2 & Hr2).
  set (s2 := foldl _ s1 _) in *.
  split.
  - unfold PoolStruct. simpl. by rewrite Hn2.
  - simpl. rewrite Hp2. simpl. rewrite Hp. unfold poolTotal. simpl.
    unfold poolTotal in Ht2, Ht. rewrite Ht2, Hn2. simpl.
    change (pool _ s1) with (pool _ s). lia.
Qed.

Lemma PoolInv_retryTask (t : nat) (s : State) : PoolInv s -> PoolInv (retryTask _ cancelMessage t s).
Proof.
  intros H. unfold retryTask. repeat case_match; try done.
  all: destruct H as [Hs Hc]; split; [|done].
  all: unfold PoolStruct; simpl; by apply PoolStructL_snoc.
Qed.

Lemma PoolInv_failReplacingTask (e : Error) (t : nat) (s : State) :
  PoolInv s -> PoolInv (failReplacingTask _ e t s).
Proof.
  intros H. unfold failReplacingTask, rejectTask, settleRun.
  repeat case_match; try done; by eapply PoolInv_frame; [..|exact H].
Qed.

Lemma foldl_invariant {A B} (I : A -> Prop) (f : A -> B -> A) (l : list B) (a : A) :
  (forall x y, I x -> I (f x y)) -> I a -> I (foldl f a l).
Proof.
  intros Hf. revert a. induction l as [|y l IH]; intros a Ha; simpl; [done|].
  apply IH, Hf, Ha.
Qed.

Lemma PoolInv_dispatch (ev : Event) (s : State) : PoolInv s -> PoolInv (dispatch ev s).
Proof.
  intros H. destruct ev as [|e| |b|b r|b r|b e|t| |e]; simpl.
  - (* the pool is created *)
    unfold poolReady. destruct (poolPromise _ s) eqn:Hp; try done.
    destruct H as [Hs Hc]. rewrite Hp in Hc. destruct Hc as (Hpool & Hr & Hn).
    unfold PoolInv, PoolStruct, poolTotal, Pool.idleCount, Pool.busyCount. simpl.
    rewrite Hr, Hn, length_seq. split; [|lia].
    destruct Hs as (H1 & H2 & H3 & H4 & H5). rewrite Hpool in *. simpl in *.
    split; [|split; [|split; [|split]]]; simpl.
    + intros p Hp'. apply elem_of_seq in Hp'. lia.
    + intros p Hp'. by apply elem_of_nil in Hp'.
    + apply NoDup_seq.
    + intros b body p Hb Hh. destruct (H4 _ _ _ Hb Hh) as [Hin _].
      by apply elem_of_nil in Hin.
    + done.
  - unfold poolFailed. destruct (poolPromise _ s) eqn:Hp; try done.
    destruct H as [Hs Hc]. rewrite Hp in Hc. split; [done|]. simpl. done.
  - unfold fireCancel, settleRun.
    repeat case_match; try done; by eapply PoolInv_frame; [..|exact H].
  - (* an attempt resumes *)
    unfold resume. destruct (bodies _ s !! b) as [body|] eqn:Hb; [|done].
    destruct (b_pc body) eqn:Hpc; try done.
    + unfold resumeAwaitPool. destruct (poolPromise _ s) eqn:Hp; try done.
      * unfold Pool.acquire. destruct (Pool.resources (pool _ s)) as [|page rest] eqn:Hres.
        -- eapply PoolInv_frame_pc with (s := setPool _ _ s); try done.
           ++ intros body' Hb'. simpl in Hb'. simplify_eq. unfold holdsPage. simpl.
              by rewrite Hpc.
           ++ destruct H as [Hs Hc]. rewrite Hp in Hc. split.
              ** unfold PoolStruct. simpl. destruct Hs as (H1 & H2 & H3 & H4 & H5).
                 rewrite Hres in *. done.
              ** simpl. rewrite Hp. unfold poolTotal, Pool.idleCount, Pool.busyCount in *.
                 simpl. by rewrite Hres in Hc.
        -- destruct H as [Hs Hc]. rewrite Hp in Hc. split.
           ++ unfold PoolStruct. simpl. by apply PoolStructL_acquire.
           ++ simpl. rewrite Hp. unfold poolTotal, Pool.idleCount, Pool.busyCount in *.
              simpl. rewrite Hres in Hc. simpl in Hc. lia.
      * by apply PoolInv_throwFrom.
    + unfold resumeHolding. destruct (stopped _ s).
      * apply PoolInv_settle. eapply PoolInv_frame_pc; [..|exact H]; try done.
        intros body' Hb'. simplify_eq. unfold holdsPage. simpl. by rewrite Hpc.
      * eapply PoolInv_frame_pc; [..|exact H]; try done.
        intros body' Hb'. simplify_eq. unfold holdsPage. simpl. by rewrite Hpc.
  - (* the seek settles *)
    unfold seekDone. destruct (bodies _ s !! b) as [body|] eqn:Hb; [|done].
    destruct (b_pc body) eqn:Hpc; try done.
    unfold afterSeek. destruct r; [|by apply PoolInv_throwFrom].
    repeat case_match; try by apply PoolInv_throwFrom.
    eapply PoolInv_frame_pc; [..|exact H]; try done.
    intros body' Hb'. simplify_eq. unfold holdsPage. simpl. by rewrite Hpc.
  - (* the capture settles *)
    unfold captureDone. destruct (bodies _ s !! b) as [body|] eqn:Hb; [|done].
    destruct (b_pc body) eqn:Hpc; try done.
    unfold afterCapture. destruct r as [hasBuffer collected|e]; [|by apply PoolInv_throwFrom].
    destruct (onFrameBuffer opts && negb hasBuffer); [by apply PoolInv_throwFrom|].
    apply PoolInv_settle.
    assert (Hh : holdsPage body = Some page) by (unfold holdsPage; by rewrite Hpc).
    destruct H as [Hs Hc].
    destruct Hs as (H1 & H2 & H3 & H4 & H5).
    destruct (H4 _ _ _ Hb Hh) as [Hbusy Hidle].
    pose proof (removeFirst_length _ _ Hbusy) as Hlen.
    unfold releaseToPool, Pool.release.
    destruct (onFrameBuffer opts); simpl;
      destruct (Pool.waiters (pool _ s)) as [|w ws] eqn:Hw; simpl;
      (split;
       [ unfold PoolStruct; simpl;
         first [ by eapply PoolStructL_release_idle | by eapply PoolStructL_release_waiter ]
       | simpl; destruct (poolPromise _ s);
         [ destruct Hc as (Hpool & _); rewrite Hpool in Hbusy; by apply elem_of_nil in Hbusy
         | unfold poolTotal, Pool.idleCount, Pool.busyCount in *; simpl;
           rewrite ?length_app; simpl; lia
         | destruct Hc as (Hpool & _); rewrite Hpool in Hbusy; by apply elem_of_nil in Hbusy ] ]).
  - (* a page error *)
    unfold pageErrored. destruct (bodies _ s !! b) as [body|] eqn:Hb; [|done].
    destruct (b_pc body) eqn:Hpc; try done;
      unfold pageError; apply PoolInv_settle; by eapply PoolInv_frame; [..|exact H].
  - (* a catch block runs *)
    unfold catch. destruct (tasks _ s !! t) as [task|] eqn:Ht; [|done].
    destruct (t_status task) eqn:Hst; try done.
    unfold catchBlock, rejectTask, settleRun, callReplaceBrowser.
    repeat case_match; try done; by eapply PoolInv_frame; [..|exact H].
  - (* the replacement is ready *)
    unfold replaced. destruct (replacing _ s); [|done].
    destruct (poolPromise _ s) eqn:Hp; try done.
    + apply foldl_invariant; [intros; by apply PoolInv_retryTask|].
      eapply PoolInv_frame with (s := refillPool _ opts s); try done.
      by apply PoolInv_refillPool.
    + apply foldl_invariant; [intros; by apply PoolInv_failReplacingTask|].
      by eapply PoolInv_frame; [..|exact H].
  - unfold replaceFailed. destruct (replacing _ s); [|done].
    apply foldl_invariant; [intros; by apply PoolInv_failReplacingTask|].
    by eapply PoolInv_frame; [..|exact H].
Qed.

Lemma PoolInv_initial (cancelled : bool) : PoolInv (initialState cancelled).
Proof.
  apply PoolInv_joinTasks. split; [|done].
  unfold PoolStruct, PoolStructL. simpl.
  split; [|split; [|split; [|split]]].
  - intros p Hp. by apply elem_of_nil in Hp.
  - intros p Hp. by apply elem_of_nil in Hp.
  - apply NoDup_nil_2.
  - intros b body p Hb Hh. apply list_lookup_imap_Some in Hb as (x & _ & ->). done.
  - intros b1 b2 body1 body2 p Hb1 _ Hh1. apply list_lookup_imap_Some in Hb1 as (x & _ & ->).
    done.
Qed.

Lemma PoolInv_reachable (s : State) : reachable s -> PoolInv s.
Proof.
  apply reachable_invariant; [apply PoolInv_initial|].
  intros ev s' H. by apply PoolInv_joinTasks, PoolInv_dispatch.
Qed.


(** *** Shapes that never change *)

(** The asset array and the task list have one entry per planned frame,
    task [i] has index [i], and every attempt carries the index of a task. *)
Definition ShapeInv (s : State) : Prop :=
  length (assets _ s) = length frames
  /\ length (tasks _ s) = length frames
  /\ (forall b body, bodies _ s !! b = Some body -> (b_index body < length frames)%nat)
  /\ (forall i task, tasks _ s !! i = Some task -> t_index task = i).

Lemma ShapeInv_frame (s s' : State) :
  assets _ s' = assets _ s -> tasks _ s' = tasks _ s -> bodies _ s' = bodies _ s ->
  ShapeInv s -> ShapeInv s'.
Proof. unfold ShapeInv. intros -> -> ->. done. Qed.

Lemma ShapeInv_setPc (b : nat) (pc : BodyPc) (s : State) :
  ShapeInv s -> ShapeInv (setPc _ b pc s).
Proof.
  intros (H1 & H2 & H3 & H4). repeat split; try done.
  intros b' body Hb'. simpl in Hb'.
  apply lookup_alter_Some in Hb' as [(-> & x & Hx & ->)|(_ & Hx)]; simpl; eauto.
Qed.

Lemma ShapeInv_setStatus (t : nat) (st : TaskStatus) (s : State) :
  ShapeInv s -> ShapeInv (setStatus _ t st s).
Proof.
  intros (H1 & H2 & H3 & H4). repeat split; try done.
  - simpl. by rewrite length_alter.
  - intros i task Hi. simpl in Hi.
    apply lookup_alter_Some in Hi as [(-> & x & Hx & ->)|(_ & Hx)]; simpl; eauto.
Qed.

Lemma ShapeInv_emit (o : Obs) (s : State) : ShapeInv s -> ShapeInv (emit _ o s).
Proof. by apply ShapeInv_frame. Qed.

Lemma ShapeInv_settleRun (r : Outcome) (s : State) : ShapeInv s -> ShapeInv (settleRun _ r s).
Proof. unfold settleRun. destruct (result _ s); [done|]. by apply ShapeInv_frame. Qed.

Lemma ShapeInv_joinTasks (s : State) : ShapeInv s -> ShapeInv (joinTasks _ s).
Proof. unfold joinTasks. destruct (forallb _ _); [|done]. apply ShapeInv_settleRun. Qed.

Lemma ShapeInv_settle (b index : nat) (r : Outcome) (s : State) :
  ShapeInv s -> ShapeInv (settle _ b index r s).
Proof. unfold settle. intros H. repeat case_match; try done; by apply ShapeInv_setStatus. Qed.

Lemma ShapeInv_throwFrom (b : nat) (body : Body) (e : Error) (s : State) :
  ShapeInv s -> ShapeInv (throwFrom _ b body e s).
Proof. intros H. by apply ShapeInv_settle, ShapeInv_setPc, ShapeInv_emit. Qed.

Lemma ShapeInv_rejectTask (t : nat) (e : Error) (s : State) :
  ShapeInv s -> ShapeInv (rejectTask _ t e s).
Proof. intros H. by apply ShapeInv_settleRun, ShapeInv_setStatus. Qed.

Lemma ShapeInv_releaseToPool (page : Page) (s : State) :
  ShapeInv s -> ShapeInv (releaseToPool _ page s).
Proof.
  intros H. unfold releaseToPool. destruct (Pool.release _ _) as [pool' [w|]].
  - apply ShapeInv_emit, ShapeInv_setPc. by eapply ShapeInv_frame; [..|exact H].
  - by eapply ShapeInv_frame; [..|exact H].
Qed.

Lemma length_arraySet {A} (index : nat) (x : A) (l : list (option A)) :
  (index < length l)%nat -> length (arraySet index x l) = length l.
Proof.
  intros H. unfold arraySet. apply Nat.ltb_lt in H. rewrite H. apply length_insert.
Qed.

Lemma arraySet_lookup_eq {A} (index : nat) (x : A) (l : list (option A)) :
  arraySet index x l !! index = Some (Some x).
Proof.
  unfold arraySet. destruct (Nat.ltb_spec index (length l)) as [Hlt|Hge].
  - by apply list_lookup_insert_eq.
  - rewrite lookup_app_r by done. rewrite lookup_app_r by (rewrite length_replicate; lia).
    rewrite length_replicate. by replace (index - length l - (index - length l))%nat with 0%nat by lia.
Qed.

Lemma arraySet_lookup_Some {A} (index i : nat) (x y : A) (l : list (option A)) :
  arraySet index x l !! i = Some (Some y) ->
  (i = index /\ y = x) \/ (i <> index /\ l !! i = Some (Some y)).
Proof.
  destruct (decide (i = index)) as [->|Hne].
  - rewrite arraySet_lookup_eq. intros [= <-]. by left.
  - intros H. right. split; [done|]. revert H. unfold arraySet.
    destruct (Nat.ltb_spec index (length l)) as [Hlt|Hge].
    + by rewrite list_lookup_insert_ne.
    + intros H. apply lookup_app_Some in H as [H|[Hge' H]]; [done|].
      apply lookup_app_Some in H as [H|[Hge'' H]].
      * apply lookup_replicate in H as [H _]. done.
      * rewrite length_replicate in *. apply list_lookup_singleton_Some in H as [H _]. lia.
Qed.

Lemma arraySet_lookup_ne {A} (index i : nat) (x y : A) (l : list (option A)) :
  l !! i = Some (Some y) -> i <> index -> arraySet index x l !! i = Some (Some y).
Proof.
  intros H Hne. unfold arraySet. destruct (Nat.ltb_spec index (length l)) as [Hlt|Hge].
  - by rewrite list_lookup_insert_ne.
  - by apply lookup_app_l_Some.
Qed.

Lemma ShapeInv_retryTask (t : nat) (s : State) :
  ShapeInv s -> ShapeInv (retryTask _ cancelMessage t s).
Proof.
  intros H. unfold retryTask.
  destruct (tasks _ s !! t) as [task|] eqn:Ht; [|done].
  destruct (t_status task); try done.
  destruct H as (H1 & H2 & H3 & H4).
  assert (Hlt : (t < length frames)%nat) by (rewrite <- H2; by eapply lookup_lt_Some).
  repeat split; simpl; try done.
  - by rewrite length_insert.
  - intros b body Hb. apply lookup_app_Some in Hb as [Hb|[_ Hb]]; [eauto|].
    apply list_lookup_singleton_Some in Hb as [_ <-]. simpl. by rewrite (H4 _ _ Ht).
  - intros i task' Hi. apply list_lookup_insert_Some in Hi as [(-> & <- & _)|(Hne & Hi)]; simpl; eauto.
Qed.

Lemma ShapeInv_failReplacingTask (e : Error) (t : nat) (s : State) :
  ShapeInv s -> ShapeInv (failReplacingTask _ e t s).
Proof.
  intros H. unfold failReplacingTask. repeat case_match; try done. by apply ShapeInv_rejectTask.
Qed.

Lemma fmap_cancelTask_lookup (l : list Task) (i : nat) (task : Task) :
  map (cancelTask cancelMessage) l !! i = Some task ->
  exists task0, l !! i = Some task0 /\ task = cancelTask cancelMessage task0.
Proof.
  revert i. induction l as [|x l IH]; intros [|i]; simpl; try done.
  - intros [= <-]. eauto.
  - apply IH.
Qed.

Lemma ShapeInv_dispatch (ev : Event) (s : State) : ShapeInv s -> ShapeInv (dispatch ev s).
Proof.
  intros H. dispatch_cases ev s; try exact H;
    on_throw ltac:(by apply ShapeInv_throwFrom);
    not_fold ltac:(try (by eapply ShapeInv_frame; [..|exact H]));
    not_fold ltac:(try (by apply ShapeInv_rejectTask; try apply ShapeInv_emit));
    not_fold ltac:(try (by apply ShapeInv_setStatus; try apply ShapeInv_emit)).
  - (* cancel *)
    apply ShapeInv_settleRun. destruct H as (H1 & H2 & H3 & H4).
    repeat split; simpl; try done.
    + by rewrite length_map.
    + intros i task Hi. apply fmap_cancelTask_lookup in Hi as (task0 & Hi & ->).
      unfold cancelTask. destruct (t_status task0); simpl; eauto.
  - apply ShapeInv_setPc. by eapply ShapeInv_frame; [..|exact H].
  - apply ShapeInv_emit, ShapeInv_setPc. by eapply ShapeInv_frame; [..|exact H].
  - by apply ShapeInv_settle, ShapeInv_setPc, ShapeInv_emit.
  - by apply ShapeInv_emit, ShapeInv_setPc.
  - by apply ShapeInv_emit, ShapeInv_setPc.
  - (* the frame is recorded *)
    apply ShapeInv_settle, ShapeInv_setPc, ShapeInv_releaseToPool, ShapeInv_emit, ShapeInv_emit.
    destruct H as (H1 & H2 & H3 & H4).
    assert (Hlt := H3 _ _ Hb).
    destruct (onFrameBuffer opts); (repeat split; simpl; try done);
      rewrite length_arraySet; simpl; lia.
  - by apply ShapeInv_settle, ShapeInv_emit.
  - by apply ShapeInv_settle, ShapeInv_emit.
  - (* refill and retry *)
    apply foldl_invariant; [intros; by apply ShapeInv_retryTask|].
    eapply ShapeInv_frame with (s := refillPool _ opts s); try done.
    unfold refillPool. eapply ShapeInv_frame with (s := foldl _ _ _); try done.
    apply foldl_invariant; [intros; by apply ShapeInv_releaseToPool|].
    by apply ShapeInv_emit; eapply ShapeInv_frame; [..|exact H].
  - apply foldl_invariant; [intros; by apply ShapeInv_failReplacingTask|].
    by eapply ShapeInv_frame; [..|exact H].
  - apply foldl_invariant; [intros; by apply ShapeInv_failReplacingTask|].
    by eapply ShapeInv_frame; [..|exact H].
Qed.

Lemma ShapeInv_initial (cancelled : bool) : ShapeInv (initialState cancelled).
Proof.
  apply ShapeInv_joinTasks. repeat split; simpl.
  - by rewrite length_replicate.
  - by rewrite length_imap.
  - intros b body Hb. apply list_lookup_imap_Some in Hb as (x & Hx & ->). simpl.
    by eapply lookup_lt_Some.
  - intros i task Hi. apply list_lookup_imap_Some in Hi as (x & Hx & ->). done.
Qed.

Lemma ShapeInv_reachable (s : State) : reachable s -> ShapeInv s.
Proof.
  apply reachable_invariant; [apply ShapeInv_initial|].
  intros ev s' H. by apply ShapeInv_joinTasks, ShapeInv_dispatch.
Qed.

(** *** Waiting attempts *)

(** The attempts queued in the pool are distinct and all stand at line 285. *)
Definition WaitInv (s : State) : Prop :=
  NoDup (Pool.waiters (pool _ s))
  /\ (forall w, w ∈ Pool.waiters (pool _ s) ->
        exists body, bodies _ s !! w = Some body /\ b_pc body = BAwaitAcquire).

Lemma WaitInv_frame (s s' : State) :
  pool _ s' = pool _ s -> bodies _ s' = bodies _ s -> WaitInv s -> WaitInv s'.
Proof. unfold WaitInv. intros -> ->. done. Qed.

Lemma WaitInv_not_waiting (s : State) (b : nat) (body : Body) :
  WaitInv s -> bodies _ s !! b = Some body -> b_pc body <> BAwaitAcquire ->
  b ∉ Pool.waiters (pool _ s).
Proof.
  intros [_ H] Hb Hpc Hin. destruct (H _ Hin) as (body' & Hb' & Hpc'). congruence.
Qed.

Lemma WaitInv_setPc (b : nat) (pc : BodyPc) (s : State) :
  b ∉ Pool.waiters (pool _ s) -> WaitInv s -> WaitInv (setPc _ b pc s).
Proof.
  intros Hb [H1 H2]. split; [done|]. intros w Hw. simpl in *.
  destruct (H2 _ Hw) as (body' & Hb' & Hpc'). exists body'. split; [|done].
  rewrite list_lookup_alter_ne; [done|]. intros ->. done.
Qed.

Lemma WaitInv_settle (b index : nat) (r : Outcome) (s : State) :
  WaitInv s -> WaitInv (settle _ b index r s).
Proof. unfold settle. intros H. repeat case_match; try done; by eapply WaitInv_frame; [..|exact H]. Qed.

Lemma WaitInv_throwFrom (b : nat) (body : Body) (e : Error) (s : State) :
  bodies _ s !! b = Some body -> b_pc body <> BAwaitAcquire ->
  WaitInv s -> WaitInv (throwFrom _ b body e s).
Proof.
  intros Hb Hpc H. apply WaitInv_settle, WaitInv_setPc.
  - simpl. by eapply WaitInv_not_waiting.
  - by eapply WaitInv_frame; [..|exact H].
Qed.

Lemma WaitInv_releaseToPool (page : Page) (s : State) :
  WaitInv s -> WaitInv (releaseToPool _ page s).
Proof.
  intros [H1 H2]. unfold releaseToPool, Pool.release.
  destruct (Pool.waiters (pool _ s)) as [|w ws] eqn:Hw.
  - split; simpl; [apply NoDup_nil_2|]. intros w Hin. by apply elem_of_nil in Hin.
  - apply NoDup_cons in H1 as [Hnotin Hnd]. split; simpl; [done|].
    intros w' Hin. destruct (H2 w') as (body' & Hb' & Hpc'); [by right|].
    exists body'. split; [|done]. rewrite list_lookup_alter_ne; [done|]. intros ->. done.
Qed.

Lemma WaitInv_retryTask (t : nat) (s : State) :
  WaitInv s -> WaitInv (retryTask _ cancelMessage t s).
Proof.
  intros H. unfold retryTask. repeat case_match; try done.
  all: destruct H as [Hnd Hall]; split; [done|]; intros w Hw; simpl in *.
  all: destruct (Hall _ Hw) as (body' & Hb' & Hpc'); exists body'; split; [|done].
  all: by apply lookup_app_l_Some.
Qed.

Lemma WaitInv_failReplacingTask (e : Error) (t : nat) (s : State) :
  WaitInv s -> WaitInv (failReplacingTask _ e t s).
Proof.
  intros H. unfold failReplacingTask, rejectTask, settleRun.
  repeat case_match; try done; by eapply WaitInv_frame; [..|exact H].
Qed.

Lemma WaitInv_joinTasks (s : State) : WaitInv s -> WaitInv (joinTasks _ s).
Proof.
  unfold joinTasks, settleRun. intros H.
  repeat case_match; try done; by eapply WaitInv_frame; [..|exact H].
Qed.

Lemma WaitInv_dispatch (ev : Event) (s : State) : WaitInv s -> WaitInv (dispatch ev s).
Proof.
  intros H.
  dispatch_cases ev s; try exact H;
    on_throw ltac:(apply WaitInv_throwFrom; [done|by rewrite Hpc|done]).
  - split; simpl; [apply NoDup_nil_2|]. intros w Hin. by apply elem_of_nil in Hin.
  - unfold settleRun. repeat case_match; by eapply WaitInv_frame; [..|exact H].
  - (* queued *)
    assert (Hnot : b ∉ Pool.waiters (pool _ s)).
    { eapply WaitInv_not_waiting; [done..|]. by rewrite Hpc. }
    destruct H as [H1 H2]. split; simpl.
    + apply NoDup_app. split; [done|]. split; [|apply NoDup_singleton].
      intros w Hw Hw'. apply list_elem_of_singleton in Hw' as ->. done.
    + intros w Hw. apply elem_of_app in Hw as [Hw|Hw].
      * destruct (H2 _ Hw) as (body' & Hb' & Hpc'). exists body'. split; [|done].
        rewrite list_lookup_alter_ne; [done|]. intros ->. done.
      * apply list_elem_of_singleton in Hw as ->. exists (withPc BAwaitAcquire body).
        split; [|done]. by rewrite list_lookup_alter_eq, Hb.
  - (* acquired *)
    assert (Hnot : b ∉ Pool.waiters (pool _ s)).
    { eapply WaitInv_not_waiting; [done..|]. by rewrite Hpc. }
    destruct H as [H1 H2]. split; simpl; [done|].
    intros w Hw. destruct (H2 _ Hw) as (body' & Hb' & Hpc'). exists body'. split; [|done].
    rewrite list_lookup_alter_ne; [done|]. intros ->. done.
  - apply WaitInv_settle, WaitInv_setPc; [|by eapply WaitInv_frame; [..|exact H]].
    simpl. eapply WaitInv_not_waiting; [done..|]. by rewrite Hpc.
  - eapply WaitInv_frame with (s := setPc _ b (BSeeking page) s); try done.
    apply WaitInv_setPc; [|done]. eapply WaitInv_not_waiting; [done..|]. by rewrite Hpc.
  - eapply WaitInv_frame with (s := setPc _ b (BCapturing page) s); try done.
    apply WaitInv_setPc; [|done]. eapply WaitInv_not_waiting; [done..|]. by rewrite Hpc.
  - (* the frame is recorded *)
    assert (Hnot : b ∉ Pool.waiters (pool _ s)).
    { eapply WaitInv_not_waiting; [done..|]. by rewrite Hpc. }
    apply WaitInv_settle.
    match goal with |- WaitInv (setPc _ _ _ (releaseToPool _ _ ?s0)) =>
      assert (H0 : WaitInv s0) by (destruct (onFrameBuffer opts); by eapply WaitInv_frame; [..|exact H]);
      assert (Hp0 : pool _ s0 = pool _ s) by (by destruct (onFrameBuffer opts))
    end.
    apply (WaitInv_releaseToPool page) in H0.
    apply WaitInv_setPc; [|done].
    unfold releaseToPool, Pool.release. rewrite Hp0.
    destruct (Pool.waiters (pool _ s)) as [|w ws] eqn:Hw; simpl.
    + apply not_elem_of_nil.
    + intros Hin. apply Hnot. by right.
  - apply WaitInv_settle. by eapply WaitInv_frame; [..|exact H].
  - apply WaitInv_settle. by eapply WaitInv_frame; [..|exact H].
  - unfold rejectTask, settleRun. repeat case_match; by eapply WaitInv_frame; [..|exact H].
  - unfold rejectTask, settleRun. repeat case_match; by eapply WaitInv_frame; [..|exact H].
  - apply foldl_invariant; [intros; by apply WaitInv_retryTask|].
    eapply WaitInv_frame with (s := refillPool _ opts s); try done.
    unfold refillPool. eapply WaitInv_frame with (s := foldl _ _ _); try done.
    apply foldl_invariant; [intros; by apply WaitInv_releaseToPool|].
    by eapply WaitInv_frame; [..|exact H].
  - apply foldl_invariant; [intros; by apply WaitInv_failReplacingTask|].
    by eapply WaitInv_frame; [..|exact H].
  - apply foldl_invariant; [intros; by apply WaitInv_failReplacingTask|].
    by eapply WaitInv_frame; [..|exact H].
Qed.

Lemma WaitInv_initial (cancelled : bool) : WaitInv (initialState cancelled).
Proof.
  apply WaitInv_joinTasks. split; simpl; [apply NoDup_nil_2|].
  intros w Hin. by apply elem_of_nil in Hin.
Qed.

Lemma WaitInv_reachable (s : State) : reachable s -> WaitInv s.
Proof.
  apply reachable_invariant; [apply WaitInv_initial|].
  intros ev s' H. by apply WaitInv_joinTasks, WaitInv_dispatch.
Qed.

(** *** The run's outcome and the asset slots *)

Definition slotFilled (s : State) (i : nat) : Prop :=
  exists record, assets _ s !! i = Some (Some record).

Definition runRejected (s : State) : Prop :=
  exists e, result _ s = Some (Rejected e).

(** A fulfilled task has its slot filled unless the run was already
    rejected; a stopped run has settled; a fulfilled run has every task
    fulfilled. *)
Definition ResInv (s : State) : Prop :=
  (forall i task, tasks _ s !! i = Some task -> t_status task = TFulfilled ->
     slotFilled s i \/ runRejected s)
  /\ (stopped _ s = true -> result _ s <> None)
  /\ (result _ s = Some Fulfilled ->
      forall i task, tasks _ s !! i = Some task -> t_status task = TFulfilled).

Lemma ResInv_frame (s s' : State) :
  tasks _ s' = tasks _ s -> assets _ s' = assets _ s ->
  result _ s' = result _ s -> stopped _ s' = stopped _ s ->
  ResInv s -> ResInv s'.
Proof. unfold ResInv, slotFilled, runRejected. intros -> -> -> ->. done. Qed.

Lemma ResInv_settleRun_rejected (e : Error) (s : State) :
  ResInv s -> ResInv (settleRun _ (Rejected e) s).
Proof.
  intros H. unfold settleRun. destruct (result _ s) eqn:Hr; [exact H|].
  destruct H as (HA & HB & HC).
  split; [|split]; simpl; try done.
  intros i task _ _. right. by exists e.
Qed.

Lemma ResInv_setStatus (t : nat) (st : TaskStatus) (task : Task) (s : State) :
  tasks _ s !! t = Some task -> t_status task <> TFulfilled ->
  (st = TFulfilled -> slotFilled s t \/ runRejected s) ->
  ResInv s -> ResInv (setStatus _ t st s).
Proof.
  intros Ht Hst Hful (HA & HB & HC). split; [|split]; simpl; try done.
  - intros i task' Hi Hs.
    apply lookup_alter_Some in Hi as [(-> & x & Hx & ->)|(_ & Hx)]; simpl in *.
    + by apply Hful.
    + by eapply HA.
  - intros Hr. exfalso. apply Hst. by eapply HC.
Qed.

Lemma ResInv_settle (b index : nat) (r : Outcome) (s : State) :
  (r = Fulfilled -> slotFilled s index \/ runRejected s) ->
  ResInv s -> ResInv (settle _ b index r s).
Proof.
  intros Hful H. unfold settle.
  destruct (tasks _ s !! index) as [task|] eqn:Ht; [|done].
  destruct (t_status task) eqn:Hst; try done.
  destruct (Nat.eqb _ _); [|done].
  eapply ResInv_setStatus; [done|by rewrite Hst| |done].
  destruct r; [auto|done].
Qed.

Lemma ResInv_throwFrom (b : nat) (body : Body) (e : Error) (s : State) :
  ResInv s -> ResInv (throwFrom _ b body e s).
Proof.
  intros H. apply ResInv_settle; [done|]. by eapply ResInv_frame; [..|exact H].
Qed.

Lemma ResInv_rejectTask (t : nat) (e : Error) (task : Task) (s : State) :
  tasks _ s !! t = Some task -> t_status task <> TFulfilled ->
  ResInv s -> ResInv (rejectTask _ t e s).
Proof.
  intros Ht Hst H. apply ResInv_settleRun_rejected. by eapply ResInv_setStatus.
Qed.

Lemma ResInv_releaseToPool (page : Page) (s : State) :
  ResInv s -> ResInv (releaseToPool _ page s).
Proof.
  intros H. unfold releaseToPool. destruct (Pool.release _ _) as [pool' [w|]];
    by eapply ResInv_frame; [..|exact H].
Qed.

Lemma ResInv_retryTask (t : nat) (s : State) :
  ResInv s -> ResInv (retryTask _ cancelMessage t s).
Proof.
  intros H. unfold retryTask.
  destruct (tasks _ s !! t) as [task|] eqn:Ht; [|done].
  destruct (t_status task) eqn:Hst; try done.
  destruct H as (HA & HB & HC). split; [|split]; simpl; try done.
  - intros i task' Hi Hs.
    apply list_lookup_insert_Some in Hi as [(-> & <- & _)|(Hne & Hi)].
    + simpl in Hs. by destruct (stopped _ s).
    + by eapply HA.
  - intros Hr. specialize (HC Hr _ _ Ht). congruence.
Qed.

Lemma ResInv_failReplacingTask (e : Error) (t : nat) (s : State) :
  ResInv s -> ResInv (failReplacingTask _ e t s).
Proof.
  intros H. unfold failReplacingTask.
  destruct (tasks _ s !! t) as [task|] eqn:Ht; [|done].
  destruct (t_status task) eqn:Hst; try done.
  eapply ResInv_rejectTask; [done|by rewrite Hst|done].
Qed.

Lemma ResInv_joinTasks (s : State) : ResInv s -> ResInv (joinTasks _ s).
Proof.
  intros H. unfold joinTasks.
  destruct (forallb _ _) eqn:Hall; [|exact H].
  unfold settleRun. destruct (result _ s) eqn:Hr; [exact H|].
  destruct H as (HA & HB & HC).
  split; [|split]; simpl; try done.
  - intros i task Hi Hs. destruct (HA _ _ Hi Hs) as [Hf|[e He]]; [by left|congruence].
  - intros _ i task Hi. rewrite forallb_forall in Hall.
    assert (Hin : In task (tasks _ s)).
    { apply list_elem_of_In, list_elem_of_lookup. eauto. }
    specialize (Hall _ Hin). unfold isFulfilled in Hall. by destruct (t_status task).
Qed.

Lemma catchDecision_silent (err : Error) (stop : bool) :
  catchDecision isUserCancelledRender isTargetClosedErr err stop = ReturnSilently ->
  stop = true.
Proof.
  unfold catchDecision. destruct (isUserCancelledRender err), (isTargetClosedErr err), stop; done.
Qed.

Lemma slotFilled_arraySet (s : State) (index i : nat) (record : list TAsset) :
  slotFilled s i \/ i = index ->
  slotFilled (setAssets _ (arraySet index record (assets _ s)) s) i.
Proof.
  unfold slotFilled. simpl. destruct (decide (i = index)) as [->|Hne].
  - intros _. exists record. apply arraySet_lookup_eq.
  - intros [[r Hr]|?]; [|done]. exists r. by apply arraySet_lookup_ne.
Qed.

Lemma ResInv_dispatch (ev : Event) (s : State) : ResInv s -> ResInv (dispatch ev s).
Proof.
  intros H.
  dispatch_cases ev s; try exact H;
    on_throw ltac:(by apply ResInv_throwFrom);
    not_fold ltac:(try (by eapply ResInv_frame; [..|exact H])).
  - (* cancel *)
    destruct H as (HA & HB & HC).
    assert (HA' : forall i task,
              map (cancelTask cancelMessage) (tasks _ s) !! i = Some task ->
              t_status task = TFulfilled ->
              exists task0, tasks _ s !! i = Some task0 /\ t_status task0 = TFulfilled).
    { intros i task Hi Hs. apply fmap_cancelTask_lookup in Hi as (task0 & Hi & ->).
      exists task0. split; [done|]. unfold cancelTask in Hs.
      destruct (t_status task0) eqn:E; simpl in Hs; congruence. }
    unfold settleRun. simpl. destruct (result _ s) as [o|] eqn:Hr.
    + split; [|split]; simpl.
      * intros i task Hi Hs. destruct (HA' _ _ Hi Hs) as (task0 & Hi0 & Hs0).
        destruct (HA _ _ Hi0 Hs0) as [Hf|[e He]]; [by left|]. right. by exists e.
      * intros _. by rewrite Hr.
      * intros Hr' i task Hi. apply fmap_cancelTask_lookup in Hi as (task0 & Hi & ->).
        assert (o = Fulfilled) as -> by congruence.
        specialize (HC eq_refl _ _ Hi). unfold cancelTask. by rewrite HC.
    + split; [|split]; simpl; try done.
      intros i task _ _. right. by eexists.
  - apply ResInv_settle; [done|]. by eapply ResInv_frame; [..|exact H].
  - (* the frame is recorded *)
    apply ResInv_settle.
    + intros _. left. unfold slotFilled. simpl.
      unfold releaseToPool, Pool.release.
      destruct (Pool.waiters _) as [|w ws]; simpl;
        destruct (onFrameBuffer opts); simpl; eexists; apply arraySet_lookup_eq.
    + apply (ResInv_frame
               (setAssets _ (arraySet (b_index body)
                               (map (compressAsset (concat (omap id (assets _ s)))) collected)
                               (assets _ s)) s)).
      * unfold releaseToPool, Pool.release.
        destruct (Pool.waiters _) as [|w ws]; simpl; by destruct (onFrameBuffer opts).
      * unfold releaseToPool, Pool.release.
        destruct (Pool.waiters _) as [|w ws]; simpl; by destruct (onFrameBuffer opts).
      * unfold releaseToPool, Pool.release.
        destruct (Pool.waiters _) as [|w ws]; simpl; by destruct (onFrameBuffer opts).
      * unfold releaseToPool, Pool.release.
        destruct (Pool.waiters _) as [|w ws]; simpl; by destruct (onFrameBuffer opts).
      * destruct H as (HA & HB & HC). split; [|split]; try done.
        intros i task Hi Hs. destruct (HA _ _ Hi Hs) as [Hf|Hr]; [|by right].
        left. apply slotFilled_arraySet. by left.
  - apply ResInv_settle; [done|]. by eapply ResInv_frame; [..|exact H].
  - apply ResInv_settle; [done|]. by eapply ResInv_frame; [..|exact H].
  - eapply ResInv_rejectTask; [done|by rewrite Hst|done].
  - (* stopped: the task returns without a frame *)
    apply catchDecision_silent in Hdec.
    eapply ResInv_setStatus; [done|by rewrite Hst| |done].
    intros _. right. destruct H as (HA & HB & HC).
    destruct (result _ s) as [[|e]|] eqn:Hr.
    + specialize (HC eq_refl _ _ Ht). congruence.
    + by exists e.
    + by destruct (HB Hdec).
  - eapply ResInv_rejectTask; [done|by rewrite Hst|].
    by eapply ResInv_frame; [..|exact H].
  - eapply ResInv_setStatus; [done|by rewrite Hst|done|].
    by eapply ResInv_frame; [..|exact H].
  - eapply ResInv_frame with (s := setStatus _ t TReplacing s); try done.
    by eapply ResInv_setStatus; [done|by rewrite Hst|done|].
  - apply foldl_invariant; [intros; by apply ResInv_retryTask|].
    eapply ResInv_frame with (s := refillPool _ opts s); try done.
    unfold refillPool. eapply ResInv_frame with (s := foldl _ _ _); try done.
    apply foldl_invariant; [intros; by apply ResInv_releaseToPool|].
    by eapply ResInv_frame; [..|exact H].
  - apply foldl_invariant; [intros; by apply ResInv_failReplacingTask|].
    by eapply ResInv_frame; [..|exact H].
  - apply foldl_invariant; [intros; by apply ResInv_failReplacingTask|].
    by eapply ResInv_frame; [..|exact H].
Qed.

Lemma ResInv_initial (cancelled : bool) : ResInv (initialState cancelled).
Proof.
  apply ResInv_joinTasks. split; [|split]; simpl.
  - intros i task Hi Hs. apply list_lookup_imap_Some in Hi as (x & _ & ->). simpl in Hs.
    by destruct (cancelSignal opts && cancelled).
  - intros ->. done.
  - by destruct (cancelSignal opts && cancelled).
Qed.

Lemma ResInv_reachable (s : State) : reachable s -> ResInv s.
Proof.
  apply reachable_invariant; [apply ResInv_initial|].
  intros ev s' H. by apply ResInv_joinTasks, ResInv_dispatch.
Qed.

(** *** Runs that never capture *)

(** Observations made when a frame is captured and recorded. *)
Definition captureObs (o : Obs) : bool :=
  match o with
  | OCapture _ _ _ | OFrameBuffer _ | OWrite _ _ | OFrameUpdate _ _ | ORelease _ _ => true
  | _ => false
  end.

Definition capturing (pc : BodyPc) : bool :=
  match pc with
  | BCapturing _ => true
  | _ => false
  end.

(** Nothing was captured: no frame counted, no slot written, no attempt
    at or past [takeFrameAndCompose]. *)
Definition NoCapture (s : State) : Prop :=
  framesRendered _ s = 0%nat
  /\ assets _ s = replicate (length frames) None
  /\ (forall b body, bodies _ s !! b = Some body -> capturing (b_pc body) = false)
  /\ Forall (fun o => captureObs o = false) (trace _ s).

Lemma NoCapture_frame (s s' : State) :
  framesRendered _ s' = framesRendered _ s -> assets _ s' = assets _ s ->
  bodies _ s' = bodies _ s -> trace _ s' = trace _ s ->
  NoCapture s -> NoCapture s'.
Proof. unfold NoCapture. intros -> -> -> ->. done. Qed.

Lemma NoCapture_emit (o : Obs) (s : State) :
  captureObs o = false -> NoCapture s -> NoCapture (emit _ o s).
Proof.
  intros Ho (H1 & H2 & H3 & H4). repeat split; try done. simpl. by constructor.
Qed.

Lemma NoCapture_setPc (b : nat) (pc : BodyPc) (s : State) :
  capturing pc = false -> NoCapture s -> NoCapture (setPc _ b pc s).
Proof.
  intros Hpc (H1 & H2 & H3 & H4). repeat split; try done.
  intros b' body Hb'. simpl in Hb'.
  apply lookup_alter_Some in Hb' as [(-> & x & Hx & ->)|(_ & Hx)]; simpl; eauto.
Qed.

Lemma NoCapture_settle (b index : nat) (r : Outcome) (s : State) :
  NoCapture s -> NoCapture (settle _ b index r s).
Proof.
  unfold settle. intros H. repeat case_match; try done; by eapply NoCapture_frame; [..|exact H].
Qed.

Lemma NoCapture_throwFrom (b : nat) (body : Body) (e : Error) (s : State) :
  NoCapture s -> NoCapture (throwFrom _ b body e s).
Proof. intros H. by apply NoCapture_settle, NoCapture_setPc, NoCapture_emit. Qed.

Lemma NoCapture_settleRun (r : Outcome) (s : State) : NoCapture s -> NoCapture (settleRun _ r s).
Proof. unfold settleRun. intros H. destruct (result _ s); [done|]. by eapply NoCapture_frame; [..|exact H]. Qed.

Lemma NoCapture_joinTasks (s : State) : NoCapture s -> NoCapture (joinTasks _ s).
Proof. unfold joinTasks. intros H. destruct (forallb _ _); [|done]. by apply NoCapture_settleRun. Qed.

Lemma NoCapture_rejectTask (t : nat) (e : Error) (s : State) :
  NoCapture s -> NoCapture (rejectTask _ t e s).
Proof. intros H. apply NoCapture_settleRun. by eapply NoCapture_frame; [..|exact H]. Qed.

Lemma NoCapture_releaseToPool (page : Page) (s : State) :
  NoCapture s -> NoCapture (releaseToPool _ page s).
Proof.
  intros H. unfold releaseToPool. destruct (Pool.release _ _) as [pool' [w|]].
  - apply NoCapture_emit; [done|]. apply NoCapture_setPc; [done|].
    by eapply NoCapture_frame; [..|exact H].
  - by eapply NoCapture_frame; [..|exact H].
Qed.

Lemma NoCapture_retryTask (t : nat) (s : State) :
  NoCapture s -> NoCapture (retryTask _ cancelMessage t s).
Proof.
  intros H. unfold retryTask. repeat case_match; try done.
  all: destruct H as (Hf & Ha & Hb & Ht); repeat split; try done.
  all: intros b body Hl; simpl in Hl.
  all: apply lookup_app_Some in Hl as [Hl|[_ Hl]]; [by eapply Hb|].
  all: by apply list_lookup_singleton_Some in Hl as [_ <-].
Qed.

Lemma NoCapture_failReplacingTask (e : Error) (t : nat) (s : State) :
  NoCapture s -> NoCapture (failReplacingTask _ e t s).
Proof.
  intros H. unfold failReplacingTask. repeat case_match; try done. by apply NoCapture_rejectTask.
Qed.

Lemma NoCapture_refillPool (s : State) : NoCapture s -> NoCapture (refillPool _ opts s).
Proof.
  intros H. unfold refillPool.
  eapply NoCapture_frame with (s := foldl _ _ _); try done.
  apply foldl_invariant; [intros; by apply NoCapture_releaseToPool|].
  apply NoCapture_emit; [done|]. by eapply NoCapture_frame; [..|exact H].
Qed.

(** The steps that do not depend on the output mode keep [NoCapture]; the
    two that could start or finish a capture are left to the caller. *)
Lemma NoCapture_dispatch (ev : Event) (s : State) :
  (forall b, ev <> EvSeekDone _ b Fulfilled) ->
  NoCapture s -> NoCapture (dispatch ev s).
Proof.
  intros Hev H.
  dispatch_cases ev s; try exact H;
    on_throw ltac:(by apply NoCapture_throwFrom);
    not_fold ltac:(try (by eapply NoCapture_frame; [..|exact H])).
  - unfold settleRun. repeat case_match; by eapply NoCapture_frame; [..|exact H].
  - apply NoCapture_setPc; [done|]. by eapply NoCapture_frame; [..|exact H].
  - apply NoCapture_emit; [done|]. apply NoCapture_setPc; [done|].
    by eapply NoCapture_frame; [..|exact H].
  - apply NoCapture_settle, NoCapture_setPc; [done|]. by apply NoCapture_emit.
  - apply NoCapture_emit; [done|]. by apply NoCapture_setPc.
  - by destruct (Hev b).
  - destruct H as (_ & _ & H3 & _). specialize (H3 _ _ Hb). by rewrite Hpc in H3.
  - unfold pageError. apply NoCapture_settle. by apply NoCapture_emit.
  - unfold pageError. apply NoCapture_settle. by apply NoCapture_emit.
  - by apply NoCapture_rejectTask.
  - apply NoCapture_rejectTask. by apply NoCapture_emit.
  - by apply NoCapture_emit.
  - apply NoCapture_emit; [done|]. by apply NoCapture_emit.
  - apply foldl_invariant; [intros; by apply NoCapture_retryTask|].
    eapply NoCapture_frame with (s := refillPool _ opts s); try done.
    by apply NoCapture_refillPool.
  - apply foldl_invariant; [intros; by apply NoCapture_failReplacingTask|].
    by eapply NoCapture_frame; [..|exact H].
  - apply foldl_invariant; [intros; by apply NoCapture_failReplacingTask|].
    by eapply NoCapture_frame; [..|exact H].
Qed.

(** *** Conflicting output modes *)

(** lines 305-315: the error the two checks raise, if any. *)
Definition outputModeError (o : Options) : option Error :=
  if negb (truthyString (outputDir o)) && negb (onFrameBuffer o) && captures o
  then Some neitherOutputError
  else if truthyString (outputDir o) && onFrameBuffer o && captures o
       then Some bothOutputsError
       else None.

Lemma afterSeek_outputModeError (e : Error) (b : nat) (body : Body) (page : Page) (s : State) :
  outputModeError opts = Some e ->
  afterSeek _ opts b body page Fulfilled s = throwFrom _ b body e s.
Proof.
  unfold outputModeError, afterSeek.
  destruct (negb (truthyString (outputDir opts)) && negb (onFrameBuffer opts) && captures opts);
    [by intros [= <-]|].
  destruct (truthyString (outputDir opts) && onFrameBuffer opts && captures opts);
    [by intros [= <-]|done].
Qed.

Lemma NoCapture_dispatch_outputModeError (e : Error) (ev : Event) (s : State) :
  outputModeError opts = Some e ->
  NoCapture s -> NoCapture (dispatch ev s).
Proof.
  intros He H.
  assert (Hcase : (exists b, ev = EvSeekDone _ b Fulfilled)
                  \/ (forall b, ev <> EvSeekDone _ b Fulfilled)).
  { destruct ev as [| | | |b [|]| | | | |]; try (by right). left. by exists b. }
  destruct Hcase as [[b ->]|Hne].
  - simpl. unfold seekDone. destruct (bodies _ s !! b) as [body|]; [|done].
    destruct (b_pc body); try done.
    rewrite (afterSeek_outputModeError e) by done. by apply NoCapture_throwFrom.
  - by apply NoCapture_dispatch.
Qed.

Lemma NoCapture_initial (cancelled : bool) : NoCapture (initialState cancelled).
Proof.
  apply NoCapture_joinTasks. repeat split; simpl; try done.
  intros b body Hb. by apply list_lookup_imap_Some in Hb as (x & _ & ->).
Qed.

(** *** Cancellation before any attempt drives its page *)

Definition seeking (pc : BodyPc) : bool :=
  match pc with
  | BSeeking _ => true
  | _ => false
  end.

Definition seekObs (o : Obs) : bool :=
  match o with
  | OSeek _ _ _ => true
  | _ => false
  end.

Definition cancelledStatus (st : TaskStatus) : Prop :=
  st = TCaught cancelErr \/ st = TRejected cancelErr.

(** The run is stopped and rejected with the cancellation error, every
    task has been or will be rejected with it, no replacement is under way
    and no attempt has sought or captured a frame. *)
Definition CancelledEarly (s : State) : Prop :=
  NoCapture s
  /\ stopped _ s = true
  /\ result _ s = Some (Rejected cancelErr)
  /\ replacing _ s = false
  /\ (forall b body, bodies _ s !! b = Some body -> seeking (b_pc body) = false)
  /\ (forall i task, tasks _ s !! i = Some task -> cancelledStatus (t_status task))
  /\ Forall (fun o => seekObs o = false) (trace _ s).

Lemma settle_not_racing (b index : nat) (r : Outcome) (s : State) :
  (forall task, tasks _ s !! index = Some task -> cancelledStatus (t_status task)) ->
  settle _ b index r s = s.
Proof.
  intros H. unfold settle. destruct (tasks _ s !! index) as [task|]; [|done].
  by destruct (H _ eq_refl) as [-> | ->].
Qed.

Lemma CancelledEarly_joinTasks (s : State) : CancelledEarly s -> CancelledEarly (joinTasks _ s).
Proof.
  intros H. unfold joinTasks, settleRun. destruct (forallb _ _); [|done].
  destruct H as (H1 & H2 & H3 & H4). by rewrite H3.
Qed.

Lemma CancelledEarly_pcs (b : nat) (pc : BodyPc) (obs : list Obs) (pl : Pool.t) (s : State) :
  seeking pc = false -> capturing pc = false ->
  Forall (fun o => captureObs o = false /\ seekObs o = false) obs ->
  CancelledEarly s ->
  CancelledEarly
    (mkState _ (poolPromise _ s) pl (nextPage _ s) (assets _ s) (framesRendered _ s)
       (stopped _ s) (alter (withPc pc) b (bodies _ s)) (tasks _ s) (replacing _ s)
       (refills _ s) (result _ s) (obs ++ trace _ s)).
Proof.
  intros Hs Hc Hobs ((N1 & N2 & N3 & N4) & H2 & H3 & H4 & H5 & H6 & H7).
  split; [|repeat split; try done]; simpl.
  - repeat split; try done; simpl.
    + intros b' body Hb'.
      apply lookup_alter_Some in Hb' as [(-> & x & Hx & ->)|(_ & Hx)]; simpl; eauto.
    + apply Forall_app. split; [|done]. eapply Forall_impl; [exact Hobs|]. by intros o [? ?].
  - intros b' body Hb'.
    apply lookup_alter_Some in Hb' as [(-> & x & Hx & ->)|(_ & Hx)]; simpl; eauto.
  - apply Forall_app. split; [|done]. eapply Forall_impl; [exact Hobs|]. by intros o [? ?].
Qed.

Lemma CancelledEarly_dispatch (ev : Event) (s : State) :
  isUserCancelledRender cancelErr = true ->
  CancelledEarly s -> CancelledEarly (dispatch ev s).
Proof.
  intros Hclass H.
  pose proof H as ((N1 & N2 & N3 & N4) & H2 & H3 & H4 & H5 & H6 & H7).
  dispatch_cases ev s; try exact H.
  - rewrite H2 in Hcs. by rewrite andb_false_r in Hcs.
  - apply (CancelledEarly_pcs b BAwaitAcquire [] _ s); try done.
  - apply (CancelledEarly_pcs b (BHolding page) [OAcquire b page] _ s); try done.
    by repeat constructor.
  - unfold throwFrom. rewrite settle_not_racing; [|intros task Ht; by eapply H6].
    apply (CancelledEarly_pcs b (BFinished (heldPage (b_pc body))) [OThrow b e] _ s); try done.
    by repeat constructor.
  - rewrite settle_not_racing; [|intros task Ht; by eapply H6].
    apply (CancelledEarly_pcs b (BFinished (Some page)) [ORejectStopped b] _ s); try done.
    by repeat constructor.
  - congruence.
  - specialize (H5 _ _ Hb). by rewrite Hpc in H5.
  - specialize (H5 _ _ Hb). by rewrite Hpc in H5.
  - specialize (H5 _ _ Hb). by rewrite Hpc in H5.
  - specialize (H5 _ _ Hb). by rewrite Hpc in H5.
  - specialize (N3 _ _ Hb). by rewrite Hpc in N3.
  - specialize (N3 _ _ Hb). by rewrite Hpc in N3.
  - specialize (N3 _ _ Hb). by rewrite Hpc in N3.
  - specialize (H5 _ _ Hb). by rewrite Hpc in H5.
  - specialize (N3 _ _ Hb). by rewrite Hpc in N3.
  - (* the cancellation is rethrown *)
    unfold rejectTask, settleRun. simpl. rewrite H3.
    destruct (H6 _ _ Ht) as [E|E]; rewrite Hst in E; [|done]. injection E as ->.
    split; [|repeat split; try done]; simpl.
    + by eapply NoCapture_frame; [..|exact (conj N1 (conj N2 (conj N3 N4)))].
    + intros i task' Hi.
      apply lookup_alter_Some in Hi as [(-> & x & Hx & ->)|(_ & Hx)]; simpl; [by right|eauto].
  - destruct (H6 _ _ Ht) as [E|E]; rewrite Hst in E; [|done]. injection E as ->.
    unfold catchDecision in Hdec. by rewrite Hclass in Hdec.
  - destruct (H6 _ _ Ht) as [E|E]; rewrite Hst in E; [|done]. injection E as ->.
    unfold catchDecision in Hdec. by rewrite Hclass in Hdec.
  - destruct (H6 _ _ Ht) as [E|E]; rewrite Hst in E; [|done]. injection E as ->.
    unfold catchDecision in Hdec. by rewrite Hclass in Hdec.
  - destruct (H6 _ _ Ht) as [E|E]; rewrite Hst in E; [|done]. injection E as ->.
    unfold catchDecision in Hdec. by rewrite Hclass in Hdec.
  - congruence.
  - congruence.
  - congruence.
Qed.

Lemma CancelledEarly_step (ev : Event) (s : State) :
  isUserCancelledRender cancelErr = true ->
  CancelledEarly s -> CancelledEarly (step ev s).
Proof. intros Hc H. by apply CancelledEarly_joinTasks, CancelledEarly_dispatch. Qed.

Lemma CancelledEarly_initial :
  cancelSignal opts = true -> CancelledEarly (initialState true).
Proof.
  intros Hsig. apply CancelledEarly_joinTasks.
  split; [|repeat split]; simpl; rewrite ?Hsig; simpl; try done.
  - repeat split; simpl; try done.
    intros b body Hb. by apply list_lookup_imap_Some in Hb as (x & _ & ->).
  - intros b body Hb. by apply list_lookup_imap_Some in Hb as (x & _ & ->).
  - intros i task Hi. apply list_lookup_imap_Some in Hi as (x & _ & ->). by left.
Qed.

(** No attempt has run past line 285 yet. *)
Definition beforeSeek (pc : BodyPc) : bool :=
  match pc with
  | BAwaitPool | BAwaitAcquire | BHolding _ => true
  | _ => false
  end.

Definition noAttemptStarted (s : State) : bool :=
  forallb (fun body => beforeSeek (b_pc body)) (bodies _ s).

(** [evs] happen while no attempt has run past its acquisition. *)
Fixpoint quietRun (evs : list Event) (s : State) : bool :=
  noAttemptStarted s &&
  match evs with
  | [] => true
  | ev :: evs' => quietRun evs' (step ev s)
  end.

(** Nothing has happened yet but pool creation and acquisitions. *)
Definition Fresh (s : State) : Prop :=
  NoCapture s
  /\ stopped _ s = false
  /\ result _ s = None
  /\ replacing _ s = false
  /\ tasks _ s <> []
  /\ (forall i task, tasks _ s !! i = Some task -> exists b, t_status task = TRacing b)
  /\ (forall b body, bodies _ s !! b = Some body -> seeking (b_pc body) = false)
  /\ Forall (fun o => seekObs o = false) (trace _ s).

Lemma Fresh_not_all_fulfilled (s : State) :
  Fresh s -> forallb (isFulfilled) (tasks _ s) = false.
Proof.
  intros (_ & _ & _ & _ & Hne & Ht & _).
  destruct (tasks _ s) as [|task l] eqn:E; [done|].
  destruct (Ht 0%nat task) as [b Hb]; [done|].
  simpl. unfold isFulfilled at 1. by rewrite Hb.
Qed.

Lemma Fresh_joinTasks (s : State) : Fresh s -> joinTasks _ s = s.
Proof. intros H. unfold joinTasks. by rewrite Fresh_not_all_fulfilled. Qed.

Lemma noAttemptStarted_false (s : State) (b : nat) (body : Body) :
  bodies _ s !! b = Some body -> beforeSeek (b_pc body) = false -> noAttemptStarted s = false.
Proof.
  intros Hb Hpc. unfold noAttemptStarted. apply not_true_is_false. intros Hall.
  rewrite forallb_forall in Hall.
  assert (Hin : In body (bodies _ s)) by (apply list_elem_of_In, list_elem_of_lookup; eauto).
  specialize (Hall _ Hin). simpl in Hall. congruence.
Qed.

Lemma noAttemptStarted_joinTasks (s : State) :
  noAttemptStarted (joinTasks _ s) = noAttemptStarted s.
Proof. unfold joinTasks, settleRun. by repeat case_match. Qed.

Lemma noAttemptStarted_settle (b index : nat) (r : Outcome) (s : State) :
  noAttemptStarted (settle _ b index r s) = noAttemptStarted s.
Proof. unfold settle. by repeat case_match. Qed.

Lemma Fresh_pcs (b : nat) (pc : BodyPc) (obs : list Obs) (pl : Pool.t) (s : State) :
  seeking pc = false -> capturing pc = false ->
  Forall (fun o => captureObs o = false /\ seekObs o = false) obs ->
  Fresh s ->
  Fresh
    (mkState _ (poolPromise _ s) pl (nextPage _ s) (assets _ s) (framesRendered _ s)
       (stopped _ s) (alter (withPc pc) b (bodies _ s)) (tasks _ s) (replacing _ s)
       (refills _ s) (result _ s) (obs ++ trace _ s)).
Proof.
  intros Hs Hc Hobs ((N1 & N2 & N3 & N4) & H2 & H3 & H4 & H5 & H6 & H7 & H8).
  split; [|repeat split; try done]; simpl.
  - repeat split; try done; simpl.
    + intros b' body Hb'.
      apply lookup_alter_Some in Hb' as [(-> & x & Hx & ->)|(_ & Hx)]; simpl; eauto.
    + apply Forall_app. split; [|done]. eapply Forall_impl; [exact Hobs|]. by intros o [? ?].
  - intros b' body Hb'.
    apply lookup_alter_Some in Hb' as [(-> & x & Hx & ->)|(_ & Hx)]; simpl; eauto.
  - apply Forall_app. split; [|done]. eapply Forall_impl; [exact Hobs|]. by intros o [? ?].
Qed.

Lemma Fresh_dispatch (ev : Event) (s : State) :
  cancelSignal opts = true ->
  Fresh s -> noAttemptStarted (dispatch ev s) = true ->
  Fresh (dispatch ev s) \/ CancelledEarly (dispatch ev s).
Proof.
  intros Hsig H.
  pose proof H as ((N1 & N2 & N3 & N4) & H2 & H3 & H4 & H5 & H6 & H7 & H8).
  dispatch_cases ev s; intros Hquiet; try (left; exact H).
  - (* the cancel signal fires *)
    right. unfold settleRun. simpl. rewrite H3.
    split; [by eapply NoCapture_frame; [..|exact (conj N1 (conj N2 (conj N3 N4)))]|].
    repeat split; try done; simpl.
    intros i task Hi. apply fmap_cancelTask_lookup in Hi as (task0 & Hi & ->).
    destruct (H6 _ _ Hi) as [b Hb]. unfold cancelTask. rewrite Hb. by left.
  - left. apply (Fresh_pcs b BAwaitAcquire [] _ s); try done.
  - left. apply (Fresh_pcs b (BHolding page) [OAcquire b page] _ s); try done.
    by repeat constructor.
  - unfold throwFrom in Hquiet. rewrite noAttemptStarted_settle in Hquiet.
    erewrite noAttemptStarted_false in Hquiet; [done| |]; simpl.
    + by rewrite list_lookup_alter_eq, Hb.
    + done.
  - congruence.
  - erewrite noAttemptStarted_false in Hquiet; [done| |]; simpl.
    + by rewrite list_lookup_alter_eq, Hb.
    + done.
  - specialize (H7 _ _ Hb). by rewrite Hpc in H7.
  - specialize (H7 _ _ Hb). by rewrite Hpc in H7.
  - specialize (H7 _ _ Hb). by rewrite Hpc in H7.
  - specialize (H7 _ _ Hb). by rewrite Hpc in H7.
  - specialize (N3 _ _ Hb). by rewrite Hpc in N3.
  - specialize (N3 _ _ Hb). by rewrite Hpc in N3.
  - specialize (N3 _ _ Hb). by rewrite Hpc in N3.
  - specialize (H7 _ _ Hb). by rewrite Hpc in H7.
  - specialize (N3 _ _ Hb). by rewrite Hpc in N3.
  - destruct (H6 _ _ Ht) as [b Hb]. congruence.
  - destruct (H6 _ _ Ht) as [b Hb]. congruence.
  - destruct (H6 _ _ Ht) as [b Hb]. congruence.
  - destruct (H6 _ _ Ht) as [b Hb]. congruence.
  - destruct (H6 _ _ Ht) as [b Hb]. congruence.
  - congruence.
  - congruence.
  - congruence.
Qed.

Lemma Fresh_initial : frames <> [] -> Fresh (initialState false).
Proof.
  intros Hne.
  assert (H : Fresh (mkState _ PoolPending (Pool.create []) 0%nat
                       (replicate (length frames) None) 0%nat
                       false (imap (fun index frame => mkBody index frame BAwaitPool) frames)
                       (imap (fun index frame =>
                                mkTask frame index MAX_RETRIES_PER_FRAME 1 (TRacing index)) frames)
                       false 0%nat None [])).
  { split; [|repeat split]; simpl; try done.
    - repeat split; simpl; try done.
      intros b body Hb. by apply list_lookup_imap_Some in Hb as (x & _ & ->).
    - destruct frames; [done|]. done.
    - intros i task Hi. apply list_lookup_imap_Some in Hi as (x & _ & ->). by eexists.
    - intros b body Hb. by apply list_lookup_imap_Some in Hb as (x & _ & ->). }
  change (initialState false) with (joinTasks TAsset
    (mkState TAsset PoolPending (Pool.create []) 0%nat (replicate (length frames) None) 0%nat
       (cancelSignal opts && false)
       (imap (fun index frame => mkBody index frame BAwaitPool) frames)
       (imap (fun index frame =>
                mkTask frame index MAX_RETRIES_PER_FRAME 1
                  (if cancelSignal opts && false then TCaught cancelErr else TRacing index))
             frames)
       false 0%nat (if cancelSignal opts && false then Some (Rejected cancelErr) else None) [])).
  rewrite andb_false_r. by rewrite (Fresh_joinTasks _ H).
Qed.

Lemma quiet_run_fresh (evs : list Event) (s : State) :
  cancelSignal opts = true -> isUserCancelledRender cancelErr = true ->
  quietRun evs s = true ->
  Fresh s \/ CancelledEarly s ->
  Fresh (run evs s) \/ CancelledEarly (run evs s).
Proof.
  intros Hsig Hclass. revert s. induction evs as [|ev evs IH]; intros s Hq H; [done|].
  simpl in Hq. apply andb_prop in Hq as [_ Hq]. simpl. apply IH; [done|].
  destruct H as [H|H].
  - assert (Hq' : noAttemptStarted (step ev s) = true).
    { destruct evs; simpl in Hq; by apply andb_prop in Hq as [? _]. }
    rewrite step_eq in *. rewrite noAttemptStarted_joinTasks in Hq'.
    destruct (Fresh_dispatch ev s Hsig H Hq') as [H'|H'].
    + left. by rewrite (Fresh_joinTasks _ H').
    + right. by apply CancelledEarly_joinTasks.
  - right. by apply CancelledEarly_step.
Qed.

Lemma run_CancelledEarly (evs : list Event) (s : State) :
  isUserCancelledRender cancelErr = true ->
  CancelledEarly s -> CancelledEarly (run evs s).
Proof. intros Hc. apply run_invariant. intros ev s'. by apply CancelledEarly_step. Qed.

(** *** What one event can change *)

Definition isRelease (o : Obs) : bool :=
  match o with
  | ORelease _ _ => true
  | _ => false
  end.

(** The releases among the observations, newest first. *)
Definition releases (tr : list Obs) : list Obs := List.filter isRelease tr.

Definition isWrite (o : Obs) : bool :=
  match o with
  | OWrite _ _ => true
  | _ => false
  end.

(** The slot writes among the observations, newest first. *)
Definition writes (tr : list Obs) : list Obs := List.filter isWrite tr.

(** The event records the frame of attempt [b], captured on [page]:
    [takeFrameAndCompose] resolved, with a buffer when one is wanted. *)
Definition recordsFrame (s : State) (ev : Event) (b : nat) (body : Body) (page : Page)
    (collected : list TAsset) : Prop :=
  exists hasBuffer,
    ev = EvCaptureDone _ b (Captured _ hasBuffer collected)
    /\ bodies _ s !! b = Some body
    /\ b_pc body = BCapturing page
    /\ onFrameBuffer opts && negb hasBuffer = false.

Lemma settle_fields (b index : nat) (r : Outcome) (s : State) :
  assets _ (settle _ b index r s) = assets _ s
  /\ trace _ (settle _ b index r s) = trace _ s
  /\ bodies _ (settle _ b index r s) = bodies _ s
  /\ pool _ (settle _ b index r s) = pool _ s
  /\ replacing _ (settle _ b index r s) = replacing _ s
  /\ refills _ (settle _ b index r s) = refills _ s.
Proof. unfold settle. by repeat case_match. Qed.

Lemma settleRun_fields (r : Outcome) (s : State) :
  assets _ (settleRun _ r s) = assets _ s
  /\ trace _ (settleRun _ r s) = trace _ s
  /\ bodies _ (settleRun _ r s) = bodies _ s
  /\ pool _ (settleRun _ r s) = pool _ s
  /\ replacing _ (settleRun _ r s) = replacing _ s
  /\ refills _ (settleRun _ r s) = refills _ s
  /\ tasks _ (settleRun _ r s) = tasks _ s
  /\ stopped _ (settleRun _ r s) = stopped _ s.
Proof. unfold settleRun. by repeat case_match. Qed.

Lemma joinTasks_fields (s : State) :
  assets _ (joinTasks _ s) = assets _ s
  /\ trace _ (joinTasks _ s) = trace _ s
  /\ bodies _ (joinTasks _ s) = bodies _ s
  /\ pool _ (joinTasks _ s) = pool _ s
  /\ replacing _ (joinTasks _ s) = replacing _ s
  /\ refills _ (joinTasks _ s) = refills _ s
  /\ tasks _ (joinTasks _ s) = tasks _ s
  /\ stopped _ (joinTasks _ s) = stopped _ s.
Proof. unfold joinTasks. destruct (forallb _ _); [apply settleRun_fields|done]. Qed.

(** What the asset array and the releases look like after an operation,
    relative to a reference state. *)
Definition SameRecord (s0 s : State) : Prop :=
  assets _ s = assets _ s0
  /\ releases (trace _ s) = releases (trace _ s0)
  /\ writes (trace _ s) = writes (trace _ s0).

Lemma SameRecord_settle (s0 : State) (b index : nat) (r : Outcome) (s : State) :
  SameRecord s0 s -> SameRecord s0 (settle _ b index r s).
Proof.
  destruct (settle_fields b index r s) as (Ha & Ht & _). unfold SameRecord. by rewrite Ha, Ht.
Qed.

Lemma SameRecord_settleRun (s0 : State) (r : Outcome) (s : State) :
  SameRecord s0 s -> SameRecord s0 (settleRun _ r s).
Proof.
  destruct (settleRun_fields r s) as (Ha & Ht & _). unfold SameRecord. by rewrite Ha, Ht.
Qed.

Lemma SameRecord_releaseToPool (s0 : State) (page : Page) (s : State) :
  SameRecord s0 s -> SameRecord s0 (releaseToPool _ page s).
Proof. unfold releaseToPool. by destruct (Pool.release _ _) as [pool' [w|]]. Qed.

Lemma SameRecord_retryTask (s0 : State) (t : nat) (s : State) :
  SameRecord s0 s -> SameRecord s0 (retryTask _ cancelMessage t s).
Proof. unfold retryTask. by repeat case_match. Qed.

Lemma SameRecord_failReplacingTask (s0 : State) (e : Error) (t : nat) (s : State) :
  SameRecord s0 s -> SameRecord s0 (failReplacingTask _ e t s).
Proof.
  unfold failReplacingTask, rejectTask. intros H. repeat case_match; try done.
  by apply SameRecord_settleRun.
Qed.

(** Only the event that records a frame writes an asset slot or releases
    a page. *)
Lemma record_dispatch (ev : Event) (s : State) :
  SameRecord s (dispatch ev s)
  \/ exists b body page collected,
       recordsFrame s ev b body page collected
       /\ assets _ (dispatch ev s)
          = arraySet (b_index body)
              (map (compressAsset (concat (omap id (assets _ s)))) collected) (assets _ s)
       /\ releases (trace _ (dispatch ev s)) = ORelease b page :: releases (trace _ s)
       /\ writes (trace _ (dispatch ev s)) = OWrite b (b_index body) :: writes (trace _ s)
       /\ bodies _ (dispatch ev s) !! b = Some (withPc (BFinished None) body).
Proof.
  assert (H : SameRecord s s) by done.
  dispatch_cases ev s; try (left; exact H);
    lazymatch goal with
    | |- SameRecord _ (throwFrom _ _ _ _ _) \/ _ =>
        left; unfold throwFrom; by apply SameRecord_settle
    | _ => idtac
    end.
  - left. by apply SameRecord_settleRun.
  - left. by apply SameRecord_settle.
  - (* the frame is recorded *)
    right. exists b, body, page, collected. split; [by exists hasBuffer|].
    match goal with |- context [settle _ ?b0 ?i0 ?r0 ?s0] =>
      destruct (settle_fields b0 i0 r0 s0) as (-> & -> & -> & _) end.
    unfold releaseToPool, Pool.release.
    destruct (Pool.waiters _) as [|w ws]; destruct (onFrameBuffer opts); simpl;
      rewrite ?list_lookup_alter_eq; simpl;
      try (destruct (decide (w = b)) as [->|Hwb];
           [rewrite list_lookup_alter_eq|rewrite list_lookup_alter_ne by done]);
      rewrite ?Hb; done.
  - left. by apply SameRecord_settle.
  - left. by apply SameRecord_settle.
  - left. by apply SameRecord_settleRun.
  - left. by apply SameRecord_settleRun.
  - left. apply foldl_invariant; [intros; by apply SameRecord_retryTask|].
    unfold refillPool. unfold SameRecord. simpl.
    apply (foldl_invariant (SameRecord s)); [intros; by apply SameRecord_releaseToPool|done].
  - left. apply foldl_invariant; [intros; by apply SameRecord_failReplacingTask|done].
  - left. apply foldl_invariant; [intros; by apply SameRecord_failReplacingTask|done].
Qed.

(** *** Attempts that end *)

Lemma bodies_settle (b index : nat) (r : Outcome) (s : State) :
  bodies _ (settle _ b index r s) = bodies _ s.
Proof. apply settle_fields. Qed.

Lemma bodies_settleRun (r : Outcome) (s : State) :
  bodies _ (settleRun _ r s) = bodies _ s.
Proof. apply settleRun_fields. Qed.

Lemma bodies_joinTasks (s : State) : bodies _ (joinTasks _ s) = bodies _ s.
Proof. apply joinTasks_fields. Qed.

Lemma pool_joinTasks (s : State) : pool _ (joinTasks _ s) = pool _ s.
Proof. apply joinTasks_fields. Qed.

Lemma trace_joinTasks (s : State) : trace _ (joinTasks _ s) = trace _ s.
Proof. apply joinTasks_fields. Qed.

Lemma assets_joinTasks (s : State) : assets _ (joinTasks _ s) = assets _ s.
Proof. apply joinTasks_fields. Qed.

Lemma tasks_joinTasks (s : State) : tasks _ (joinTasks _ s) = tasks _ s.
Proof. apply joinTasks_fields. Qed.

Definition finished (pc : BodyPc) : bool :=
  match pc with
  | BFinished _ => true
  | _ => false
  end.

Lemma releaseToPool_keeps_finished (page : Page) (b : nat) (body : Body) (s : State) :
  WaitInv s -> finished (b_pc body) = true ->
  bodies _ s !! b = Some body -> bodies _ (releaseToPool _ page s) !! b = Some body.
Proof.
  intros [_ Hw] Hfin Hb. unfold releaseToPool, Pool.release.
  destruct (Pool.waiters (pool _ s)) as [|w ws] eqn:E; simpl; [done|].
  rewrite list_lookup_alter_ne; [done|]. intros ->.
  destruct (Hw b) as (body' & Hb' & Hpc'); [rewrite ?E; by left|].
  simplify_eq. by rewrite Hpc' in Hfin.
Qed.

Lemma retryTask_keeps (t b : nat) (body : Body) (s : State) :
  bodies _ s !! b = Some body -> bodies _ (retryTask _ cancelMessage t s) !! b = Some body.
Proof.
  intros Hb. unfold retryTask. repeat case_match; try done; simpl; by apply lookup_app_l_Some.
Qed.

Lemma failReplacingTask_bodies (e : Error) (t : nat) (s : State) :
  bodies _ (failReplacingTask _ e t s) = bodies _ s.
Proof.
  unfold failReplacingTask, rejectTask. repeat case_match; try done.
  by rewrite bodies_settleRun.
Qed.

(** An attempt that has ended is never touched again. *)
Lemma finished_stable (ev : Event) (b0 : nat) (body0 : Body) (s : State) :
  WaitInv s -> finished (b_pc body0) = true ->
  bodies _ s !! b0 = Some body0 -> bodies _ (step ev s) !! b0 = Some body0.
Proof.
  intros HW Hfin Hbody. rewrite step_eq, bodies_joinTasks.
  assert (Hne : forall b' body', bodies _ s !! b' = Some body' ->
                  finished (b_pc body') = false -> b' <> b0).
  { intros b' body' Hb' Hpc' ->. simplify_eq. congruence. }
  dispatch_cases ev s; try exact Hbody;
    unfold throwFrom, pageError, rejectTask;
    rewrite ?bodies_settle, ?bodies_settleRun; simpl;
    try exact Hbody;
    try (rewrite list_lookup_alter_ne; [done|]; eapply Hne; [done|by rewrite Hpc]).
  - (* the frame is recorded *)
    rewrite list_lookup_alter_ne by (eapply Hne; [done|by rewrite Hpc]).
    apply releaseToPool_keeps_finished; [|done|].
    + destruct (onFrameBuffer opts); by eapply WaitInv_frame; [..|exact HW].
    + by destruct (onFrameBuffer opts).
  - apply (foldl_invariant (fun x => bodies _ x !! b0 = Some body0));
      [intros; by apply retryTask_keeps|].
    unfold refillPool. simpl.
    apply (foldl_invariant (fun x => WaitInv x /\ bodies _ x !! b0 = Some body0)).
    + intros x page [Hx1 Hx2]. split; [by apply WaitInv_releaseToPool|].
      by apply releaseToPool_keeps_finished.
    + split; [by eapply WaitInv_frame; [..|exact HW]|done].
  - apply (foldl_invariant (fun x => bodies _ x !! b0 = Some body0)); [|done].
    intros x t Hx. by rewrite failReplacingTask_bodies.
  - apply (foldl_invariant (fun x => bodies _ x !! b0 = Some body0)); [|done].
    intros x t Hx. by rewrite failReplacingTask_bodies.
Qed.

(** The ways an attempt standing at [pc] fails on event [ev]: the run was
    stopped when it got its page, the seek or the capture was rejected, the
    output modes conflict, or the wanted buffer is missing. *)
Definition failsAttempt (s : State) (b : nat) (pc : BodyPc) (ev : Event) : Prop :=
  match pc, ev with
  | BHolding _, EvResume _ b' => b' = b /\ stopped _ s = true
  | BSeeking _, EvSeekDone _ b' (Rejected _) => b' = b
  | BSeeking _, EvSeekDone _ b' Fulfilled => b' = b /\ outputModeError opts <> None
  | BCapturing _, EvCaptureDone _ b' (CaptureFailed _ _) => b' = b
  | BCapturing _, EvCaptureDone _ b' (Captured _ hasBuffer _) =>
      b' = b /\ onFrameBuffer opts && negb hasBuffer = true
  | _, _ => False
  end.

Lemma throwFrom_keeps_page (b : nat) (body : Body) (e : Error) (page : Page) (s : State) :
  bodies _ s !! b = Some body -> heldPage (b_pc body) = Some page ->
  bodies _ (throwFrom _ b body e s) !! b = Some (withPc (BFinished (Some page)) body)
  /\ pool _ (throwFrom _ b body e s) = pool _ s
  /\ releases (trace _ (throwFrom _ b body e s)) = releases (trace _ s).
Proof.
  intros Hb Hh. unfold throwFrom.
  match goal with |- context [settle _ ?b0 ?i0 ?r0 ?s0] =>
    destruct (settle_fields b0 i0 r0 s0) as (_ & -> & -> & -> & _) end.
  simpl. rewrite list_lookup_alter_eq, Hb, Hh. done.
Qed.

Lemma failing_attempt_keeps_page (ev : Event) (b : nat) (body : Body) (page : Page) (s : State) :
  bodies _ s !! b = Some body -> heldPage (b_pc body) = Some page ->
  failsAttempt s b (b_pc body) ev ->
  bodies _ (step ev s) !! b = Some (withPc (BFinished (Some page)) body)
  /\ pool _ (step ev s) = pool _ s
  /\ releases (trace _ (step ev s)) = releases (trace _ s).
Proof.
  intros Hb Hh Hfail. rewrite step_eq, bodies_joinTasks, pool_joinTasks, trace_joinTasks.
  destruct (b_pc body) as [| |p|p|p|k] eqn:Hpc; simpl in Hh; try done;
    injection Hh as ->.
  - destruct ev; try done. destruct Hfail as [-> Hstop]. simpl.
    unfold resume. rewrite Hb, Hpc. unfold resumeHolding. rewrite Hstop.
    match goal with |- context [settle _ ?b0 ?i0 ?r0 ?s0] =>
      destruct (settle_fields b0 i0 r0 s0) as (_ & -> & -> & -> & _) end.
    simpl. by rewrite list_lookup_alter_eq, Hb.
  - destruct ev as [| | | |b' r| | | | |]; try done. simpl. unfold seekDone.
    destruct r as [|e].
    + destruct Hfail as [-> Hmode]. rewrite Hb, Hpc.
      destruct (outputModeError opts) as [e|] eqn:He; [|done].
      rewrite (afterSeek_outputModeError e) by done.
      apply throwFrom_keeps_page; [done|by rewrite Hpc].
    + simpl in Hfail. subst b'. rewrite Hb, Hpc. simpl. apply throwFrom_keeps_page; [done|by rewrite Hpc].
  - destruct ev as [| | | | |b' r| | | |]; try done. simpl. unfold captureDone.
    destruct r as [hasBuffer collected|e].
    + destruct Hfail as [-> Hnull]. rewrite Hb, Hpc. simpl. rewrite Hnull.
      apply throwFrom_keeps_page; [done|by rewrite Hpc].
    + simpl in Hfail. subst b'. rewrite Hb, Hpc. simpl. apply throwFrom_keeps_page; [done|by rewrite Hpc].
Qed.

(** A page error settles the promise and leaves the attempt running. *)
Lemma page_error_keeps_running (b : nat) (e : Error) (s : State) :
  bodies _ (step (EvPageError _ b e) s) = bodies _ s
  /\ pool _ (step (EvPageError _ b e) s) = pool _ s
  /\ releases (trace _ (step (EvPageError _ b e) s)) = releases (trace _ s).
Proof.
  rewrite step_eq, bodies_joinTasks, pool_joinTasks, trace_joinTasks. simpl.
  unfold pageErrored. destruct (bodies _ s !! b) as [body|]; [|done].
  destruct (b_pc body); try done; unfold pageError;
    match goal with |- context [settle _ ?b0 ?i0 ?r0 ?s0] =>
      destruct (settle_fields b0 i0 r0 s0) as (_ & -> & -> & -> & _) end; done.
Qed.

Lemma reachable_run (evs : list Event) (s : State) : reachable s -> reachable (run evs s).
Proof.
  intros (cancelled & evs0 & ->). exists cancelled, (evs0 ++ evs). by rewrite run_app.
Qed.

(** A page an attempt kept when it ended stays marked busy and is never
    idle again. *)
Lemma kept_page_never_returns (evs : list Event) (b : nat) (body : Body) (page : Page)
    (s : State) :
  reachable s -> bodies _ s !! b = Some body -> b_pc body = BFinished (Some page) ->
  bodies _ (run evs s) !! b = Some body
  /\ page ∈ Pool.busy (pool _ (run evs s))
  /\ page ∉ Pool.resources (pool _ (run evs s)).
Proof.
  intros Hr Hb Hpc.
  assert (Hkeep : bodies _ (run evs s) !! b = Some body).
  { revert s Hr Hb. induction evs as [|ev evs IH]; intros s Hr Hb; [done|].
    simpl. apply IH; [by apply reachable_step|].
    apply finished_stable; [by apply WaitInv_reachable|by rewrite Hpc|done]. }
  split; [done|].
  destruct (PoolInv_reachable _ (reachable_run evs s Hr)) as [(_ & _ & _ & H4 & _) _].
  apply (H4 b body page Hkeep). unfold holdsPage. by rewrite Hpc.
Qed.

(** *** Slot writes *)


Lemma writes_inv (o : Obs) (tr : list Obs) :
  In o (writes tr) -> exists b index, o = OWrite b index.
Proof.
  unfold writes. rewrite filter_In. intros [_ H]. destruct o; try discriminate H. eauto.
Qed.


Lemma trace_initial (cancelled : bool) : trace _ (initialState cancelled) = [].
Proof.
  lazymatch goal with
  | |- context [?f TAsset cancelMessage opts frames cancelled] => unfold f
  end.
  by rewrite trace_joinTasks.
Qed.


(** *** Browser replacement *)

Local Abbreviation crash := (crashClass isUserCancelledRender isTargetClosedErr).

Definition isReplaceBrowser (o : Obs) : bool :=
  match o with
  | OReplaceBrowser _ => true
  | _ => false
  end.

Definition isRefill (o : Obs) : bool :=
  match o with
  | ORefill _ => true
  | _ => false
  end.

(** How many replacement cycles were started, and how often the pool was
    refilled. *)
Definition replacementCycles (tr : list Obs) : nat := length (List.filter isReplaceBrowser tr).
Definition refillCount (tr : list Obs) : nat := length (List.filter isRefill tr).

(** Task [t] runs a new attempt of the frame of [task], with one retry
    fewer; the attempt stands at line 284. *)
Definition retried (task : Task) (t : nat) (s : State) : Prop :=
  exists b,
    tasks _ s !! t
    = Some (mkTask (t_frame task) (t_index task) (t_retriesLeft task - 1)
              (t_attempt task + 1) (TRacing b))
    /\ bodies _ s !! b = Some (mkBody (t_index task) (t_frame task) BAwaitPool).

Lemma not_all_fulfilled (l : list Task) (i : nat) (task : Task) :
  l !! i = Some task -> isFulfilled task = false -> forallb isFulfilled l = false.
Proof.
  revert i. induction l as [|x l IH]; intros [|i] Hi Hf; simpl in *; try done.
  - injection Hi as ->. by rewrite Hf.
  - rewrite (IH i Hi Hf). apply andb_false_r.
Qed.

Lemma joinTasks_unsettled (s : State) (i : nat) (task : Task) :
  tasks _ s !! i = Some task -> isFulfilled task = false -> joinTasks _ s = s.
Proof. intros Hi Hf. unfold joinTasks. by rewrite (not_all_fulfilled _ _ _ Hi Hf). Qed.

(** A task that catches a crash-class error with retries left waits for a
    replacement; it starts one only when none is under way. *)
Lemma catch_crash_waits (t : nat) (task : Task) (e : Error) (s : State) :
  tasks _ s !! t = Some task -> t_status task = TCaught e -> crash e ->
  stopped _ s = false -> t_retriesLeft task <> 0%nat ->
  let s' := step (EvCatch _ t) s in
  tasks _ s' = alter (withStatus TReplacing) t (tasks _ s)
  /\ replacing _ s' = true
  /\ replacementCycles (trace _ s')
     = (replacementCycles (trace _ s) + (if replacing _ s then 0 else 1))%nat
  /\ refillCount (trace _ s') = refillCount (trace _ s)
  /\ refills _ s' = refills _ s
  /\ pool _ s' = pool _ s
  /\ bodies _ s' = bodies _ s
  /\ poolPromise _ s' = poolPromise _ s
  /\ stopped _ s' = stopped _ s.
Proof.
  intros Ht Hst Hcrash Hstop Hretries. cbv zeta. rewrite step_eq. simpl.
  unfold catch. rewrite Ht, Hst. unfold catchBlock.
  rewrite Hstop, (catchDecision_crash _ _ e Hcrash).
  destruct (t_retriesLeft task) as [|r] eqn:Hr; [done|].
  unfold callReplaceBrowser. cbn [replacing emit].
  destruct (replacing _ s) eqn:Hrep;
    rewrite (joinTasks_unsettled _ t (withStatus TReplacing task)); simpl;
    rewrite ?list_lookup_alter_eq, ?Ht, ?Hrep; try done.
  all: unfold replacementCycles, refillCount; simpl; repeat split; first [done | lia].
Qed.

Lemma retryTask_cases (t : nat) (s : State) :
  (exists task, tasks _ s !! t = Some task /\ t_status task = TReplacing
     /\ retryTask _ cancelMessage t s
        = setTasks _
            (<[t := mkTask (t_frame task) (t_index task) (t_retriesLeft task - 1)
                      (t_attempt task + 1)
                      (if stopped _ s then TCaught cancelErr
                       else TRacing (length (bodies _ s)))]> (tasks _ s))
            (setBodies _ (bodies _ s ++ [mkBody (t_index task) (t_frame task) BAwaitPool]) s))
  \/ (retryTask _ cancelMessage t s = s
      /\ forall task, tasks _ s !! t = Some task -> t_status task <> TReplacing).
Proof.
  unfold retryTask. destruct (tasks _ s !! t) as [task|] eqn:Ht; [|by right].
  destruct (t_status task) eqn:Hst; try (right; split; [done|]; intros ? [= <-]; congruence).
  left. by exists task.
Qed.

(** Every task waiting for the replacement, and no other, is retried. *)
Lemma retry_fold (ids : list nat) (s : State) :
  NoDup ids -> stopped _ s = false ->
  let s' := foldl (fun acc t => retryTask _ cancelMessage t acc) s ids in
  (forall t task, t ∈ ids -> tasks _ s !! t = Some task -> t_status task = TReplacing ->
     retried task t s')
  /\ (forall t task, tasks _ s !! t = Some task -> t ∉ ids \/ t_status task <> TReplacing ->
        tasks _ s' !! t = Some task)
  /\ (forall b body, bodies _ s !! b = Some body -> bodies _ s' !! b = Some body)
  /\ trace _ s' = trace _ s
  /\ refills _ s' = refills _ s
  /\ replacing _ s' = replacing _ s
  /\ pool _ s' = pool _ s
  /\ poolPromise _ s' = poolPromise _ s.
Proof.
  revert s. induction ids as [|t0 ids IH]; intros s Hnd Hstop; simpl.
  - split; [|done]. intros t task Hin. by apply elem_of_nil in Hin.
  - apply NoDup_cons in Hnd as [Hnotin Hnd].
    destruct (retryTask_cases t0 s) as [(task0 & Ht0 & Hst0 & Heq)|[Heq Hno]].
    + rewrite Hstop in Heq.
      assert (Hstop1 : stopped _ (retryTask _ cancelMessage t0 s) = false) by by rewrite Heq.
      destruct (IH _ Hnd Hstop1) as (H1 & H2 & H3 & H4 & H5 & H6 & H7 & H8).
      rewrite H4, H5, H6, H7, H8, Heq. clear H4 H5 H6 H7 H8.
      rewrite Heq in H1, H2, H3. simpl in H1, H2, H3.
      split; [|split; [|split; [|done]]].
      * intros t task Hin Ht Hst. apply elem_of_cons in Hin as [->|Hin].
        -- assert (task = task0) as -> by congruence.
           exists (length (bodies _ s)). split.
           ++ apply H2; [|by left].
              apply list_lookup_insert_Some. left. split; [done|]. split; [done|].
              by apply lookup_lt_Some in Ht0.
           ++ apply H3. by rewrite lookup_app_r, Nat.sub_diag by lia.
        -- apply H1; [done| |done].
           rewrite list_lookup_insert_ne; [done|]. intros ->. done.
      * intros t task Ht Hor. apply H2.
        -- rewrite list_lookup_insert_ne; [done|]. intros ->.
           destruct Hor as [Hor|Hor]; [apply Hor; by left|].
           assert (task = task0) as -> by congruence. done.
        -- destruct Hor as [Hor|Hor]; [left|by right]. intros Hin. apply Hor. by right.
      * intros b body Hb. apply H3. by apply lookup_app_l_Some.
    + rewrite Heq. destruct (IH _ Hnd Hstop) as (H1 & H2 & H3 & H4).
      split; [|split; [|done]].
      * intros t task Hin Ht Hst. apply elem_of_cons in Hin as [->|Hin]; [|by apply H1].
        by destruct (Hno _ Ht).
      * intros t task Ht Hor. apply H2; [done|].
        destruct Hor as [Hor|Hor]; [left|by right]. intros Hin. apply Hor. by right.
Qed.

(** What a refill leaves alone. *)
Definition SameTasks (s0 s : State) : Prop :=
  tasks _ s = tasks _ s0
  /\ stopped _ s = stopped _ s0
  /\ replacing _ s = replacing _ s0
  /\ replacementCycles (trace _ s) = replacementCycles (trace _ s0)
  /\ refillCount (trace _ s) = refillCount (trace _ s0).

Lemma SameTasks_releaseToPool (s0 : State) (page : Page) (s : State) :
  SameTasks s0 s -> SameTasks s0 (releaseToPool _ page s).
Proof. unfold releaseToPool. by destruct (Pool.release _ _) as [pool' [w|]]. Qed.

Lemma refillPool_fields (s : State) :
  tasks _ (refillPool _ opts s) = tasks _ s
  /\ stopped _ (refillPool _ opts s) = stopped _ s
  /\ replacing _ (refillPool _ opts s) = replacing _ s
  /\ replacementCycles (trace _ (refillPool _ opts s)) = replacementCycles (trace _ s)
  /\ refillCount (trace _ (refillPool _ opts s)) = S (refillCount (trace _ s))
  /\ refills _ (refillPool _ opts s) = S (refills _ s).
Proof.
  unfold refillPool.
  set (s1 := emit _ _ (setNextPage _ _ s)).
  assert (H : SameTasks s1 (foldl (fun acc page => releaseToPool _ page acc) s1
                              (seq (nextPage _ s) (actualConcurrency opts)))).
  { apply foldl_invariant; [intros; by apply SameTasks_releaseToPool|done]. }
  destruct H as (H1 & H2 & H3 & H4 & H5). simpl. by rewrite H1, H2, H3, H4, H5.
Qed.

(** *** Whose frame an attempt renders *)

(** Task [i] renders the [i]-th planned frame, and every attempt renders
    the frame of the task that started it. *)
Definition OwnerInv (s : State) : Prop :=
  (forall b body, bodies _ s !! b = Some body -> frames !! b_index body = Some (b_frame body))
  /\ (forall i task, tasks _ s !! i = Some task ->
        frames !! i = Some (t_frame task) /\ t_index task = i).

Lemma OwnerInv_frame (s s' : State) :
  tasks _ s' = tasks _ s -> bodies _ s' = bodies _ s -> OwnerInv s -> OwnerInv s'.
Proof. unfold OwnerInv. intros -> ->. done. Qed.

Lemma OwnerInv_setPc (b : nat) (pc : BodyPc) (s : State) :
  OwnerInv s -> OwnerInv (setPc _ b pc s).
Proof.
  intros (H1 & H2). split; [|done].
  intros b' body Hb'. simpl in Hb'.
  apply lookup_alter_Some in Hb' as [(-> & x & Hx & ->)|(_ & Hx)]; simpl; eauto.
Qed.

Lemma OwnerInv_setStatus (t : nat) (st : TaskStatus) (s : State) :
  OwnerInv s -> OwnerInv (setStatus _ t st s).
Proof.
  intros (H1 & H2). split; [done|].
  intros i task Hi. simpl in Hi.
  apply lookup_alter_Some in Hi as [(-> & x & Hx & ->)|(_ & Hx)]; simpl; eauto.
Qed.

Lemma OwnerInv_emit (o : Obs) (s : State) : OwnerInv s -> OwnerInv (emit _ o s).
Proof. by apply OwnerInv_frame. Qed.

Lemma OwnerInv_settleRun (r : Outcome) (s : State) : OwnerInv s -> OwnerInv (settleRun _ r s).
Proof. unfold settleRun. destruct (result _ s); [done|]. by apply OwnerInv_frame. Qed.

Lemma OwnerInv_joinTasks (s : State) : OwnerInv s -> OwnerInv (joinTasks _ s).
Proof. unfold joinTasks. destruct (forallb _ _); [|done]. apply OwnerInv_settleRun. Qed.

Lemma OwnerInv_settle (b index : nat) (r : Outcome) (s : State) :
  OwnerInv s -> OwnerInv (settle _ b index r s).
Proof. unfold settle. intros H. repeat case_match; try done; by apply OwnerInv_setStatus. Qed.

Lemma OwnerInv_throwFrom (b : nat) (body : Body) (e : Error) (s : State) :
  OwnerInv s -> OwnerInv (throwFrom _ b body e s).
Proof. intros H. by apply OwnerInv_settle, OwnerInv_setPc, OwnerInv_emit. Qed.

Lemma OwnerInv_rejectTask (t : nat) (e : Error) (s : State) :
  OwnerInv s -> OwnerInv (rejectTask _ t e s).
Proof. intros H. by apply OwnerInv_settleRun, OwnerInv_setStatus. Qed.

Lemma OwnerInv_releaseToPool (page : Page) (s : State) :
  OwnerInv s -> OwnerInv (releaseToPool _ page s).
Proof.
  intros H. unfold releaseToPool. destruct (Pool.release _ _) as [pool' [w|]].
  - apply OwnerInv_emit, OwnerInv_setPc. by eapply OwnerInv_frame; [..|exact H].
  - by eapply OwnerInv_frame; [..|exact H].
Qed.

Lemma OwnerInv_retryTask (t : nat) (s : State) :
  OwnerInv s -> OwnerInv (retryTask _ cancelMessage t s).
Proof.
  intros H. unfold retryTask.
  destruct (tasks _ s !! t) as [task|] eqn:Ht; [|done].
  destruct (t_status task); try done.
  destruct H as (H1 & H2). destruct (H2 _ _ Ht) as [Hf Hi].
  split; simpl.
  - intros b body Hb. apply lookup_app_Some in Hb as [Hb|[_ Hb]]; [eauto|].
    apply list_lookup_singleton_Some in Hb as [_ <-]. simpl. by rewrite Hi.
  - intros i task' Hi'.
    apply list_lookup_insert_Some in Hi' as [(-> & <- & _)|(Hne & Hi')]; simpl; eauto.
Qed.

Lemma OwnerInv_failReplacingTask (e : Error) (t : nat) (s : State) :
  OwnerInv s -> OwnerInv (failReplacingTask _ e t s).
Proof.
  intros H. unfold failReplacingTask. repeat case_match; try done. by apply OwnerInv_rejectTask.
Qed.

Lemma OwnerInv_dispatch (ev : Event) (s : State) : OwnerInv s -> OwnerInv (dispatch ev s).
Proof.
  intros H. dispatch_cases ev s; try exact H;
    on_throw ltac:(by apply OwnerInv_throwFrom);
    not_fold ltac:(try (by eapply OwnerInv_frame; [..|exact H]));
    not_fold ltac:(try (by apply OwnerInv_rejectTask; try apply OwnerInv_emit));
    not_fold ltac:(try (by apply OwnerInv_setStatus; try apply OwnerInv_emit)).
  - (* cancel *)
    apply OwnerInv_settleRun. destruct H as (H1 & H2). split; simpl; [done|].
    intros i task Hi. apply fmap_cancelTask_lookup in Hi as (task0 & Hi & ->).
    unfold cancelTask. destruct (t_status task0); simpl; eauto.
  - apply OwnerInv_setPc. by eapply OwnerInv_frame; [..|exact H].
  - apply OwnerInv_emit, OwnerInv_setPc. by eapply OwnerInv_frame; [..|exact H].
  - by apply OwnerInv_settle, OwnerInv_setPc, OwnerInv_emit.
  - by apply OwnerInv_emit, OwnerInv_setPc.
  - by apply OwnerInv_emit, OwnerInv_setPc.
  - (* the frame is recorded *)
    apply OwnerInv_settle, OwnerInv_setPc, OwnerInv_releaseToPool, OwnerInv_emit, OwnerInv_emit.
    by destruct (onFrameBuffer opts); (eapply OwnerInv_frame; [..|exact H]).
  - by apply OwnerInv_settle, OwnerInv_emit.
  - by apply OwnerInv_settle, OwnerInv_emit.
  - (* refill and retry *)
    apply foldl_invariant; [intros; by apply OwnerInv_retryTask|].
    eapply OwnerInv_frame with (s := refillPool _ opts s); try done.
    unfold refillPool. eapply OwnerInv_frame with (s := foldl _ _ _); try done.
    apply foldl_invariant; [intros; by apply OwnerInv_releaseToPool|].
    by apply OwnerInv_emit; eapply OwnerInv_frame; [..|exact H].
  - apply foldl_invariant; [intros; by apply OwnerInv_failReplacingTask|].
    by eapply OwnerInv_frame; [..|exact H].
  - apply foldl_invariant; [intros; by apply OwnerInv_failReplacingTask|].
    by eapply OwnerInv_frame; [..|exact H].
Qed.

Lemma OwnerInv_initial (cancelled : bool) : OwnerInv (initialState cancelled).
Proof.
  apply OwnerInv_joinTasks. split; simpl.
  - intros b body Hb. by apply list_lookup_imap_Some in Hb as (x & Hx & ->).
  - intros i task Hi. by apply list_lookup_imap_Some in Hi as (x & Hx & ->).
Qed.

Lemma OwnerInv_reachable (s : State) : reachable s -> OwnerInv s.
Proof.
  apply reachable_invariant; [apply OwnerInv_initial|].
  intros ev s' H. by apply OwnerInv_joinTasks, OwnerInv_dispatch.
Qed.

(** ** Main results about the frame loop *)

Lemma quietRun_final (evs : list Event) (s : State) :
  quietRun evs s = true -> noAttemptStarted (run evs s) = true.
Proof.
  revert s. induction evs as [|ev evs IH]; intros s H; simpl in *.
  - by apply andb_prop in H as [? _].
  - apply andb_prop in H as [_ H]. by apply IH.
Qed.

Lemma Fresh_cancel (s : State) :
  cancelSignal opts = true -> noAttemptStarted s = true ->
  Fresh s -> CancelledEarly (step (EvCancel _) s).
Proof.
  intros Hsig Hq HF. rewrite step_eq.
  assert (Hstop : stopped _ s = false) by by destruct HF as (_ & ? & _).
  assert (Hq' : noAttemptStarted (dispatch (EvCancel _) s) = true).
  { simpl. unfold fireCancel, noAttemptStarted. rewrite Hsig, Hstop. simpl.
    by rewrite (proj1 (proj2 (proj2 (settleRun_fields _ _)))). }
  apply CancelledEarly_joinTasks.
  destruct (Fresh_dispatch _ s Hsig HF Hq') as [(_ & Hs & _)|H]; [|done].
  exfalso. revert Hs. simpl. unfold fireCancel. rewrite Hsig, Hstop. simpl.
  by rewrite (proj2 (proj2 (proj2 (proj2 (proj2 (proj2 (proj2 (settleRun_fields _ _)))))))).
Qed.

Lemma cancelled_task_rejects (s : State) (t : nat) (task : Task) :
  isUserCancelledRender cancelErr = true ->
  CancelledEarly s -> tasks _ s !! t = Some task ->
  exists task', tasks _ (step (EvCatch _ t) s) !! t = Some task'
                /\ t_status task' = TRejected cancelErr.
Proof.
  intros Hclass (_ & _ & _ & _ & _ & Hst & _) Ht.
  rewrite step_eq, tasks_joinTasks. simpl. unfold catch. rewrite Ht.
  destruct (Hst _ _ Ht) as [E|E]; rewrite E; [|by exists task].
  unfold catchBlock, catchDecision. rewrite Hclass. unfold rejectTask.
  rewrite (proj1 (proj2 (proj2 (proj2 (proj2 (proj2 (proj2 (settleRun_fields _ _)))))))).
  simpl. rewrite list_lookup_alter_eq, Ht. simpl. eauto.
Qed.

(** C4 (amended): when the run can be cancelled and the cancellation error
    is recognised as one, a run whose signal had fired before it started, and
    a run cancelled before any attempt has gone past its acquisition, is
    rejected with the cancellation error; it captures no frame, writes no
    slot, seeks on no page, and every task ends rejected with the
    cancellation error when its [catch] block runs.  Attempts may still
    acquire a page: line 285 comes before the check of line 287. *)
Theorem cancelled_run_captures_nothing (evs1 evs2 : list Event)
    (Hsignal : cancelSignal opts = true)
    (Hclass : isUserCancelledRender cancelErr = true)
    (Hframes : frames <> [])
    (Hquiet : quietRun evs1 (initialState false) = true) :
  (forall evs, CancelledEarly (run evs (initialState true)))
  /\ CancelledEarly (run (evs1 ++ EvCancel _ :: evs2) (initialState false))
  /\ (forall s t task, CancelledEarly s -> tasks _ s !! t = Some task ->
        exists task', tasks _ (step (EvCatch _ t) s) !! t = Some task'
                      /\ t_status task' = TRejected cancelErr).
Proof.
  split; [|split].
  - intros evs. apply run_CancelledEarly; [done|]. by apply CancelledEarly_initial.
  - rewrite run_app. simpl. apply run_CancelledEarly; [done|].
    destruct (quiet_run_fresh evs1 (initialState false) Hsignal Hclass Hquiet) as [H|H].
    + left. by apply Fresh_initial.
    + apply Fresh_cancel; [done|by apply quietRun_final|done].
    + by apply CancelledEarly_step.
  - intros s t task. by apply cancelled_task_rejects.
Qed.

Lemma NoCapture_run_outputModeError (e : Error) (cancelled : bool) (evs : list Event) :
  outputModeError opts = Some e -> NoCapture (run evs (initialState cancelled)).
Proof.
  intros He. apply run_invariant; [|apply NoCapture_initial].
  intros ev s H. rewrite step_eq.
  by apply NoCapture_joinTasks, (NoCapture_dispatch_outputModeError e).
Qed.

Lemma outputModeError_cases (o : Options) :
  (outputModeError o = Some neitherOutputError
   <-> truthyString (outputDir o) = false /\ onFrameBuffer o = false /\ captures o = true)
  /\ (outputModeError o = Some bothOutputsError
      <-> truthyString (outputDir o) = true /\ onFrameBuffer o = true /\ captures o = true)
  /\ (outputModeError o = None
      <-> captures o = false \/ truthyString (outputDir o) <> onFrameBuffer o).
Proof.
  unfold outputModeError.
  destruct (truthyString (outputDir o)), (onFrameBuffer o), (captures o); simpl;
    (split; [|split]); split; try done; try (intros (? & ? & ?); done);
    try (intros [?|?]; done); try (by left); try (by right).
Qed.

(** C5 (amended): when the image format requires a capture, asking for
    both an output directory and a frame-buffer callback, or for neither, is
    an error.  It is raised by each attempt when its [seekToFrame] has
    resolved, on the page the attempt acquired and keeps; in such a run no
    frame is ever captured, written or counted. *)
Theorem output_mode_error_raised_after_seek (e : Error)
    (Hmode : outputModeError opts = Some e) :
  (e = neitherOutputError \/ e = bothOutputsError)
  /\ captures opts = true
  /\ truthyString (outputDir opts) = onFrameBuffer opts
  /\ (forall cancelled evs, NoCapture (run evs (initialState cancelled)))
  /\ (forall s b body page,
        bodies _ s !! b = Some body -> b_pc body = BSeeking page ->
        let s' := step (EvSeekDone _ b Fulfilled) s in
        trace _ s' = OThrow b e :: trace _ s
        /\ bodies _ s' !! b = Some (withPc (BFinished (Some page)) body)
        /\ pool _ s' = pool _ s).
Proof.
  split; [|split; [|split; [|split]]].
  - revert Hmode. unfold outputModeError. repeat case_match; intros [= <-]; auto.
  - revert Hmode. unfold outputModeError. by destruct (captures opts); rewrite ?andb_false_r.
  - revert Hmode. unfold outputModeError.
    by destruct (truthyString (outputDir opts)), (onFrameBuffer opts).
  - intros cancelled evs. by apply (NoCapture_run_outputModeError e).
  - intros s b body page Hb Hpc. cbv zeta.
    rewrite step_eq, trace_joinTasks, bodies_joinTasks, pool_joinTasks. simpl.
    unfold seekDone. rewrite Hb, Hpc, (afterSeek_outputModeError e) by done.
    unfold throwFrom.
    match goal with |- context [settle _ ?b0 ?i0 ?r0 ?s0] =>
      destruct (settle_fields b0 i0 r0 s0) as (_ & -> & -> & -> & _) end.
    simpl. by rewrite list_lookup_alter_eq, Hb, Hpc.
Qed.



(** Only the end of a replacement refills the pool. *)
Lemma refills_dispatch (ev : Event) (s : State) :
  ev <> EvReplaced _ -> refills _ (dispatch ev s) = refills _ s.
Proof.
  intros Hev.
  assert (Hfold : forall e ids (s0 : State),
            refills _ (foldl (fun acc t => failReplacingTask _ e t acc) s0 ids)
            = refills _ s0).
  { intros e ids s0. apply (foldl_invariant (fun x => refills _ x = _)); [|done].
    intros x t <-. unfold failReplacingTask, rejectTask. repeat case_match; try done.
    by rewrite (proj1 (proj2 (proj2 (proj2 (proj2 (proj2 (settleRun_fields _ _))))))). }
  dispatch_cases ev s; try done;
    rewrite ?Hfold;
    unfold throwFrom, pageError, rejectTask, releaseToPool;
    repeat match goal with
    | |- context [settle _ ?b0 ?i0 ?r0 ?s0] =>
        rewrite (proj2 (proj2 (proj2 (proj2 (proj2 (settle_fields b0 i0 r0 s0))))))
    | |- context [settleRun _ ?r0 ?s0] =>
        rewrite (proj1 (proj2 (proj2 (proj2 (proj2 (proj2 (settleRun_fields r0 s0)))))))
    end; try done.
  all: unfold Pool.release; simpl; repeat case_match; simpl; try done.
Qed.

(** C8 (amended): the pool is created once, with [actualConcurrency]
    pages.  From then on the idle pages and the pages marked busy are
    together [actualConcurrency] for the creation plus [actualConcurrency]
    for every refill after a browser replacement: acquiring and releasing
    keep the sum, a refill adds [actualConcurrency] pages to it.  So up to
    [actualConcurrency * (1 + refills)] pages can be marked busy. *)
Theorem pool_size_follows_refills (cancelled : bool) (evs : list Event) :
  let s := run evs (initialState cancelled) in
  match poolPromise _ s with
  | PoolResolved =>
      (Pool.idleCount (pool _ s) + Pool.busyCount (pool _ s)
       = actualConcurrency opts * S (refills _ s))%nat
  | _ => pool _ s = Pool.create [] /\ refills _ s = 0%nat
  end
  /\ (Pool.busyCount (pool _ s) <= actualConcurrency opts * S (refills _ s))%nat
  /\ (poolPromise _ s = PoolPending ->
      poolPromise _ (step (EvPoolReady _) s) = PoolResolved
      /\ pool _ (step (EvPoolReady _) s) = Pool.create (seq 0 (actualConcurrency opts)))
  /\ (poolPromise _ s <> PoolPending -> pool _ (step (EvPoolReady _) s) = pool _ s)
  /\ (forall ev, ev <> EvReplaced _ -> refills _ (step ev s) = refills _ s)
  /\ (replacing _ s = true -> poolPromise _ s = PoolResolved ->
      refills _ (step (EvReplaced _) s) = S (refills _ s)).
Proof.
  cbv zeta.
  assert (Hr : reachable (run evs (initialState cancelled))) by by exists cancelled, evs.
  set (s := run evs (initialState cancelled)) in *.
  destruct (PoolInv_reachable s Hr) as [_ HP]. unfold poolTotal in HP.
  split; [|split; [|split; [|split; [|split]]]].
  - destruct (poolPromise _ s); [tauto|lia|tauto].
  - destruct (poolPromise _ s);
      [destruct HP as (-> & _)|destruct HP as (HP & _)|destruct HP as (-> & _)];
      unfold Pool.busyCount, Pool.idleCount in *; simpl; lia.
  - intros Hp. rewrite step_eq.
    rewrite (proj1 (proj2 (proj2 (proj2 (joinTasks_fields _))))). unfold joinTasks.
    simpl. unfold poolReady. rewrite Hp in *. destruct HP as (_ & _ & ->).
    by destruct (forallb _ _); [unfold settleRun; destruct (result _ _)|].
  - intros Hp. rewrite step_eq, pool_joinTasks. simpl. unfold poolReady.
    by destruct (poolPromise _ s).
  - intros ev Hev. rewrite step_eq.
    rewrite (proj1 (proj2 (proj2 (proj2 (proj2 (proj2 (joinTasks_fields _))))))).
    by apply refills_dispatch.
  - intros Hrep Hp. rewrite step_eq.
    rewrite (proj1 (proj2 (proj2 (proj2 (proj2 (proj2 (joinTasks_fields _))))))).
    simpl. unfold replaced. rewrite Hrep, Hp.
    match goal with |- refills _ (foldl _ ?s1 ?ids) = _ =>
      assert (H : refills _ (foldl (fun acc t => retryTask _ cancelMessage t acc) s1 ids)
                  = refills _ s1)
    end.
    { apply (foldl_invariant (fun x => refills _ x = _)); [|done].
      intros x t <-. unfold retryTask. by repeat case_match. }
    rewrite H. destruct (refillPool_fields s) as (_ & _ & _ & _ & _ & Hrf). exact Hrf.
Qed.

Lemma refillPool_poolPromise (s : State) :
  poolPromise _ (refillPool _ opts s) = poolPromise _ s.
Proof.
  unfold refillPool. simpl.
  apply (foldl_invariant (fun x => poolPromise _ x = poolPromise _ s)); [|done].
  intros x page <-. unfold releaseToPool. by destruct (Pool.release _ _) as [pool' [w|]].
Qed.

(** What the end of a replacement does when the pool exists and the run is
    not stopped. *)
Lemma replaced_retries_waiting (s : State) :
  replacing _ s = true -> poolPromise _ s = PoolResolved -> stopped _ s = false ->
  let s' := step (EvReplaced _) s in
  replacing _ s' = false
  /\ poolPromise _ s' = PoolResolved
  /\ refills _ s' = S (refills _ s)
  /\ replacementCycles (trace _ s') = replacementCycles (trace _ s)
  /\ refillCount (trace _ s') = S (refillCount (trace _ s))
  /\ (forall t task, tasks _ s !! t = Some task -> t_status task = TReplacing ->
        retried task t s')
  /\ (forall t task, tasks _ s !! t = Some task -> t_status task <> TReplacing ->
        tasks _ s' !! t = Some task).
Proof.
  intros Hrep Hp Hstop. cbv zeta. rewrite step_eq. unfold retried.
  destruct (joinTasks_fields (dispatch (EvReplaced _) s))
    as (_ & -> & -> & _ & -> & -> & -> & _).
  assert (Hpp : poolPromise _ (joinTasks _ (dispatch (EvReplaced _) s))
                = poolPromise _ (dispatch (EvReplaced _) s)).
  { unfold joinTasks, settleRun. by repeat case_match. }
  rewrite Hpp. clear Hpp. simpl. unfold replaced. rewrite Hrep, Hp.
  set (s1 := setReplacing _ false (refillPool _ opts s)).
  destruct (refillPool_fields s) as (Ht & Hs & _ & Hc & Hf & Hr).
  assert (Hstop1 : stopped _ s1 = false).
  { change (stopped _ (refillPool _ opts s) = false). congruence. }
  assert (Htasks1 : tasks _ s1 = tasks _ s) by exact Ht.
  destruct (retry_fold (taskIds _ s1) s1 (NoDup_seq _ _) Hstop1)
    as (H1 & H2 & _ & -> & -> & -> & _ & ->).
  change (replacing _ s1) with false.
  change (poolPromise _ s1) with (poolPromise _ (refillPool _ opts s)).
  change (refills _ s1) with (refills _ (refillPool _ opts s)).
  change (trace _ s1) with (trace _ (refillPool _ opts s)).
  rewrite refillPool_poolPromise, Hc, Hf, Hr.
  repeat split; try done.
  - intros t task Hlook Hst. apply H1; [|by rewrite Htasks1|done].
    unfold taskIds. apply elem_of_seq. apply lookup_lt_Some in Hlook.
    rewrite Htasks1. lia.
  - intros t task Hlook Hst. apply H2; [by rewrite Htasks1|by right].
Qed.

(** C9: two tasks that catch a crash-class error, with retries left, in a
    run that is not stopped and has its pool, share one replacement.  After
    both [catch] blocks have run a replacement is under way, at most one was
    started for the two (none when one was under way before), both tasks wait
    for it, and the pool is untouched.  When the replacement ends the pool
    has been refilled once, with [actualConcurrency] pages, and both tasks
    run a new attempt of their own frame with one retry fewer. *)
Theorem concurrent_crashes_share_one_replacement
    (s : State) (t1 t2 : nat) (task1 task2 : Task) (e1 e2 : Error)
    (Hreach : reachable s)
    (Hdistinct : t1 <> t2)
    (Hrunning : stopped _ s = false)
    (Hpool : poolPromise _ s = PoolResolved)
    (Htask1 : tasks _ s !! t1 = Some task1)
    (Hcaught1 : t_status task1 = TCaught e1)
    (Hcrash1 : crash e1)
    (Hretries1 : t_retriesLeft task1 <> 0%nat)
    (Htask2 : tasks _ s !! t2 = Some task2)
    (Hcaught2 : t_status task2 = TCaught e2)
    (Hcrash2 : crash e2)
    (Hretries2 : t_retriesLeft task2 <> 0%nat) :
  let s2 := run [EvCatch _ t1; EvCatch _ t2] s in
  let s3 := step (EvReplaced _) s2 in
  replacing _ s2 = true
  /\ replacementCycles (trace _ s2)
     = (replacementCycles (trace _ s) + (if replacing _ s then 0 else 1))%nat
  /\ refillCount (trace _ s2) = refillCount (trace _ s)
  /\ pool _ s2 = pool _ s
  /\ tasks _ s2 !! t1 = Some (withStatus TReplacing task1)
  /\ tasks _ s2 !! t2 = Some (withStatus TReplacing task2)
  /\ replacing _ s3 = false
  /\ replacementCycles (trace _ s3) = replacementCycles (trace _ s2)
  /\ refillCount (trace _ s3) = S (refillCount (trace _ s))
  /\ poolTotal s3 = (poolTotal s + actualConcurrency opts)%nat
  /\ retried task1 t1 s3
  /\ retried task2 t2 s3.
Proof.
  cbv zeta. simpl.
  destruct (catch_crash_waits t1 task1 e1 s Htask1 Hcaught1 Hcrash1 Hrunning Hretries1)
    as (Ht1 & Hr1 & Hc1 & Hf1 & Hn1 & Hp1 & _ & Hpp1 & Hs1).
  set (s1 := step (EvCatch _ t1) s) in *.
  assert (Htask2' : tasks _ s1 !! t2 = Some task2).
  { rewrite Ht1, list_lookup_alter_ne; done. }
  assert (Hrunning1 : stopped _ s1 = false) by congruence.
  destruct (catch_crash_waits t2 task2 e2 s1 Htask2' Hcaught2 Hcrash2 Hrunning1 Hretries2)
    as (Ht2 & Hr2 & Hc2 & Hf2 & Hn2 & Hp2 & _ & Hpp2 & Hs2).
  set (s2 := step (EvCatch _ t2) s1) in *.
  rewrite Hr1 in Hc2.
  assert (Hw1 : tasks _ s2 !! t1 = Some (withStatus TReplacing task1)).
  { rewrite Ht2, list_lookup_alter_ne, Ht1, list_lookup_alter_eq, Htask1; done. }
  assert (Hw2 : tasks _ s2 !! t2 = Some (withStatus TReplacing task2)).
  { rewrite Ht2, list_lookup_alter_eq, Htask2'; done. }
  assert (Hpool2 : poolPromise _ s2 = PoolResolved) by congruence.
  assert (Hrunning2 : stopped _ s2 = false) by congruence.
  destruct (replaced_retries_waiting s2 Hr2 Hpool2 Hrunning2)
    as (Hr3 & Hpp3 & Hn3 & Hc3 & Hf3 & Hretry & _).
  set (s3 := step (EvReplaced _) s2) in *.
  assert (Hreach3 : reachable s3) by by do 3 apply reachable_step.
  destruct (PoolInv_reachable s Hreach) as [_ HP]. rewrite Hpool in HP.
  destruct (PoolInv_reachable s3 Hreach3) as [_ HP3]. rewrite Hpp3 in HP3.
  repeat split; try done; try congruence.
  - lia.
  - destruct HP as [-> _], HP3 as [-> _]. rewrite Hn3, Hn2, Hn1.
    rewrite (Nat.mul_succ_r _ (S _)). lia.
  - by apply (Hretry t1 (withStatus TReplacing task1)).
  - by apply (Hretry t2 (withStatus TReplacing task2)).
Qed.

(** C10 (amended): a page goes back to the pool only when an attempt
    records its frame.  An attempt that ends early (it finds the run stopped
    after its acquisition, its seek or its capture fails, the output mode is
    wrong, or the wanted buffer is missing) keeps its page: the pool is left
    as it was, and in whatever follows the page stays marked busy and is
    never idle again.  A page error only settles the attempt's promise: the
    attempt goes on, and releases its page if it later records its frame. *)
Theorem page_released_only_by_recorded_frame
    (cancelled : bool) (evs : list Event) (ev : Event) :
  let s := run evs (initialState cancelled) in
  (releases (trace _ (step ev s)) = releases (trace _ s)
   \/ exists b body page collected,
        recordsFrame s ev b body page collected
        /\ releases (trace _ (step ev s)) = ORelease b page :: releases (trace _ s))
  /\ (forall b body page,
        bodies _ s !! b = Some body -> heldPage (b_pc body) = Some page ->
        failsAttempt s b (b_pc body) ev ->
        pool _ (step ev s) = pool _ s
        /\ releases (trace _ (step ev s)) = releases (trace _ s)
        /\ forall evs',
             bodies _ (run evs' (step ev s)) !! b
             = Some (withPc (BFinished (Some page)) body)
             /\ page ∈ Pool.busy (pool _ (run evs' (step ev s)))
             /\ page ∉ Pool.resources (pool _ (run evs' (step ev s))))
  /\ (forall b e, ev = EvPageError _ b e ->
        bodies _ (step ev s) = bodies _ s
        /\ pool _ (step ev s) = pool _ s
        /\ releases (trace _ (step ev s)) = releases (trace _ s)).
Proof.
  cbv zeta.
  assert (Hr : reachable (run evs (initialState cancelled))) by by exists cancelled, evs.
  set (s := run evs (initialState cancelled)) in *.
  split; [|split].
  - rewrite step_eq, trace_joinTasks.
    destruct (record_dispatch ev s) as [(_ & Hrel & _)|Hrec]; [by left|right].
    destruct Hrec as (b & body & page & collected & Hrf & _ & Hrel & _).
    by exists b, body, page, collected.
  - intros b body page Hb Hheld Hfail.
    destruct (failing_attempt_keeps_page ev b body page s Hb Hheld Hfail) as (Hb' & Hp & Hrel).
    split; [done|split; [done|]]. intros evs'.
    by apply kept_page_never_returns; [apply reachable_step|..].
  - intros b e ->. apply page_error_keeps_running.
Qed.

(** What a fulfilled run resolves with: the result built over the asset
    array, which has a record in every slot. *)
Lemma fulfilled_run_output (plan : RenderPlan) (s : State) :
  reachable s -> result _ s = Some Fulfilled ->
  resolvedOutput _ opts plan s = Some (happyPath plan (imageFormat opts) (assets _ s))
  /\ length (assets _ s) = length frames
  /\ forall i, (i < length frames)%nat -> slotFilled s i.
Proof.
  intros Hr Hres. unfold resolvedOutput. rewrite Hres. split; [done|].
  destruct (ShapeInv_reachable s Hr) as (HS1 & HS2 & _).
  split; [done|]. intros i Hi.
  destruct (ResInv_reachable s Hr) as (HR1 & _ & HR3).
  rewrite <- HS2 in Hi. destruct (lookup_lt_is_Some_2 _ _ Hi) as [task Ht].
  destruct (HR1 _ _ Ht (HR3 Hres _ _ Ht)) as [?|[e He]]; [done|congruence].
Qed.

(** ** More properties of the frame loop *)

(** X1: lines 284-285 await the pool before acquiring.  Until [getPool]
    has resolved, and for good when it rejects, the pool holds no page and
    no attempt holds or has kept one. *)
Theorem no_page_without_pool (cancelled : bool) (evs : list Event)
    (Hpool : poolPromise _ (run evs (initialState cancelled)) <> PoolResolved) :
  let s := run evs (initialState cancelled) in
  pool _ s = Pool.create []
  /\ forall b body, bodies _ s !! b = Some body -> heldPage (b_pc body) = None.
Proof.
  cbv zeta.
  assert (Hr : reachable (run evs (initialState cancelled))) by by exists cancelled, evs.
  set (s := run evs (initialState cancelled)) in *.
  destruct (PoolInv_reachable s Hr) as [(_ & _ & _ & Hheld & _) HP].
  assert (Hempty : pool _ s = Pool.create []).
  { destruct (poolPromise _ s); [tauto|done|tauto]. }
  split; [done|]. intros b body Hb.
  destruct (heldPage (b_pc body)) as [page|] eqn:Hh; [|done].
  destruct (Hheld b body page Hb Hh) as [Hbusy _].
  rewrite Hempty in Hbusy. simpl in Hbusy. by apply elem_of_nil in Hbusy.
Qed.

(** X2: the tasks are those of line 456, one per planned frame: task [i]
    renders the [i]-th planned frame under index [i], through every retry;
    and every attempt, first or retried, renders the frame and index of the
    task that started it. *)
Theorem attempts_render_their_tasks_frame (cancelled : bool) (evs : list Event) :
  let s := run evs (initialState cancelled) in
  length (tasks _ s) = length frames
  /\ (forall i task, tasks _ s !! i = Some task ->
        frames !! i = Some (t_frame task) /\ t_index task = i)
  /\ (forall b body, bodies _ s !! b = Some body ->
        exists task, tasks _ s !! b_index body = Some task
                     /\ t_frame task = b_frame body).
Proof.
  cbv zeta.
  assert (Hr : reachable (run evs (initialState cancelled))) by by exists cancelled, evs.
  set (s := run evs (initialState cancelled)) in *.
  destruct (ShapeInv_reachable s Hr) as (_ & HS2 & HS3 & _).
  destruct (OwnerInv_reachable s Hr) as [HO1 HO2].
  split; [done|split; [done|]]. intros b body Hb.
  assert (Hlt : (b_index body < length (tasks _ s))%nat) by (rewrite HS2; by apply (HS3 b)).
  destruct (lookup_lt_is_Some_2 _ _ Hlt) as [task Ht]. exists task. split; [done|].
  destruct (HO2 _ _ Ht) as [Hf _]. pose proof (HO1 _ _ Hb). congruence.
Qed.

(** X3: a page is with one attempt at a time.  In every state the idle
    pages are distinct, a page an attempt holds (or kept when it ended
    early) is marked busy and is not idle, and no two attempts hold the same
    page. *)
Theorem page_held_by_one_attempt (cancelled : bool) (evs : list Event) :
  let s := run evs (initialState cancelled) in
  NoDup (Pool.resources (pool _ s))
  /\ (forall b body page, bodies _ s !! b = Some body -> heldPage (b_pc body) = Some page ->
        page ∈ Pool.busy (pool _ s) /\ page ∉ Pool.resources (pool _ s))
  /\ (forall b1 b2 body1 body2 page,
        bodies _ s !! b1 = Some body1 -> bodies _ s !! b2 = Some body2 ->
        heldPage (b_pc body1) = Some page -> heldPage (b_pc body2) = Some page -> b1 = b2).
Proof.
  cbv zeta.
  assert (Hr : reachable (run evs (initialState cancelled))) by by exists cancelled, evs.
  destruct (PoolInv_reachable _ Hr) as [(_ & _ & H3 & H4 & H5) _].
  split; [done|split; [exact H4|exact H5]].
Qed.

(** *** Attempt numbers *)

(** Attempts are numbered from 1; the attempt number and the retries left
    of a task add up to what the task started with; a task waiting for a
    replacement has a retry left. *)
Definition RetryInv (s : State) : Prop :=
  forall i task, tasks _ s !! i = Some task ->
    (t_attempt task + t_retriesLeft task = S MAX_RETRIES_PER_FRAME)%nat
    /\ (1 <= t_attempt task)%nat
    /\ (t_status task = TReplacing -> t_retriesLeft task <> 0%nat).

Lemma RetryInv_frame (s s' : State) : tasks _ s' = tasks _ s -> RetryInv s -> RetryInv s'.
Proof. unfold RetryInv. by intros ->. Qed.

Lemma RetryInv_setStatus (t : nat) (st : TaskStatus) (s : State) :
  st <> TReplacing -> RetryInv s -> RetryInv (setStatus _ t st s).
Proof.
  intros Hst H i task Hi. simpl in Hi.
  apply lookup_alter_Some in Hi as [(-> & x & Hx & ->)|(_ & Hx)]; [|by apply (H i)].
  destruct (H _ _ Hx) as (H1 & H2 & _). by repeat split.
Qed.

Lemma RetryInv_setReplacing (t : nat) (task : Task) (s : State) :
  tasks _ s !! t = Some task -> t_retriesLeft task <> 0%nat ->
  RetryInv s -> RetryInv (setStatus _ t TReplacing s).
Proof.
  intros Ht Hleft H i task' Hi. simpl in Hi.
  apply lookup_alter_Some in Hi as [(-> & x & Hx & ->)|(_ & Hx)]; [|by apply (H i)].
  assert (x = task) as -> by congruence.
  destruct (H _ _ Hx) as (H1 & H2 & _). by repeat split.
Qed.

Lemma RetryInv_settleRun (r : Outcome) (s : State) : RetryInv s -> RetryInv (settleRun _ r s).
Proof. unfold settleRun. destruct (result _ s); [done|]. by apply RetryInv_frame. Qed.

Lemma RetryInv_joinTasks (s : State) : RetryInv s -> RetryInv (joinTasks _ s).
Proof. unfold joinTasks. destruct (forallb _ _); [|done]. apply RetryInv_settleRun. Qed.

Lemma RetryInv_settle (b index : nat) (r : Outcome) (s : State) :
  RetryInv s -> RetryInv (settle _ b index r s).
Proof.
  unfold settle. intros H. repeat case_match; try done; by apply RetryInv_setStatus.
Qed.

Lemma RetryInv_throwFrom (b : nat) (body : Body) (e : Error) (s : State) :
  RetryInv s -> RetryInv (throwFrom _ b body e s).
Proof. intros H. apply RetryInv_settle. by eapply RetryInv_frame; [..|exact H]. Qed.

Lemma RetryInv_rejectTask (t : nat) (e : Error) (s : State) :
  RetryInv s -> RetryInv (rejectTask _ t e s).
Proof. intros H. by apply RetryInv_settleRun, RetryInv_setStatus. Qed.

Lemma RetryInv_releaseToPool (page : Page) (s : State) :
  RetryInv s -> RetryInv (releaseToPool _ page s).
Proof.
  intros H. unfold releaseToPool. destruct (Pool.release _ _) as [pool' [w|]];
    by eapply RetryInv_frame; [..|exact H].
Qed.

Lemma RetryInv_retryTask (t : nat) (s : State) :
  RetryInv s -> RetryInv (retryTask _ cancelMessage t s).
Proof.
  intros H. unfold retryTask.
  destruct (tasks _ s !! t) as [task|] eqn:Ht; [|done].
  destruct (t_status task) eqn:Hst; try done.
  destruct (H _ _ Ht) as (Hsum & Hpos & Hleft). specialize (Hleft Hst).
  intros i task' Hi. simpl in Hi.
  apply list_lookup_insert_Some in Hi as [(-> & <- & _)|(Hne & Hi)]; [|by apply (H i)].
  simpl. split; [lia|]. split; [lia|]. by destruct (stopped _ s).
Qed.

Lemma RetryInv_failReplacingTask (e : Error) (t : nat) (s : State) :
  RetryInv s -> RetryInv (failReplacingTask _ e t s).
Proof.
  intros H. unfold failReplacingTask. repeat case_match; try done. by apply RetryInv_rejectTask.
Qed.

Lemma RetryInv_dispatch (ev : Event) (s : State) : RetryInv s -> RetryInv (dispatch ev s).
Proof.
  intros H. dispatch_cases ev s; try exact H;
    on_throw ltac:(by apply RetryInv_throwFrom);
    not_fold ltac:(try (by eapply RetryInv_frame; [..|exact H]));
    not_fold ltac:(try (by apply RetryInv_rejectTask; eapply RetryInv_frame; [..|exact H]));
    not_fold ltac:(try (by apply RetryInv_setStatus; [|eapply RetryInv_frame; [..|exact H]])).
  - (* cancel *)
    apply RetryInv_settleRun. intros i task Hi. simpl in Hi.
    apply fmap_cancelTask_lookup in Hi as (task0 & Hi & ->).
    destruct (H _ _ Hi) as (Hsum & Hpos & Hleft).
    unfold cancelTask. destruct (t_status task0) eqn:Hst0; simpl; rewrite ?Hst0; by repeat split.
  - apply RetryInv_settle. by eapply RetryInv_frame; [..|exact H].
  - (* the frame is recorded *)
    apply RetryInv_settle.
    eapply RetryInv_frame with (s := releaseToPool _ page _); [done|].
    apply RetryInv_releaseToPool. eapply RetryInv_frame; [|exact H].
    by destruct (onFrameBuffer opts).
  - apply RetryInv_settle. by eapply RetryInv_frame; [..|exact H].
  - apply RetryInv_settle. by eapply RetryInv_frame; [..|exact H].
  - apply (RetryInv_setReplacing t task); [done|by rewrite Hretries|].
    by eapply RetryInv_frame; [..|exact H].
  - eapply RetryInv_frame with (s := setStatus _ t TReplacing s); [done|].
    apply (RetryInv_setReplacing t task); [done|by rewrite Hretries|done].
  - (* refill and retry *)
    apply foldl_invariant; [intros; by apply RetryInv_retryTask|].
    eapply RetryInv_frame; [|exact H].
    by destruct (refillPool_fields s) as (Ht & _).
  - apply foldl_invariant; [intros; by apply RetryInv_failReplacingTask|].
    by eapply RetryInv_frame; [..|exact H].
  - apply foldl_invariant; [intros; by apply RetryInv_failReplacingTask|].
    by eapply RetryInv_frame; [..|exact H].
Qed.

Lemma RetryInv_initial (cancelled : bool) : RetryInv (initialState cancelled).
Proof.
  apply RetryInv_joinTasks. intros i task Hi. simpl in Hi.
  apply list_lookup_imap_Some in Hi as (x & Hx & ->). simpl.
  split; [done|]. split; [done|]. by destruct (cancelSignal opts && cancelled).
Qed.

(** X4: whatever the interleaving, a frame task is on its first or second
    attempt: the attempt number and the retries left always add up to
    [MAX_RETRIES_PER_FRAME + 1], so with the cap of line 52 no task makes a
    third attempt, and a task on its second attempt has no retry left. *)
Theorem task_attempt_number_bounded (cancelled : bool) (evs : list Event) :
  Forall (fun task =>
            (t_attempt task + t_retriesLeft task = S MAX_RETRIES_PER_FRAME)%nat
            /\ (1 <= t_attempt task <= 2)%nat
            /\ (t_attempt task = 2%nat -> t_retriesLeft task = 0%nat))
    (tasks _ (run evs (initialState cancelled))).
Proof.
  assert (Hr : reachable (run evs (initialState cancelled))) by by exists cancelled, evs.
  assert (H : RetryInv (run evs (initialState cancelled))).
  { revert Hr. apply reachable_invariant; [apply RetryInv_initial|].
    intros ev s H. by apply RetryInv_joinTasks, RetryInv_dispatch. }
  apply Forall_lookup. intros i task Hi.
  destruct (H _ _ Hi) as (Hsum & Hpos & _).
  unfold MAX_RETRIES_PER_FRAME in *. lia.
Qed.

(** *** Progress reports *)

Definition frameUpdateCount (o : Obs) : option nat :=
  match o with
  | OFrameUpdate n _ => Some n
  | _ => None
  end.

(** The counts [onFrameUpdate] was called with, newest first. *)
Definition frameUpdates (tr : list Obs) : list nat := omap frameUpdateCount tr.

Definition SameCount (s0 s : State) : Prop :=
  framesRendered _ s = framesRendered _ s0
  /\ writes (trace _ s) = writes (trace _ s0)
  /\ frameUpdates (trace _ s) = frameUpdates (trace _ s0).

Lemma SameCount_settle (s0 : State) (b index : nat) (r : Outcome) (s : State) :
  SameCount s0 s -> SameCount s0 (settle _ b index r s).
Proof. unfold settle. by repeat case_match. Qed.

Lemma SameCount_settleRun (s0 : State) (r : Outcome) (s : State) :
  SameCount s0 s -> SameCount s0 (settleRun _ r s).
Proof. unfold settleRun. by repeat case_match. Qed.

Lemma SameCount_releaseToPool (s0 : State) (page : Page) (s : State) :
  SameCount s0 s -> SameCount s0 (releaseToPool _ page s).
Proof. unfold releaseToPool. by destruct (Pool.release _ _) as [pool' [w|]]. Qed.

Lemma SameCount_retryTask (s0 : State) (t : nat) (s : State) :
  SameCount s0 s -> SameCount s0 (retryTask _ cancelMessage t s).
Proof. unfold retryTask. by repeat case_match. Qed.

Lemma SameCount_failReplacingTask (s0 : State) (e : Error) (t : nat) (s : State) :
  SameCount s0 s -> SameCount s0 (failReplacingTask _ e t s).
Proof.
  unfold failReplacingTask, rejectTask. intros H. repeat case_match; try done.
  by apply SameCount_settleRun.
Qed.

(** Only the event that records a frame counts it and reports progress. *)
Lemma count_dispatch (ev : Event) (s : State) :
  SameCount s (dispatch ev s)
  \/ (framesRendered _ (dispatch ev s) = S (framesRendered _ s)
      /\ (exists b index, writes (trace _ (dispatch ev s)) = OWrite b index :: writes (trace _ s))
      /\ frameUpdates (trace _ (dispatch ev s))
         = S (framesRendered _ s) :: frameUpdates (trace _ s)).
Proof.
  assert (H : SameCount s s) by done.
  dispatch_cases ev s; try (left; exact H);
    lazymatch goal with
    | |- SameCount _ (throwFrom _ _ _ _ _) \/ _ =>
        left; unfold throwFrom; by apply SameCount_settle
    | _ => idtac
    end.
  - left. by apply SameCount_settleRun.
  - left. by apply SameCount_settle.
  - (* the frame is recorded *)
    right.
    match goal with |- context [settle _ ?b0 ?i0 ?r0 ?s0] =>
      assert (Hs : SameCount s0 (settle _ b0 i0 r0 s0)) by (by apply SameCount_settle);
      destruct Hs as (-> & -> & ->) end.
    match goal with |- context [releaseToPool _ ?p0 ?s0] =>
      assert (Hs : SameCount s0 (releaseToPool _ p0 s0)) by (by apply SameCount_releaseToPool)
    end.
    destruct Hs as (Hs1 & Hs2 & Hs3). simpl in *. rewrite Hs1, Hs2, Hs3.
    destruct (onFrameBuffer opts); simpl; eauto.
  - left. by apply SameCount_settle.
  - left. by apply SameCount_settle.
  - left. by apply SameCount_settleRun.
  - left. by apply SameCount_settleRun.
  - left. apply foldl_invariant; [intros; by apply SameCount_retryTask|].
    unfold refillPool. unfold SameCount. simpl.
    apply (foldl_invariant (SameCount s)); [intros; by apply SameCount_releaseToPool|done].
  - left. apply foldl_invariant; [intros; by apply SameCount_failReplacingTask|done].
  - left. apply foldl_invariant; [intros; by apply SameCount_failReplacingTask|done].
Qed.

(** X5: [framesRendered] counts the recorded frames, and [onFrameUpdate]
    is told 1, 2, 3, ... in this order: after [n] frames were recorded the
    reports made so far are exactly 1, ..., [n], whatever the order in which
    the attempts finish. *)
Theorem frame_updates_count_up (cancelled : bool) (evs : list Event) :
  let s := run evs (initialState cancelled) in
  framesRendered _ s = length (writes (trace _ s))
  /\ rev (frameUpdates (trace _ s)) = seq 1 (framesRendered _ s).
Proof.
  cbv zeta.
  apply (run_invariant (fun s => framesRendered _ s = length (writes (trace _ s))
                                 /\ rev (frameUpdates (trace _ s)) = seq 1 (framesRendered _ s))).
  - intros ev s [H1 H2].
    destruct (joinTasks_fields (dispatch ev s)) as (_ & Ht & _).
    assert (Hf : framesRendered _ (step ev s) = framesRendered _ (dispatch ev s)).
    { rewrite step_eq. unfold joinTasks, settleRun. by repeat case_match. }
    rewrite Hf, step_eq, Ht.
    destruct (count_dispatch ev s) as [(-> & -> & ->)|(-> & (b & index & ->) & ->)]; [done|].
    split; [simpl; by rewrite H1|]. rewrite seq_S. simpl rev. by rewrite H2.
  - assert (Hf0 : framesRendered _ (initialState cancelled) = 0%nat).
    { lazymatch goal with
      | |- context [?f TAsset cancelMessage opts frames cancelled] => unfold f
      end.
      unfold joinTasks, settleRun. by repeat case_match. }
    by rewrite trace_initial, Hf0.
Qed.

(** *** After the run was stopped *)

(** The seeks among the observations, newest first. *)
Definition seeks (tr : list Obs) : list Obs := List.filter seekObs tr.

Definition StaysStopped (s0 s : State) : Prop :=
  stopped _ s = true /\ seeks (trace _ s) = seeks (trace _ s0).

Lemma StaysStopped_settle (s0 : State) (b index : nat) (r : Outcome) (s : State) :
  StaysStopped s0 s -> StaysStopped s0 (settle _ b index r s).
Proof. unfold settle. by repeat case_match. Qed.

Lemma StaysStopped_settleRun (s0 : State) (r : Outcome) (s : State) :
  StaysStopped s0 s -> StaysStopped s0 (settleRun _ r s).
Proof. unfold settleRun. by repeat case_match. Qed.

Lemma StaysStopped_releaseToPool (s0 : State) (page : Page) (s : State) :
  StaysStopped s0 s -> StaysStopped s0 (releaseToPool _ page s).
Proof. unfold releaseToPool. by destruct (Pool.release _ _) as [pool' [w|]]. Qed.

Lemma StaysStopped_retryTask (s0 : State) (t : nat) (s : State) :
  StaysStopped s0 s -> StaysStopped s0 (retryTask _ cancelMessage t s).
Proof. unfold retryTask. by repeat case_match. Qed.

Lemma StaysStopped_failReplacingTask (s0 : State) (e : Error) (t : nat) (s : State) :
  StaysStopped s0 s -> StaysStopped s0 (failReplacingTask _ e t s).
Proof.
  unfold failReplacingTask, rejectTask. intros H. repeat case_match; try done.
  by apply StaysStopped_settleRun.
Qed.

Lemma StaysStopped_dispatch (ev : Event) (s : State) :
  stopped _ s = true -> StaysStopped s (dispatch ev s).
Proof.
  intros Hs. assert (H : StaysStopped s s) by done.
  dispatch_cases ev s; try exact H;
    lazymatch goal with
    | |- StaysStopped _ (throwFrom _ _ _ _ _) => unfold throwFrom; by apply StaysStopped_settle
    | _ => idtac
    end.
  - (* cancel: the signal fires once *)
    rewrite Hs, andb_false_r in Hcs. done.
  - by apply StaysStopped_settle.
  - (* line 287 *)
    congruence.
  - (* the frame is recorded *)
    apply StaysStopped_settle.
    match goal with |- StaysStopped _ (setPc _ _ _ (releaseToPool _ ?p0 ?s0)) =>
      assert (Hrel : StaysStopped s (releaseToPool _ p0 s0))
    end.
    { apply StaysStopped_releaseToPool. by destruct (onFrameBuffer opts). }
    exact Hrel.
  - by apply StaysStopped_settle.
  - by apply StaysStopped_settle.
  - by apply StaysStopped_settleRun.
  - by apply StaysStopped_settleRun.
  - apply foldl_invariant; [intros; by apply StaysStopped_retryTask|].
    unfold refillPool. unfold StaysStopped. simpl.
    apply (foldl_invariant (StaysStopped s)); [intros; by apply StaysStopped_releaseToPool|done].
  - apply foldl_invariant; [intros; by apply StaysStopped_failReplacingTask|done].
  - apply foldl_invariant; [intros; by apply StaysStopped_failReplacingTask|done].
Qed.

(** X6: once the run is stopped it stays stopped and no attempt starts a
    seek any more: an attempt that comes back from the pool finds [stopped]
    set at line 287 and leaves before line 303, and so does every retry. *)
Theorem stopped_run_starts_no_seek (s : State) (evs : list Event)
    (Hstopped : stopped _ s = true) :
  stopped _ (run evs s) = true
  /\ seeks (trace _ (run evs s)) = seeks (trace _ s).
Proof.
  revert s Hstopped. induction evs as [|ev evs IH]; intros s Hs; [done|].
  simpl.
  assert (H : StaysStopped s (step ev s)).
  { rewrite step_eq. unfold joinTasks. destruct (forallb _ _).
    - by apply StaysStopped_settleRun, StaysStopped_dispatch.
    - by apply StaysStopped_dispatch. }
  destruct H as [H1 H2]. destruct (IH _ H1) as [H3 H4]. split; [done|congruence].
Qed.

(** *** Single steps of an attempt *)

Lemma framesRendered_joinTasks (s : State) :
  framesRendered _ (joinTasks _ s) = framesRendered _ s.
Proof. unfold joinTasks, settleRun. by repeat case_match. Qed.

(** X7: when a frame buffer is wanted and [takeFrameAndCompose] resolves
    without one, the attempt throws 'unexpected null buffer' (line 346):
    nothing is recorded or counted, the callback is not called, and the
    attempt keeps its page. *)
Theorem missing_buffer_fails_attempt
    (s : State) (b : nat) (body : Body) (page : Page) (collected : list TAsset)
    (Hbody : bodies _ s !! b = Some body)
    (Hpc : b_pc body = BCapturing page)
    (Hwanted : onFrameBuffer opts = true) :
  let s' := step (EvCaptureDone _ b (Captured _ false collected)) s in
  trace _ s' = OThrow b nullBufferError :: trace _ s
  /\ assets _ s' = assets _ s
  /\ framesRendered _ s' = framesRendered _ s
  /\ pool _ s' = pool _ s
  /\ bodies _ s' !! b = Some (withPc (BFinished (Some page)) body).
Proof.
  cbv zeta.
  rewrite step_eq, trace_joinTasks, assets_joinTasks, framesRendered_joinTasks,
    pool_joinTasks, bodies_joinTasks.
  simpl. unfold captureDone. rewrite Hbody, Hpc. simpl. rewrite Hwanted. simpl.
  unfold throwFrom.
  match goal with |- context [settle _ ?b0 ?i0 ?r0 ?s0] =>
    destruct (settle_fields b0 i0 r0 s0) as (-> & -> & -> & -> & _);
    assert (Hf : framesRendered _ (settle _ b0 i0 r0 s0) = framesRendered _ s0)
      by (unfold settle; by repeat case_match);
    rewrite Hf
  end.
  simpl. by rewrite list_lookup_alter_eq, Hbody, Hpc.
Qed.

(** X8: with the image format 'none' nothing is checked about the output
    mode: whatever [outputDir] and [onFrameBuffer] are, an attempt whose
    seek has resolved goes on to [takeFrameAndCompose] on its page. *)
Theorem format_none_skips_output_check
    (s : State) (b : nat) (body : Body) (page : Page)
    (Hformat : imageFormat opts = "none"%string)
    (Hbody : bodies _ s !! b = Some body)
    (Hpc : b_pc body = BSeeking page) :
  let s' := step (EvSeekDone _ b Fulfilled) s in
  outputModeError opts = None
  /\ trace _ s' = OCapture b page (b_frame body) :: trace _ s
  /\ bodies _ s' !! b = Some (withPc (BCapturing page) body)
  /\ pool _ s' = pool _ s.
Proof.
  cbv zeta.
  assert (Hc : captures opts = false) by (unfold captures; by rewrite Hformat).
  split; [unfold outputModeError; by rewrite Hc, !andb_false_r|].
  rewrite step_eq, trace_joinTasks, bodies_joinTasks, pool_joinTasks.
  simpl. unfold seekDone. rewrite Hbody, Hpc. unfold afterSeek.
  rewrite Hc, !andb_false_r. simpl. by rewrite list_lookup_alter_eq, Hbody.
Qed.

(** X9: when [getPool] has rejected, an attempt that resumes at line 284
    throws that error without touching the pool.  Unless the error is a
    target-closed error that is not a cancellation, the task rethrows it and
    a run that had not settled is rejected with it. *)
Theorem pool_failure_fails_run
    (s : State) (e : Error) (b : nat) (body : Body) (task : Task)
    (Hpool : poolPromise _ s = PoolRejected e)
    (Hbody : bodies _ s !! b = Some body)
    (Hpc : b_pc body = BAwaitPool)
    (Htask : tasks _ s !! b_index body = Some task)
    (Hracing : t_status task = TRacing b)
    (Hfatal : isUserCancelledRender e = true \/ isTargetClosedErr e = false)
    (Hopen : result _ s = None) :
  let s1 := step (EvResume _ b) s in
  let s2 := step (EvCatch _ (b_index body)) s1 in
  trace _ s1 = OThrow b e :: trace _ s
  /\ pool _ s1 = pool _ s
  /\ bodies _ s1 !! b = Some (withPc (BFinished None) body)
  /\ tasks _ s1 !! b_index body = Some (withStatus (TCaught e) task)
  /\ tasks _ s2 !! b_index body = Some (withStatus (TRejected e) task)
  /\ result _ s2 = Some (Rejected e).
Proof.
  cbv zeta.
  assert (Hd : dispatch (EvResume _ b) s
               = setStatus _ (b_index body) (TCaught e)
                   (setPc _ b (BFinished None) (emit _ (OThrow b e) s))).
  { simpl. unfold resume. rewrite Hbody, Hpc. unfold resumeAwaitPool. rewrite Hpool.
    unfold throwFrom, settle. rewrite Hpc. simpl. rewrite Htask, Hracing, Nat.eqb_refl. done. }
  assert (H1 : step (EvResume _ b) s = dispatch (EvResume _ b) s).
  { rewrite step_eq.
    apply (joinTasks_unsettled _ (b_index body) (withStatus (TCaught e) task)); [|done].
    rewrite Hd. simpl. by rewrite list_lookup_alter_eq, Htask. }
  rewrite H1, Hd. clear H1 Hd.
  set (s1 := setStatus _ _ _ _).
  assert (Ht1 : tasks _ s1 !! b_index body = Some (withStatus (TCaught e) task)).
  { unfold s1. simpl. by rewrite list_lookup_alter_eq, Htask. }
  split; [done|]. split; [done|].
  split; [unfold s1; simpl; by rewrite list_lookup_alter_eq, Hbody|].
  split; [done|].
  rewrite step_eq, tasks_joinTasks.
  assert (Hd2 : dispatch (EvCatch _ (b_index body)) s1
                = rejectTask _ (b_index body) e s1).
  { simpl. unfold catch. rewrite Ht1. simpl. unfold catchBlock, catchDecision.
    destruct Hfatal as [Hc|Ht]; [by rewrite Hc|].
    rewrite Ht. simpl. by destruct (isUserCancelledRender e). }
  rewrite Hd2. unfold rejectTask.
  match goal with |- context [settleRun _ ?r0 ?s0] =>
    destruct (settleRun_fields r0 s0) as (_ & _ & _ & _ & _ & _ & -> & _)
  end.
  split.
  - simpl. rewrite list_lookup_alter_eq, list_lookup_alter_eq, Htask. done.
  - unfold joinTasks, settleRun. simpl. rewrite Hopen. by destruct (forallb _ _).
Qed.

(** X10: a frame task is fulfilled only with its frame recorded: its
    slot holds a record, unless the run has been rejected (line 423 lets a
    task of a stopped run return without a frame).  A stopped run has
    settled, and a fulfilled run has only fulfilled tasks. *)
Theorem fulfilled_task_has_record (cancelled : bool) (evs : list Event) :
  let s := run evs (initialState cancelled) in
  (forall i task, tasks _ s !! i = Some task -> t_status task = TFulfilled ->
     slotFilled s i \/ runRejected s)
  /\ (stopped _ s = true -> result _ s <> None)
  /\ (result _ s = Some Fulfilled ->
      forall i task, tasks _ s !! i = Some task -> t_status task = TFulfilled).
Proof.
  cbv zeta. apply ResInv_reachable. by exists cancelled, evs.
Qed.

(** *** The order of an attempt's steps *)

(** What the observations must hold for an attempt at a given line. *)
Definition PcOK (tr : list Obs) (b : nat) (body : Body) : Prop :=
  (forall page, heldPage (b_pc body) = Some page -> In (OAcquire b page) tr)
  /\ (forall page, b_pc body = BSeeking page \/ b_pc body = BCapturing page ->
        In (OSeek b page (b_frame body)) tr)
  /\ (forall page, b_pc body = BCapturing page -> In (OCapture b page (b_frame body)) tr).

Definition TraceOK (tr : list Obs) : Prop :=
  (forall b page frame, In (OSeek b page frame) tr -> In (OAcquire b page) tr)
  /\ (forall b page frame, In (OCapture b page frame) tr -> In (OSeek b page frame) tr)
  /\ (forall b page, In (ORelease b page) tr -> exists frame, In (OCapture b page frame) tr).

Definition ProtoInv (s : State) : Prop :=
  TraceOK (trace _ s)
  /\ forall b body, bodies _ s !! b = Some body -> PcOK (trace _ s) b body.

Definition obsAllowed (o : Obs) (tr : list Obs) : Prop :=
  match o with
  | OSeek b page _ => In (OAcquire b page) tr
  | OCapture b page frame => In (OSeek b page frame) tr
  | ORelease b page => exists frame, In (OCapture b page frame) tr
  | _ => True
  end.

Lemma PcOK_cons (o : Obs) (tr : list Obs) (b : nat) (body : Body) :
  PcOK tr b body -> PcOK (o :: tr) b body.
Proof. intros (H1 & H2 & H3). repeat split; intros page Hp; right; eauto. Qed.

Lemma PcOK_idle (tr : list Obs) (b : nat) (body : Body) :
  heldPage (b_pc body) = None -> PcOK tr b body.
Proof.
  intros Hh. repeat split; intros page Hp.
  - congruence.
  - destruct Hp as [Hp|Hp]; rewrite Hp in Hh; done.
  - rewrite Hp in Hh. done.
Qed.

Lemma ProtoInv_frame (s s' : State) :
  trace _ s' = trace _ s -> bodies _ s' = bodies _ s -> ProtoInv s -> ProtoInv s'.
Proof. unfold ProtoInv. by intros -> ->. Qed.

Lemma TraceOK_cons (o : Obs) (tr : list Obs) :
  obsAllowed o tr -> TraceOK tr -> TraceOK (o :: tr).
Proof.
  intros Ho (H1 & H2 & H3). split; [|split].
  - intros b page frame [->|Hin]; [by right|]. right. eauto.
  - intros b page frame [->|Hin]; [by right|]. right. eauto.
  - intros b page [->|Hin].
    + destruct Ho as [frame Hf]. exists frame. by right.
    + destruct (H3 _ _ Hin) as [frame Hf]. exists frame. by right.
Qed.

Lemma ProtoInv_emit (o : Obs) (s : State) :
  obsAllowed o (trace _ s) -> ProtoInv s -> ProtoInv (emit _ o s).
Proof.
  intros Ho [HT HB]. split; [by apply TraceOK_cons|].
  intros b body Hb. apply PcOK_cons. by apply HB.
Qed.

(** Attempt [b] moves to [pc] and [o] is observed. *)
Lemma ProtoInv_advance (o : Obs) (b : nat) (pc : BodyPc) (s : State) :
  obsAllowed o (trace _ s) ->
  (forall body, bodies _ s !! b = Some body -> PcOK (o :: trace _ s) b (withPc pc body)) ->
  ProtoInv s -> ProtoInv (emit _ o (setPc _ b pc s)).
Proof.
  intros Ho Hpc [HT HB]. split; [by apply TraceOK_cons|].
  intros b' body Hb'. simpl in Hb'.
  apply lookup_alter_Some in Hb' as [(-> & x & Hx & ->)|(_ & Hx)]; [by apply Hpc|].
  apply PcOK_cons. by apply HB.
Qed.

Lemma ProtoInv_setPc (b : nat) (pc : BodyPc) (s : State) :
  (forall body, bodies _ s !! b = Some body -> PcOK (trace _ s) b (withPc pc body)) ->
  ProtoInv s -> ProtoInv (setPc _ b pc s).
Proof.
  intros Hpc [HT HB]. split; [done|].
  intros b' body Hb'. simpl in Hb'.
  apply lookup_alter_Some in Hb' as [(-> & x & Hx & ->)|(_ & Hx)]; [by apply Hpc|by apply HB].
Qed.

Lemma ProtoInv_settleRun (r : Outcome) (s : State) : ProtoInv s -> ProtoInv (settleRun _ r s).
Proof. unfold settleRun. destruct (result _ s); [done|]. by apply ProtoInv_frame. Qed.

Lemma ProtoInv_joinTasks (s : State) : ProtoInv s -> ProtoInv (joinTasks _ s).
Proof. unfold joinTasks. destruct (forallb _ _); [|done]. apply ProtoInv_settleRun. Qed.

Lemma ProtoInv_settle (b index : nat) (r : Outcome) (s : State) :
  ProtoInv s -> ProtoInv (settle _ b index r s).
Proof.
  destruct (settle_fields b index r s) as (_ & Ht & Hb & _). by apply ProtoInv_frame.
Qed.

(** An attempt ends early and keeps what it holds. *)
Lemma ProtoInv_finish (b : nat) (body : Body) (o : Obs) (s : State) :
  bodies _ s !! b = Some body ->
  match o with OSeek _ _ _ | OCapture _ _ _ | ORelease _ _ => False | _ => True end ->
  ProtoInv s -> ProtoInv (setPc _ b (BFinished (heldPage (b_pc body))) (emit _ o s)).
Proof.
  intros Hb Ho H. apply ProtoInv_setPc; [|apply ProtoInv_emit; [by destruct o|done]].
  intros body' Hb'. simpl in Hb'. assert (body' = body) as -> by congruence.
  destruct H as [_ HB]. destruct (HB _ _ Hb) as (H1 & _).
  repeat split; simpl; try done; try (by intros page [?|?]).
  intros page Hp. right. by apply H1.
Qed.

Lemma ProtoInv_throwFrom (b : nat) (body : Body) (e : Error) (s : State) :
  bodies _ s !! b = Some body -> ProtoInv s -> ProtoInv (throwFrom _ b body e s).
Proof. intros Hb H. unfold throwFrom. by apply ProtoInv_settle, ProtoInv_finish. Qed.

Lemma ProtoInv_rejectTask (t : nat) (e : Error) (s : State) :
  ProtoInv s -> ProtoInv (rejectTask _ t e s).
Proof. intros H. apply ProtoInv_settleRun. by eapply ProtoInv_frame; [..|exact H]. Qed.

(** An attempt is handed a page. *)
Lemma ProtoInv_handed (b : nat) (page : Page) (pl : Pool.t) (s : State) :
  ProtoInv s -> ProtoInv (emit _ (OAcquire b page) (setPc _ b (BHolding page) (setPool _ pl s))).
Proof.
  intros H. apply ProtoInv_advance; [done| |by eapply ProtoInv_frame; [..|exact H]].
  intros body Hb. repeat split; simpl; try done; try (by intros p [?|?]).
  intros p [= <-]. by left.
Qed.

Lemma ProtoInv_releaseToPool (page : Page) (s : State) :
  ProtoInv s -> ProtoInv (releaseToPool _ page s).
Proof.
  intros H. unfold releaseToPool. destruct (Pool.release _ _) as [pool' [w|]].
  - by apply ProtoInv_handed.
  - by eapply ProtoInv_frame; [..|exact H].
Qed.

Lemma ProtoInv_retryTask (t : nat) (s : State) :
  ProtoInv s -> ProtoInv (retryTask _ cancelMessage t s).
Proof.
  intros H. unfold retryTask.
  destruct (tasks _ s !! t) as [task|] eqn:Ht; [|done].
  destruct (t_status task); try done.
  destruct H as [HT HB]. split; [done|]. simpl.
  intros b body Hb. apply lookup_app_Some in Hb as [Hb|[_ Hb]]; [by apply HB|].
  apply list_lookup_singleton_Some in Hb as [_ <-]. by apply PcOK_idle.
Qed.

Lemma ProtoInv_failReplacingTask (e : Error) (t : nat) (s : State) :
  ProtoInv s -> ProtoInv (failReplacingTask _ e t s).
Proof.
  intros H. unfold failReplacingTask. repeat case_match; try done. by apply ProtoInv_rejectTask.
Qed.

Lemma ProtoInv_dispatch (ev : Event) (s : State) : ProtoInv s -> ProtoInv (dispatch ev s).
Proof.
  intros H. dispatch_cases ev s; try exact H;
    on_throw ltac:(by apply ProtoInv_throwFrom);
    not_fold ltac:(try (by eapply ProtoInv_frame; [..|exact H]));
    not_fold ltac:(try (by apply ProtoInv_rejectTask; try apply ProtoInv_emit));
    not_fold ltac:(try (by apply ProtoInv_handed)).
  - (* cancel *)
    apply ProtoInv_settleRun. by eapply ProtoInv_frame; [..|exact H].
  - (* line 285, no idle page *)
    apply ProtoInv_setPc; [|by eapply ProtoInv_frame; [..|exact H]].
    intros body' _. by apply PcOK_idle.
  - (* line 288 *)
    apply ProtoInv_settle.
    replace (Some page) with (heldPage (b_pc body)) by by rewrite Hpc.
    by apply ProtoInv_finish.
  - (* line 303 *)
    destruct H as [HT HB]. destruct (HB _ _ Hb) as (H1 & _).
    assert (Hacq : In (OAcquire b page) (trace _ s)) by (apply H1; by rewrite Hpc).
    apply ProtoInv_advance; [done| |done].
    intros body' Hb'. assert (body' = body) as -> by congruence.
    repeat split; simpl.
    + intros p [= <-]. by right.
    + intros p [[= <-]|?]; [by left|done].
    + done.
  - (* line 321 *)
    destruct H as [HT HB]. destruct (HB _ _ Hb) as (H1 & H2 & _).
    assert (Hacq : In (OAcquire b page) (trace _ s)) by (apply H1; by rewrite Hpc).
    assert (Hseek : In (OSeek b page (b_frame body)) (trace _ s)) by (apply H2; by left).
    apply ProtoInv_advance; [done| |done].
    intros body' Hb'. assert (body' = body) as -> by congruence.
    repeat split; simpl.
    + intros p [= <-]. by right.
    + intros p [?|[= <-]]; [done|by right].
    + intros p [= <-]. by left.
  - (* the frame is recorded *)
    destruct H as [HT HB]. destruct (HB _ _ Hb) as (_ & _ & H3).
    assert (Hcap : In (OCapture b page (b_frame body)) (trace _ s)) by by apply H3.
    apply ProtoInv_settle, ProtoInv_setPc; [intros body' _; by apply PcOK_idle|].
    apply ProtoInv_releaseToPool, ProtoInv_emit.
    { exists (b_frame body). simpl. destruct (onFrameBuffer opts); simpl; tauto. }
    apply ProtoInv_emit; [done|].
    eapply ProtoInv_frame with (s := emit _ (OWrite b (b_index body)) _); [done|done|].
    apply ProtoInv_emit; [done|].
    destruct (onFrameBuffer opts).
    + eapply ProtoInv_frame with (s := emit _ (OFrameBuffer (b_frame body)) s); [done|done|].
      by apply ProtoInv_emit.
    + by eapply ProtoInv_frame with (s := s).
  - by apply ProtoInv_settle, ProtoInv_emit.
  - by apply ProtoInv_settle, ProtoInv_emit.
  - eapply ProtoInv_frame with (s := emit _ (OWarnRetry (t_frame task) (S retries)) s);
      [done|done|]. by apply ProtoInv_emit.
  - apply ProtoInv_emit; [done|].
    eapply ProtoInv_frame with (s := emit _ (OWarnRetry (t_frame task) (S retries)) s);
      [done|done|]. by apply ProtoInv_emit.
  - (* refill and retry *)
    apply foldl_invariant; [intros; by apply ProtoInv_retryTask|].
    eapply ProtoInv_frame with (s := refillPool _ opts s); [done|done|].
    unfold refillPool.
    eapply ProtoInv_frame with (s := foldl _ _ _); [done|done|].
    apply foldl_invariant; [intros; by apply ProtoInv_releaseToPool|].
    apply ProtoInv_emit; [done|]. by eapply ProtoInv_frame; [..|exact H].
  - apply foldl_invariant; [intros; by apply ProtoInv_failReplacingTask|].
    by eapply ProtoInv_frame; [..|exact H].
  - apply foldl_invariant; [intros; by apply ProtoInv_failReplacingTask|].
    by eapply ProtoInv_frame; [..|exact H].
Qed.

Lemma ProtoInv_initial (cancelled : bool) : ProtoInv (initialState cancelled).
Proof.
  apply ProtoInv_joinTasks. split; simpl.
  - repeat split; intros; done.
  - intros b body Hb. apply list_lookup_imap_Some in Hb as (x & Hx & ->). by apply PcOK_idle.
Qed.

(** X11: an attempt takes its steps in order.  Every seek is on a page
    the attempt was handed before, every capture follows a seek of the same
    attempt to the same frame on the same page, and a page is released only
    by an attempt that captured on it.  An attempt that is seeking or
    capturing has sought the frame it carries. *)
Theorem attempt_steps_in_order (cancelled : bool) (evs : list Event) :
  let s := run evs (initialState cancelled) in
  (forall b page frame, In (OSeek b page frame) (trace _ s) -> In (OAcquire b page) (trace _ s))
  /\ (forall b page frame,
        In (OCapture b page frame) (trace _ s) -> In (OSeek b page frame) (trace _ s))
  /\ (forall b page,
        In (ORelease b page) (trace _ s) -> exists frame, In (OCapture b page frame) (trace _ s))
  /\ (forall b body page,
        bodies _ s !! b = Some body ->
        b_pc body = BSeeking page \/ b_pc body = BCapturing page ->
        In (OSeek b page (b_frame body)) (trace _ s)).
Proof.
  cbv zeta.
  assert (H : ProtoInv (run evs (initialState cancelled))).
  { apply run_invariant; [|apply ProtoInv_initial].
    intros ev s H. rewrite step_eq. by apply ProtoInv_joinTasks, ProtoInv_dispatch. }
  destruct H as [(H1 & H2 & H3) HB].
  split; [done|split; [done|split; [done|]]].
  intros b body page Hb Hpc. destruct (HB _ _ Hb) as (_ & H & _). by apply H.
Qed.

(** *** The outcome of the run *)

Lemma result_settle (b index : nat) (r : Outcome) (s : State) :
  result _ (settle _ b index r s) = result _ s.
Proof. unfold settle. repeat case_match; reflexivity. Qed.

Lemma result_settleRun (r0 r : Outcome) (s : State) :
  result _ s = Some r0 -> result _ (settleRun _ r s) = Some r0.
Proof. unfold settleRun. intros H. by rewrite H. Qed.

Lemma result_releaseToPool (page : Page) (s : State) :
  result _ (releaseToPool _ page s) = result _ s.
Proof. unfold releaseToPool. by destruct (Pool.release _ _) as [pool' [w|]]. Qed.

Lemma result_retryTask (t : nat) (s : State) :
  result _ (retryTask _ cancelMessage t s) = result _ s.
Proof. unfold retryTask. by repeat case_match. Qed.

Lemma result_failReplacingTask (r0 : Outcome) (e : Error) (t : nat) (s : State) :
  result _ s = Some r0 -> result _ (failReplacingTask _ e t s) = Some r0.
Proof.
  unfold failReplacingTask, rejectTask. intros H. repeat case_match; try done.
  by apply result_settleRun.
Qed.

Lemma result_dispatch (r0 : Outcome) (ev : Event) (s : State) :
  result _ s = Some r0 -> result _ (dispatch ev s) = Some r0.
Proof.
  intros H.
  dispatch_cases ev s; try exact H;
    unfold throwFrom, pageError, rejectTask;
    rewrite ?result_settle; try exact H;
    try (by apply result_settleRun).
  - match goal with |- result _ (setPc _ _ _ ?x) = _ => change (result _ x = Some r0) end.
    rewrite result_releaseToPool. by destruct (onFrameBuffer opts).
  - apply (foldl_invariant (fun x => result _ x = Some r0));
      [by intros x t Hx; rewrite result_retryTask|].
    unfold refillPool. simpl.
    apply (foldl_invariant (fun x => result _ x = Some r0));
      [by intros x p Hx; rewrite result_releaseToPool|done].
  - apply (foldl_invariant (fun x => result _ x = Some r0));
      [intros x t Hx; by apply result_failReplacingTask|done].
  - apply (foldl_invariant (fun x => result _ x = Some r0));
      [intros x t Hx; by apply result_failReplacingTask|done].
Qed.

Lemma result_final (r0 : Outcome) (evs : list Event) (s : State) :
  result _ s = Some r0 -> result _ (run evs s) = Some r0.
Proof.
  apply (run_invariant (fun x => result _ x = Some r0)).
  intros ev x Hx. rewrite step_eq. unfold joinTasks.
  destruct (forallb _ _); [apply result_settleRun|]; by apply result_dispatch.
Qed.

(** X17: when a cancel signal was passed and fires in a run that has not
    settled, the run is rejected with the cancellation error at once, and
    stays so whatever the attempts still do; the run is stopped, and every
    task that was racing an attempt has caught the cancellation error. *)
Theorem cancel_rejects_unsettled_run (s : State) (evs : list Event)
    (Hsignal : cancelSignal opts = true)
    (Hrunning : stopped _ s = false)
    (Hopen : result _ s = None) :
  let s' := step (EvCancel _) s in
  stopped _ s' = true
  /\ result _ s' = Some (Rejected cancelErr)
  /\ result _ (run evs s') = Some (Rejected cancelErr)
  /\ (forall t task b, tasks _ s !! t = Some task -> t_status task = TRacing b ->
        tasks _ s' !! t = Some (withStatus (TCaught cancelErr) task)).
Proof.
  cbv zeta.
  assert (Hd : dispatch (EvCancel _) s
               = setResult _ (Some (Rejected cancelErr))
                   (setTasks _ (map (cancelTask cancelMessage) (tasks _ s))
                      (setStopped _ true s))).
  { simpl. unfold fireCancel. rewrite Hsignal, Hrunning. simpl.
    unfold settleRun. simpl. by rewrite Hopen. }
  assert (Hres : result _ (step (EvCancel _) s) = Some (Rejected cancelErr)).
  { rewrite step_eq, Hd. unfold joinTasks. by destruct (forallb _ _). }
  split; [|split; [done|split; [by apply result_final|]]].
  - rewrite step_eq. rewrite (proj2 (proj2 (proj2 (proj2 (proj2 (proj2 (proj2
      (joinTasks_fields _)))))))). by rewrite Hd.
  - intros t task b Ht Hst. rewrite step_eq, tasks_joinTasks, Hd. simpl.
    rewrite list_lookup_fmap, Ht. simpl. unfold cancelTask. by rewrite Hst.
Qed.

End EngineProperties.

(** ** The manifest of a successful run *)

(** The decimal numeral [stringOfNat] writes reads back as the number. *)
Lemma stringOfNat_decimal (n : nat) :
  NilEmpty.uint_of_string (stringOfNat n) = Some (Nat.to_uint n).
Proof. unfold stringOfNat. apply NilEmpty.usu. Qed.

(** C6: a run over the frames of a plan that ends fulfilled resolves with
    the manifest of lines 467-479.  Its asset records are the asset array of
    the run, one slot per planned frame and every slot filled; its naming
    template is [element-%0], the decimal numeral of the plan's padding
    width, [d.] and the image format; its first index is 0 when numbering
    from zero and the first planned frame when numbering by actual frames;
    its frame count is the number of planned frames. *)
Theorem manifest_of_successful_run
    (TAsset : Type) (compressAsset : list TAsset -> TAsset -> TAsset)
    (isUserCancelledRender isTargetClosedErr : Error -> bool) (cancelMessage : string)
    (opts : Options)
    (widthOfLastFrame : option Z -> nat) (widthOfFrameCount : nat -> nat)
    (durationInFrames : Z) (frameRange : option (Z * Z)) (everyNthFrame : Z)
    (cancelled : bool) (evs : list (Event TAsset))
    (Hfulfilled :
       result TAsset
         (run TAsset compressAsset isUserCancelledRender isTargetClosedErr cancelMessage opts
            evs
            (initialState TAsset cancelMessage opts
               (framesToRender (makePlan widthOfLastFrame widthOfFrameCount
                                  durationInFrames frameRange everyNthFrame))
               cancelled))
       = Some Fulfilled) :
  let plan := makePlan widthOfLastFrame widthOfFrameCount
                durationInFrames frameRange everyNthFrame in
  let s := run TAsset compressAsset isUserCancelledRender isTargetClosedErr cancelMessage opts
             evs (initialState TAsset cancelMessage opts (framesToRender plan) cancelled) in
  exists out digits,
    resolvedOutput TAsset opts plan s = Some out
    /\ ai_assets (assetsInfo out) = assets TAsset s
    /\ length (ai_assets (assetsInfo out)) = length (framesToRender plan)
    /\ (forall i, (i < length (framesToRender plan))%nat ->
          exists record, ai_assets (assetsInfo out) !! i = Some (Some record))
    /\ imageSequenceName (assetsInfo out)
       = ("element-%0" ++ digits ++ "d." ++ imageFormat opts)%string
    /\ NilEmpty.uint_of_string digits = Some (Nat.to_uint (filePadLength plan))
    /\ firstFrameIndex (assetsInfo out)
       = (if everyNthFrame =? 1 then head (framesToRender plan) else Some 0)
    /\ (planCountType plan = FromZero -> firstFrameIndex (assetsInfo out) = Some 0)
    /\ (planCountType plan = ActualFrames ->
        firstFrameIndex (assetsInfo out) = head (framesToRender plan))
    /\ frameCount out = length (framesToRender plan).
Proof.
  cbv zeta.
  set (plan := makePlan widthOfLastFrame widthOfFrameCount
                 durationInFrames frameRange everyNthFrame) in *.
  set (s := run TAsset compressAsset isUserCancelledRender isTargetClosedErr cancelMessage
              opts evs _) in *.
  assert (Hr : reachable TAsset compressAsset isUserCancelledRender isTargetClosedErr
                 cancelMessage opts (framesToRender plan) s) by by exists cancelled, evs.
  destruct (fulfilled_run_output TAsset compressAsset isUserCancelledRender isTargetClosedErr
              cancelMessage opts (framesToRender plan) plan s Hr Hfulfilled)
    as (Hout & Hlen & Hfilled).
  destruct (happyPath_of_plan TAsset widthOfLastFrame widthOfFrameCount durationInFrames
              frameRange everyNthFrame (imageFormat opts) (assets TAsset s))
    as (H1 & H2 & H3 & H4 & H5 & H6).
  subst plan.
  exists (happyPath (makePlan widthOfLastFrame widthOfFrameCount durationInFrames frameRange
                       everyNthFrame) (imageFormat opts) (assets TAsset s)),
         (stringOfNat (filePadLength (makePlan widthOfLastFrame widthOfFrameCount durationInFrames
                                        frameRange everyNthFrame))).
  split; [exact Hout|]. split; [exact H1|]. split; [by rewrite H1|].
  split; [intros i Hi; rewrite H1; by apply Hfilled|].
  split; [exact H2|]. split; [apply stringOfNat_decimal|].
  split; [exact H3|]. split; [exact H4|]. split; [exact H5|exact H6].
Qed.

(** ** Concrete runs *)

(** A render of numbered assets, with errors told apart by their message. *)
Definition exCancelMessage : string := "renderFrames() got cancelled"%string.
Definition exTargetClosed : Error := mkError "Target closed"%string.
Definition exIsCancel (e : Error) : bool := String.eqb (message e) exCancelMessage.
Definition exIsTargetClosed (e : Error) : bool := String.eqb (message e) "Target closed"%string.
Definition exCompress (_ : list nat) (a : nat) : nat := a.

Definition exOpts (concurrency : nat) (cancellable : bool) : Options :=
  mkOptions (Some "out"%string) false "png"%string concurrency cancellable.

(** Neither an output directory nor a frame-buffer callback. *)
Definition exNoOutput : Options := mkOptions None false "png"%string 1 false.

Definition exStart (o : Options) (frames : list Z) (cancelled : bool) : State nat :=
  initialState nat exCancelMessage o frames cancelled.

Definition exRun (o : Options) (frames : list Z) (cancelled : bool)
    (evs : list (Event nat)) : State nat :=
  run nat exCompress exIsCancel exIsTargetClosed exCancelMessage o evs
    (exStart o frames cancelled).

(** Every crash is followed by a successful replacement; every attempt
    meets a target-closed error. *)
Definition exAlwaysCrashing (_ : nat) : AttemptEnv :=
  mkAttemptEnv (Rejected exTargetClosed) false Fulfilled.


Lemma catch_classification_witness :
  raceOutcome (exAlwaysCrashing 1%nat) = Rejected exTargetClosed
  /\ In TReplaceBrowser
       (renderFrameAndRetryTargetClose exIsCancel exIsTargetClosed exAlwaysCrashing 7 3 1 1).1.
Proof.
  split; [reflexivity|].
  destruct (catch_classification exIsCancel exIsTargetClosed exAlwaysCrashing 7 3 1 1
              exTargetClosed eq_refl) as (_ & _ & _ & H).
  apply (H (conj eq_refl eq_refl) eq_refl 0%nat eq_refl).
Defined.

(** The signal had fired before the run started; the first attempt still
    acquires a page (line 285) before it looks at [stopped] (line 287). *)
Lemma cancelled_attempt_still_acquires :
  let s := exRun (exOpts 1 true) [0] true [EvPoolReady nat; EvResume nat 0] in
  stopped nat s = true
  /\ result nat s = Some (Rejected (cancelError exCancelMessage))
  /\ bodies nat s = [mkBody 0 0 (BHolding 0%nat)]
  /\ Pool.busy (pool nat s) = [0%nat]
  /\ Pool.resources (pool nat s) = []
  /\ trace nat s = [OAcquire 0 0%nat].
Proof. vm_compute. repeat split. Qed.

Lemma cancelled_run_captures_nothing_witness :
  cancelSignal (exOpts 1 true) = true
  /\ exIsCancel (cancelError exCancelMessage) = true
  /\ quietRun nat exCompress exIsCancel exIsTargetClosed exCancelMessage (exOpts 1 true)
       [EvPoolReady nat; EvResume nat 0] (exStart (exOpts 1 true) [0; 1] false) = true
  /\ CancelledEarly nat exCancelMessage [0; 1]
       (exRun (exOpts 1 true) [0; 1] false
          ([EvPoolReady nat; EvResume nat 0]
           ++ EvCancel nat :: [EvResume nat 0; EvCatch nat 0])).
Proof.
  assert (Hq : quietRun nat exCompress exIsCancel exIsTargetClosed exCancelMessage
                 (exOpts 1 true) [EvPoolReady nat; EvResume nat 0]
                 (exStart (exOpts 1 true) [0; 1] false) = true) by (vm_compute; reflexivity).
  split; [reflexivity|]. split; [reflexivity|]. split; [exact Hq|].
  apply (cancelled_run_captures_nothing nat exCompress exIsCancel exIsTargetClosed
           exCancelMessage (exOpts 1 true) [0; 1]
           [EvPoolReady nat; EvResume nat 0] [EvResume nat 0; EvCatch nat 0]
           eq_refl eq_refl ltac:(discriminate) Hq).
Defined.

(** Without any output mode the error of line 306 is thrown after the
    page was acquired and sought to the frame. *)
Lemma output_mode_error_after_acquire_and_seek :
  let s := exRun exNoOutput [0] false
             [EvPoolReady nat; EvResume nat 0; EvResume nat 0; EvSeekDone nat 0 Fulfilled] in
  trace nat s = [OThrow 0 neitherOutputError; OSeek 0 0%nat 0; OAcquire 0 0%nat]
  /\ Pool.busy (pool nat s) = [0%nat]
  /\ bodies nat s = [mkBody 0 0 (BFinished (Some 0%nat))].
Proof. vm_compute. repeat split. Qed.

Lemma output_mode_error_raised_after_seek_witness :
  outputModeError exNoOutput = Some neitherOutputError
  /\ NoCapture nat [0]
       (exRun exNoOutput [0] false
          [EvPoolReady nat; EvResume nat 0; EvResume nat 0; EvSeekDone nat 0 Fulfilled]).
Proof.
  split; [reflexivity|].
  destruct (output_mode_error_raised_after_seek nat exCompress exIsCancel exIsTargetClosed
              exCancelMessage exNoOutput [0] neitherOutputError eq_refl)
    as (_ & _ & _ & H & _).
  exact (H false _).
Defined.


(** One page, two frames: the browser is replaced while the second
    attempt holds the only page.  After the refill two pages are marked
    busy. *)
Lemma refill_grows_pool_past_concurrency :
  let s := exRun (exOpts 1 false) [0; 1] false
             [EvPoolReady nat; EvResume nat 0; EvResume nat 1; EvResume nat 0;
              EvSeekDone nat 0 (Rejected exTargetClosed); EvCatch nat 0; EvReplaced nat] in
  actualConcurrency (exOpts 1 false) = 1%nat
  /\ Pool.busyCount (pool nat s) = 2%nat
  /\ Pool.idleCount (pool nat s) = 0%nat
  /\ refills nat s = 1%nat.
Proof. vm_compute. repeat split. Qed.

Lemma concurrent_crashes_share_one_replacement_witness :
  let s := exRun (exOpts 2 false) [0; 1] false
             [EvPoolReady nat; EvResume nat 0; EvResume nat 1; EvResume nat 0; EvResume nat 1;
              EvSeekDone nat 0 (Rejected exTargetClosed);
              EvSeekDone nat 1 (Rejected exTargetClosed)] in
  let s2 := run nat exCompress exIsCancel exIsTargetClosed exCancelMessage (exOpts 2 false)
              [EvCatch nat 0; EvCatch nat 1] s in
  let s3 := step nat exCompress exIsCancel exIsTargetClosed exCancelMessage (exOpts 2 false)
              (EvReplaced nat) s2 in
  replacing nat s = false
  /\ replacementCycles (trace nat s2) = 1%nat
  /\ refillCount (trace nat s3) = 1%nat
  /\ poolTotal nat s3 = 4%nat
  /\ retried nat (mkTask 0 0 1 1 (TCaught exTargetClosed)) 0 s3
  /\ retried nat (mkTask 1 1 1 1 (TCaught exTargetClosed)) 1 s3.
Proof.
  cbv zeta.
  set (s := exRun (exOpts 2 false) [0; 1] false _).
  assert (Hreach : reachable nat exCompress exIsCancel exIsTargetClosed exCancelMessage
                     (exOpts 2 false) [0; 1] s).
  { exists false. eexists. reflexivity. }
  assert (Hcrash : crashClass exIsCancel exIsTargetClosed exTargetClosed) by (split; reflexivity).
  pose proof (concurrent_crashes_share_one_replacement nat exCompress exIsCancel
                exIsTargetClosed exCancelMessage (exOpts 2 false) [0; 1] s 0 1
                (mkTask 0 0 1 1 (TCaught exTargetClosed))
                (mkTask 1 1 1 1 (TCaught exTargetClosed))
                exTargetClosed exTargetClosed Hreach ltac:(discriminate)
                ltac:(vm_compute; reflexivity) ltac:(vm_compute; reflexivity)
                ltac:(vm_compute; reflexivity) eq_refl Hcrash ltac:(discriminate)
                ltac:(vm_compute; reflexivity) eq_refl Hcrash ltac:(discriminate)) as H.
  cbv zeta in H.
  destruct H as (_ & H2 & _ & _ & _ & _ & _ & _ & H9 & H10 & H11 & H12).
  split; [vm_compute; reflexivity|].
  split; [rewrite H2; vm_compute; reflexivity|].
  split; [rewrite H9; vm_compute; reflexivity|].
  split; [rewrite H10; vm_compute; reflexivity|].
  split; [exact H11|exact H12].
Defined.

(** A page error rejects the task with an error that is not retried, and
    the attempt goes on: it records its frame and releases its page. *)
Lemma rejected_attempt_still_releases :
  let failure := mkError "ReferenceError"%string in
  let s := exRun (exOpts 1 false) [0] false
             [EvPoolReady nat; EvResume nat 0; EvResume nat 0;
              EvPageError nat 0 failure; EvCatch nat 0;
              EvSeekDone nat 0 Fulfilled; EvCaptureDone nat 0 (Captured nat false [])] in
  result nat s = Some (Rejected failure)
  /\ tasks nat s = [mkTask 0 0 1 1 (TRejected failure)]
  /\ releases (trace nat s) = [ORelease 0 0%nat]
  /\ Pool.resources (pool nat s) = [0%nat]
  /\ Pool.busy (pool nat s) = [].
Proof. vm_compute. repeat split. Qed.

(** A seek that fails leaves the page with the attempt for good. *)
Lemma page_released_only_by_recorded_frame_witness :
  let s := exRun (exOpts 1 false) [0] false
             [EvPoolReady nat; EvResume nat 0; EvResume nat 0] in
  let s' := step nat exCompress exIsCancel exIsTargetClosed exCancelMessage (exOpts 1 false)
              (EvSeekDone nat 0 (Rejected exTargetClosed)) s in
  bodies nat s = [mkBody 0 0 (BSeeking 0%nat)]
  /\ pool nat s' = pool nat s
  /\ releases (trace nat s') = releases (trace nat s)
  /\ 0%nat ∈ Pool.busy
               (pool nat
                  (run nat exCompress exIsCancel exIsTargetClosed exCancelMessage
                     (exOpts 1 false) [EvCatch nat 0; EvReplaced nat] s')).
Proof.
  cbv zeta.
  pose proof (page_released_only_by_recorded_frame nat exCompress exIsCancel exIsTargetClosed
                exCancelMessage (exOpts 1 false) [0] false
                [EvPoolReady nat; EvResume nat 0; EvResume nat 0]
                (EvSeekDone nat 0 (Rejected exTargetClosed))) as H.
  cbv zeta in H. destruct H as (_ & H & _).
  destruct (H 0%nat (mkBody 0 0 (BSeeking 0%nat)) 0%nat) as (Hp & Hr & Hk);
    [vm_compute; reflexivity|reflexivity|reflexivity|].
  split; [vm_compute; reflexivity|]. split; [exact Hp|]. split; [exact Hr|].
  exact (proj1 (proj2 (Hk [EvCatch nat 0; EvReplaced nat]))).
Defined.

(** Two frames rendered on two pages, numbered by actual frames, with a
    padding width of 2. *)
Definition exWidth2 (_ : option Z) : nat := 2.
Definition exWidth1 (_ : nat) : nat := 1.

Lemma manifest_of_successful_run_witness :
  let plan := makePlan exWidth2 exWidth1 2 None 1 in
  let s := run nat exCompress exIsCancel exIsTargetClosed exCancelMessage (exOpts 2 false)
             [EvPoolReady nat; EvResume nat 0; EvResume nat 1; EvResume nat 0; EvResume nat 1;
              EvSeekDone nat 0 Fulfilled; EvSeekDone nat 1 Fulfilled;
              EvCaptureDone nat 0 (Captured nat false [10%nat]);
              EvCaptureDone nat 1 (Captured nat false [11%nat])]
             (initialState nat exCancelMessage (exOpts 2 false) (framesToRender plan) false) in
  result nat s = Some Fulfilled
  /\ resolvedOutput nat (exOpts 2 false) plan s
     = Some (mkOutput nat
               (mkAssetsInfo nat [Some [10%nat]; Some [11%nat]] "element-%02d.png"%string
                  (Some 0))
               2)
  /\ exists out, resolvedOutput nat (exOpts 2 false) plan s = Some out
                 /\ frameCount out = length (framesToRender plan).
Proof.
  cbv zeta.
  match goal with |- ?R = _ /\ _ => assert (Hres : R = Some Fulfilled) by (vm_compute; reflexivity) end.
  split; [exact Hres|]. split; [vm_compute; reflexivity|].
  destruct (manifest_of_successful_run nat exCompress exIsCancel exIsTargetClosed
              exCancelMessage (exOpts 2 false) exWidth2 exWidth1 2 None 1 false _ Hres)
    as (out & digits & H1 & _ & _ & _ & _ & _ & _ & _ & _ & H10).
  exists out. split; [exact H1|exact H10].
Defined.

(** ** More properties of the retry loop *)

(** X12: whatever happens to its attempts, a task started with
    [retriesLeft] retries makes at least one attempt and at most
    [retriesLeft + 1]. *)
Theorem task_attempts_within_retries
    (isUserCancelledRender isTargetClosedErr : Error -> bool)
    (env : nat -> AttemptEnv) (frame : Z) (index retriesLeft attempt : nat) :
  (1 <= attempts (renderFrameAndRetryTargetClose isUserCancelledRender isTargetClosedErr
                    env frame index retriesLeft attempt).1
   <= S retriesLeft)%nat.
Proof. apply attempts_bounded. Qed.

(** X13: a target-closed error caught in a run that was stopped is
    swallowed (line 423): the task returns without warning, without
    replacing the browser and without another attempt, and counts as
    fulfilled. *)
Theorem crash_in_stopped_run_returns_silently
    (isUserCancelledRender isTargetClosedErr : Error -> bool)
    (env : nat -> AttemptEnv) (frame : Z) (index retriesLeft attempt : nat) (err : Error)
    (Hrace : raceOutcome (env attempt) = Rejected err)
    (Hcrash : crashClass isUserCancelledRender isTargetClosedErr err)
    (Hstopped : stoppedAtCatch (env attempt) = true) :
  renderFrameAndRetryTargetClose isUserCancelledRender isTargetClosedErr
    env frame index retriesLeft attempt
  = ([TAttempt frame index retriesLeft attempt], Fulfilled).
Proof.
  destruct Hcrash as [Hc Ht].
  destruct retriesLeft; simpl; rewrite Hrace, Hstopped; unfold catchDecision;
    by rewrite Hc, Ht.
Qed.

(** X14: when the browser replacement itself fails, the task is rejected
    with the error of the replacement, not with the crash it recovered from,
    and the frame is not attempted again. *)
Theorem failed_replacement_rejects_task
    (isUserCancelledRender isTargetClosedErr : Error -> bool)
    (env : nat -> AttemptEnv) (frame : Z) (index retries attempt : nat) (err err' : Error)
    (Hrace : raceOutcome (env attempt) = Rejected err)
    (Hcrash : crashClass isUserCancelledRender isTargetClosedErr err)
    (Hrunning : stoppedAtCatch (env attempt) = false)
    (Hreplace : replaceOutcome (env attempt) = Rejected err') :
  let outcome := renderFrameAndRetryTargetClose isUserCancelledRender isTargetClosedErr
                   env frame index (S retries) attempt in
  outcome = ([TAttempt frame index (S retries) attempt; TWarnRetry frame (S retries);
              TReplaceBrowser], Rejected err')
  /\ attempts outcome.1 = 1%nat.
Proof.
  cbv zeta. simpl.
  rewrite Hrace, Hrunning, (catchDecision_crash _ _ err Hcrash), Hreplace. done.
Qed.

Definition sameFrameAndBudget (frame : Z) (index budget : nat) (o : TaskObs) : Prop :=
  match o with
  | TAttempt f i retriesLeft attempt =>
      f = frame /\ i = index /\ (attempt + retriesLeft = budget)%nat
  | _ => True
  end.

(** X15: every attempt of a task renders the task's own frame under the
    task's own index, and each retry trades one retry left for one attempt
    number: their sum is the same at every attempt. *)
Theorem attempts_keep_frame_and_budget
    (isUserCancelledRender isTargetClosedErr : Error -> bool)
    (env : nat -> AttemptEnv) (frame : Z) (index retriesLeft attempt : nat) :
  Forall (sameFrameAndBudget frame index (attempt + retriesLeft))
    (renderFrameAndRetryTargetClose isUserCancelledRender isTargetClosedErr
       env frame index retriesLeft attempt).1.
Proof.
  revert attempt. induction retriesLeft as [|r IH]; intros attempt; simpl.
  - destruct (raceOutcome (env attempt)) as [|err]; [by repeat constructor|].
    destruct (catchDecision _ _ err _); by repeat constructor.
  - destruct (raceOutcome (env attempt)) as [|err]; [by repeat constructor|].
    destruct (catchDecision _ _ err _); try by repeat constructor.
    destruct (replaceOutcome (env attempt)); [|by repeat constructor].
    specialize (IH (S attempt)).
    destruct (renderFrameAndRetryTargetClose _ _ env frame index r (S attempt)) as [obs res].
    simpl in *. repeat constructor; try done.
    replace (attempt + S r)%nat with (S attempt + r)%nat by lia. done.
Qed.

(** ** Concrete runs for the further properties *)

Definition exStoppedEnv (_ : nat) : AttemptEnv :=
  mkAttemptEnv (Rejected exTargetClosed) true Fulfilled.

Definition exFailedReplacement (_ : nat) : AttemptEnv :=
  mkAttemptEnv (Rejected exTargetClosed) false (Rejected (mkError "no browser"%string)).

Lemma crash_in_stopped_run_returns_silently_witness :
  raceOutcome (exStoppedEnv 1%nat) = Rejected exTargetClosed
  /\ stoppedAtCatch (exStoppedEnv 1%nat) = true
  /\ renderFrameAndRetryTargetClose exIsCancel exIsTargetClosed exStoppedEnv 7 3 1 1
     = ([TAttempt 7 3 1 1], Fulfilled).
Proof.
  split; [reflexivity|]. split; [reflexivity|].
  exact (crash_in_stopped_run_returns_silently exIsCancel exIsTargetClosed exStoppedEnv
           7 3 1 1 exTargetClosed eq_refl (conj eq_refl eq_refl) eq_refl).
Defined.

Lemma failed_replacement_rejects_task_witness :
  replaceOutcome (exFailedReplacement 1%nat) = Rejected (mkError "no browser"%string)
  /\ renderFrameAndRetryTargetClose exIsCancel exIsTargetClosed exFailedReplacement 7 3 1 1
     = ([TAttempt 7 3 1 1; TWarnRetry 7 1; TReplaceBrowser],
        Rejected (mkError "no browser"%string)).
Proof.
  split; [reflexivity|].
  exact (proj1 (failed_replacement_rejects_task exIsCancel exIsTargetClosed
                  exFailedReplacement 7 3 0 1 exTargetClosed (mkError "no browser"%string)
                  eq_refl (conj eq_refl eq_refl) eq_refl eq_refl)).
Defined.

(** The pool could not be created. *)
Definition exLaunchFailed : Error := mkError "Failed to launch the browser"%string.

Lemma no_page_without_pool_witness :
  let s := exRun (exOpts 1 false) [0] false
             [EvPoolFailed nat exLaunchFailed; EvResume nat 0] in
  poolPromise nat s = PoolRejected exLaunchFailed
  /\ pool nat s = Pool.create [].
Proof.
  cbv zeta. split; [vm_compute; reflexivity|].
  refine (proj1 (no_page_without_pool nat exCompress exIsCancel exIsTargetClosed
                   exCancelMessage (exOpts 1 false) [0] false
                   [EvPoolFailed nat exLaunchFailed; EvResume nat 0] _)).
  vm_compute. discriminate.
Defined.

Lemma stopped_run_starts_no_seek_witness :
  let s := exRun (exOpts 1 true) [0] false
             [EvPoolReady nat; EvResume nat 0; EvCancel nat] in
  let s' := run nat exCompress exIsCancel exIsTargetClosed exCancelMessage (exOpts 1 true)
              [EvResume nat 0; EvCatch nat 0] s in
  stopped nat s = true
  /\ bodies nat s = [mkBody 0 0 (BHolding 0%nat)]
  /\ seeks (trace nat s') = seeks (trace nat s).
Proof.
  cbv zeta. split; [vm_compute; reflexivity|]. split; [vm_compute; reflexivity|].
  refine (proj2 (stopped_run_starts_no_seek nat exCompress exIsCancel exIsTargetClosed
                   exCancelMessage (exOpts 1 true) _ [EvResume nat 0; EvCatch nat 0] _)).
  vm_compute. reflexivity.
Defined.

(** A frame-buffer callback and no output directory. *)
Definition exBufferOpts : Options := mkOptions None true "png"%string 1 false.

Lemma missing_buffer_fails_attempt_witness :
  let s := exRun exBufferOpts [0] false
             [EvPoolReady nat; EvResume nat 0; EvResume nat 0; EvSeekDone nat 0 Fulfilled] in
  let s' := step nat exCompress exIsCancel exIsTargetClosed exCancelMessage exBufferOpts
              (EvCaptureDone nat 0 (Captured nat false [5%nat])) s in
  bodies nat s = [mkBody 0 0 (BCapturing 0%nat)]
  /\ trace nat s' = OThrow 0 nullBufferError :: trace nat s
  /\ assets nat s' = assets nat s.
Proof.
  cbv zeta. split; [vm_compute; reflexivity|].
  destruct (missing_buffer_fails_attempt nat exCompress exIsCancel exIsTargetClosed
              exCancelMessage exBufferOpts
              (exRun exBufferOpts [0] false
                 [EvPoolReady nat; EvResume nat 0; EvResume nat 0; EvSeekDone nat 0 Fulfilled])
              0%nat (mkBody 0 0 (BCapturing 0%nat)) 0%nat [5%nat]
              ltac:(vm_compute; reflexivity) eq_refl eq_refl) as (H1 & H2 & _).
  split; [exact H1|exact H2].
Defined.

(** Audio only: no image format, no output directory, no callback. *)
Definition exAudioOnly : Options := mkOptions None false "none"%string 1 false.

Lemma format_none_skips_output_check_witness :
  let s := exRun exAudioOnly [0] false [EvPoolReady nat; EvResume nat 0; EvResume nat 0] in
  let s' := step nat exCompress exIsCancel exIsTargetClosed exCancelMessage exAudioOnly
              (EvSeekDone nat 0 Fulfilled) s in
  imageFormat exAudioOnly = "none"%string
  /\ bodies nat s = [mkBody 0 0 (BSeeking 0%nat)]
  /\ trace nat s' = OCapture 0 0%nat 0 :: trace nat s.
Proof.
  cbv zeta. split; [reflexivity|]. split; [vm_compute; reflexivity|].
  destruct (format_none_skips_output_check nat exCompress exIsCancel exIsTargetClosed
              exCancelMessage exAudioOnly
              (exRun exAudioOnly [0] false [EvPoolReady nat; EvResume nat 0; EvResume nat 0])
              0%nat (mkBody 0 0 (BSeeking 0%nat)) 0%nat
              eq_refl ltac:(vm_compute; reflexivity) eq_refl) as (_ & H & _).
  exact H.
Defined.

Lemma pool_failure_fails_run_witness :
  let s := exRun (exOpts 1 false) [0] false [EvPoolFailed nat exLaunchFailed] in
  let s2 := run nat exCompress exIsCancel exIsTargetClosed exCancelMessage (exOpts 1 false)
              [EvResume nat 0; EvCatch nat 0] s in
  poolPromise nat s = PoolRejected exLaunchFailed
  /\ result nat s = None
  /\ result nat s2 = Some (Rejected exLaunchFailed).
Proof.
  cbv zeta. split; [vm_compute; reflexivity|]. split; [vm_compute; reflexivity|].
  destruct (pool_failure_fails_run nat exCompress exIsCancel exIsTargetClosed
              exCancelMessage (exOpts 1 false)
              (exRun (exOpts 1 false) [0] false [EvPoolFailed nat exLaunchFailed])
              exLaunchFailed 0%nat (mkBody 0 0 BAwaitPool) (mkTask 0 0 1 1 (TRacing 0))
              ltac:(vm_compute; reflexivity) ltac:(vm_compute; reflexivity) eq_refl
              ltac:(vm_compute; reflexivity) eq_refl (or_intror eq_refl)
              ltac:(vm_compute; reflexivity)) as (_ & _ & _ & _ & _ & H).
  exact H.
Defined.

Lemma cancel_rejects_unsettled_run_witness :
  let s := exRun (exOpts 1 true) [0; 1] false [EvPoolReady nat; EvResume nat 0] in
  let s' := step nat exCompress exIsCancel exIsTargetClosed exCancelMessage (exOpts 1 true)
              (EvCancel nat) s in
  stopped nat s = false
  /\ result nat s = None
  /\ result nat s' = Some (Rejected (cancelError exCancelMessage)).
Proof.
  cbv zeta. split; [vm_compute; reflexivity|]. split; [vm_compute; reflexivity|].
  destruct (cancel_rejects_unsettled_run nat exCompress exIsCancel exIsTargetClosed
              exCancelMessage (exOpts 1 true)
              (exRun (exOpts 1 true) [0; 1] false [EvPoolReady nat; EvResume nat 0])
              [] eq_refl ltac:(vm_compute; reflexivity) ltac:(vm_compute; reflexivity))
    as (_ & H & _).
  exact H.
Defined.
